(** * Better-Perplexity: the research and verification pipeline

    A shallow embedding of the planner, the retriever, the verifier, the
    generation providers' JSON recovery and the orchestrator's retrieval and
    caching stages, with the properties the specification states about them;
    and of the rate limiter, the page fetcher, the extraction of claims, the
    providers' streams and the handler from the body of the request, with
    further properties of the code.

    Conventions of the embedding.
    - A JavaScript string is a [string]: a sequence of code units, one
      [ascii] each, so the model covers the code units below 256 (Latin-1).
    - A JavaScript [number] that the code uses as a count, an index, a
      status or a time in milliseconds is a [Z].  A score is a double; the
      model keeps its exact value as a [Q] and rounds every quotient and
      every decimal literal to the nearest double ([to_double]).
    - A [Set<string>] is a [gset string]; the in-memory cache is a [gmap].
    - A function that can throw returns [Exn]; try/catch is [try_catch].
    - What the outside world answers (search results, pages, documents,
      completions, clock readings, the order in which suspended workers
      resume) is an argument of the model: an [Env] for one [research]
      call, a [RunEnv] for one request. *)

From Stdlib Require Import ZArith QArith Qround Lia Lqa Ascii String.
From stdpp Require Import base decidable option list gmap strings sorting.

Set Warnings "-clear-no-such-hyp,-register-all".

Local Open Scope string_scope.
Local Open Scope list_scope.
Local Open Scope Z_scope.

(** ** Exceptions *)

Inductive Error :=
  | NoJsonError          (* "Model did not return JSON." *)
  | MalformedJsonError   (* "Model returned malformed JSON." *)
  | SyntaxError          (* thrown by JSON.parse *)
  | ZodError             (* thrown by a schema's parse *)
  | TypeError            (* property read on undefined, invalid URL *)
  | UpstreamError.       (* a failed or timed out network call *)

Inductive Exn (A : Type) :=
  | Ok (a : A)
  | Throw (e : Error).
Arguments Ok {A} a.
Arguments Throw {A} e.

Definition bindE {A B} (m : Exn A) (k : A -> Exn B) : Exn B :=
  match m with
  | Ok a => k a
  | Throw e => Throw e
  end.

Definition try_catch {A} (body : Exn A) (handler : Error -> Exn A) : Exn A :=
  match body with
  | Ok a => Ok a
  | Throw e => handler e
  end.

Notation "'let!' x ':=' m 'in' k" := (bindE m (fun x => k))
  (at level 10, x name, m at level 100, k at level 200).

(** ** The string and array primitives of the platform *)

Module JS.

Definition code (c : ascii) : Z := Z.of_N (N_of_ascii c).

(** White space as [trim] and the regular expression class [\s] see it. *)
Definition is_space (c : ascii) : bool :=
  let n := code c in
  ((9 <=? n) && (n <=? 13)) || (n =? 32) || (n =? 160).

Definition is_upper (c : ascii) : bool :=
  let n := code c in
  ((65 <=? n) && (n <=? 90))
  || ((192 <=? n) && (n <=? 222) && negb (n =? 215)).

Definition lower_char (c : ascii) : ascii :=
  if is_upper c then ascii_of_N (Z.to_N (code c + 32)) else c.

Fixpoint toLowerCase (s : string) : string :=
  match s with
  | EmptyString => EmptyString
  | String c r => String (lower_char c) (toLowerCase r)
  end.

Fixpoint trimStart (s : string) : string :=
  match s with
  | EmptyString => EmptyString
  | String c r => if is_space c then trimStart r else s
  end.

Fixpoint trimEnd (s : string) : string :=
  match s with
  | EmptyString => EmptyString
  | String c r =>
      match trimEnd r with
      | EmptyString => if is_space c then EmptyString else String c EmptyString
      | r' => String c r'
      end
  end.

Definition trim (s : string) : string := trimEnd (trimStart s).

Definition len (s : string) : Z := Z.of_nat (String.length s).

(** [s.slice(from, to)] and [a.slice(from, to)]: a negative bound counts
    from the end, and both are clamped to the length. *)
Definition clamp_index (n i : Z) : Z :=
  if i <? 0 then Z.max (n + i) 0 else Z.min i n.

Definition slice (s : string) (from to : Z) : string :=
  let n := len s in
  let a := clamp_index n from in
  let b := clamp_index n to in
  String.substring (Z.to_nat a) (Z.to_nat (Z.max (b - a) 0)) s.

Definition slice_list {A} (l : list A) (from to : Z) : list A :=
  let n := Z.of_nat (length l) in
  let a := clamp_index n from in
  let b := clamp_index n to in
  take (Z.to_nat (Z.max (b - a) 0)) (drop (Z.to_nat a) l).

(** [s.indexOf(c)] and [s.lastIndexOf(c)] for a one-character needle;
    -1 when there is none. *)
Fixpoint indexOf_from (c : ascii) (s : string) (i : Z) : Z :=
  match s with
  | EmptyString => -1
  | String d r => if Ascii.eqb d c then i else indexOf_from c r (i + 1)
  end.

Definition indexOf (s : string) (c : ascii) : Z := indexOf_from c s 0.

Fixpoint lastIndexOf_from (c : ascii) (s : string) (i : Z) (found : Z) : Z :=
  match s with
  | EmptyString => found
  | String d r =>
      lastIndexOf_from c r (i + 1) (if Ascii.eqb d c then i else found)
  end.

Definition lastIndexOf (s : string) (c : ascii) : Z :=
  lastIndexOf_from c s 0 (-1).

(** [hay.includes(needle)] *)
Fixpoint includes (hay needle : string) : bool :=
  String.prefix needle hay
  || match hay with
     | EmptyString => false
     | String _ r => includes r needle
     end.

(** [s.replace(/[^a-z0-9\s]/g, " ")] *)
Definition is_alnum_lower (c : ascii) : bool :=
  let n := code c in
  ((97 <=? n) && (n <=? 122)) || ((48 <=? n) && (n <=? 57)).

Fixpoint replace_non_token (s : string) : string :=
  match s with
  | EmptyString => EmptyString
  | String c r =>
      String (if is_alnum_lower c || is_space c then c else " "%char)
             (replace_non_token r)
  end.

(** [s.split(/\s+/g)]: the pieces between maximal runs of white space,
    with an empty piece before a leading run and after a trailing one. *)
Fixpoint split_ws_go (s : string) (cur : string) (in_sep : bool) : list string :=
  match s with
  | EmptyString => [cur]
  | String c r =>
      if is_space c
      then if in_sep then split_ws_go r cur true
           else cur :: split_ws_go r EmptyString true
      else split_ws_go r (cur +:+ String c EmptyString) false
  end.

Definition split_ws (s : string) : list string := split_ws_go s EmptyString false.

(** [s.replace(/\s+/g, " ")] *)
Fixpoint collapse_ws_go (s : string) (in_sep : bool) : string :=
  match s with
  | EmptyString => EmptyString
  | String c r =>
      if is_space c
      then if in_sep then collapse_ws_go r true
           else String " "%char (collapse_ws_go r true)
      else String c (collapse_ws_go r false)
  end.

Definition collapse_ws (s : string) : string := collapse_ws_go s false.

Definition newline : ascii := ascii_of_N 10.

Fixpoint repeat_char (c : ascii) (n : nat) : string :=
  match n with
  | O => EmptyString
  | S k => String c (repeat_char c k)
  end.

(** [s.split(/\n{2,}/g)]: a run of two or more line feeds separates two
    pieces; a single line feed stays inside its piece.  [pending] counts
    the line feeds read since the last other character. *)
Fixpoint split_blank_go (s : string) (cur : string) (pending : nat) : list string :=
  match s with
  | EmptyString =>
      if (2 <=? pending)%nat then [cur; EmptyString]
      else [cur +:+ repeat_char newline pending]
  | String c r =>
      if Ascii.eqb c newline then split_blank_go r cur (S pending)
      else if (2 <=? pending)%nat
           then cur :: split_blank_go r (String c EmptyString) 0
           else split_blank_go r (cur +:+ repeat_char newline pending +:+ String c EmptyString) 0
  end.

Definition split_blank (s : string) : list string := split_blank_go s EmptyString 0.

End JS.

(** ** Shared run types (types/run.ts) *)

Record Selected := { sel_url : string; reason : string }.

Inductive TraceEvent :=
  | TrPlanner (intents : list string)
  | TrSearch (query : string) (results : Z)
  | TrFetch (url : string) (status : Z)
  | TrSelect (selected : list Selected)
  | TrTiming (ms : Z).

Inductive ClaimSupportLabel := supported | weak | unsupported.

(** ** The retriever (agents/researcher.ts) *)

Record EvidenceSource := {
  url : string;
  title : string;
  domain : string;
  excerpt : string;
  text : string;
  contentHash : string
}.

Record SearchResult := {
  sr_title : string;
  link : string;
  snippet : option string   (* [None]: the search result carries no snippet *)
}.

Record ResearchOptions := {
  budgetMs : Z;
  perIntentUrls : Z;
  concurrency : Z;
  maxSources : Z;
  minSources : Z
}.

Record FetchResult := {
  fr_url : string;
  status : Z;
  contentType : string;
  html : string
}.

Record ExtractedDoc := {
  doc_title : string;
  doc_text : string;
  doc_excerpt : string;
  doc_contentHash : string
}.

Record ResearchResult := {
  res_trace : list TraceEvent;
  res_sources : list EvidenceSource
}.

(** [hostname.replace(/^www\./, "")] *)
Definition strip_www (h : string) : string :=
  if String.prefix "www." h then JS.slice h 4 (JS.len h) else h.

(** The filter of [research] and the loop of [mergeSourcesByHash] keep an
    element when its hash is not in [seen] yet, and add the hash. *)
Fixpoint dedupe_go (l : list EvidenceSource) (seen : gset string) : list EvidenceSource :=
  match l with
  | [] => []
  | s :: r =>
      if decide (contentHash s ∈ seen) then dedupe_go r seen
      else s :: dedupe_go r ({[contentHash s]} ∪ seen)
  end.

Definition dedupe (l : list EvidenceSource) : list EvidenceSource := dedupe_go l ∅.

Definition total_chars (l : list EvidenceSource) : Z :=
  foldl (fun a s => a + JS.len (text s)) 0 l.

Definition enoughEvidence (opts : ResearchOptions) (sources : list EvidenceSource) : bool :=
  if maxSources opts <=? Z.of_nat (length sources) then true
  else (minSources opts <=? Z.of_nat (length sources)) && (2500 <=? total_chars sources).

(** What one worker is doing between two of its suspension points. *)
Inductive WorkerState :=
  | AtHead                          (* about to test [idx < tasks.length] *)
  | AwaitFetch (cur : Selected)     (* suspended in [await fetchHtml(cur.url)] *)
  | AwaitExtract (cur : Selected)   (* suspended in [await extractReadable(...)] *)
  | Returned.

(** The variables the workers of one [research] call share. *)
Record Pool := {
  idx : nat;
  sources : list EvidenceSource;
  trace : list TraceEvent;
  clock : Z;                        (* the last reading of [Date.now()] *)
  workers : list WorkerState
}.

(** What the event loop can do next: let worker [w] run from the loop head,
    resolve its fetch with a page, or settle its extraction.  Every event
    happens at a time [now], which is what [nowMs()] reads while the worker
    runs.  A fetch that rejects has no event: [fetchHtml] catches the
    failures of the network, and rejects only when the store fails or holds,
    under the key of the page, a text that [JSON.parse] refuses. *)
Inductive Event :=
  | EvHead (w : nat) (now : Z)
  | EvFetched (w : nat) (page : FetchResult) (now : Z)
  | EvExtracted (w : nat) (doc : Exn ExtractedDoc) (now : Z).

Definition event_time (ev : Event) : Z :=
  match ev with
  | EvHead _ now | EvFetched _ _ now | EvExtracted _ _ now => now
  end.

(** What the world answers during one [research] call. *)
Record Env := {
  searchReplies : list (Exn (list SearchResult));  (* one per intent, in order *)
  startMs : Z;                                     (* [nowMs()] on entry *)
  schedule : list Event;                           (* the fetch phase *)
  finishMs : Z                                     (* [nowMs()] after [Promise.all] *)
}.

Definition set_worker (w : nat) (st : WorkerState) (p : Pool) : Pool :=
  {| idx := idx p; sources := sources p; trace := trace p; clock := clock p;
     workers := <[w := st]> (workers p) |}.

Definition tick (now : Z) (p : Pool) : Pool :=
  {| idx := idx p; sources := sources p; trace := trace p; clock := now;
     workers := workers p |}.

Section Retriever.

(** [new URL(url).hostname]; it throws on a string that is not a URL. *)
Variable hostname : string -> Exn string.

Definition domainOf (u : string) : Exn string :=
  let! h := hostname u in Ok (strip_www h).

Definition select_reason : string :=
  "Top-ranked unique domain with informative snippet.".

Definition snippet_too_short (r : SearchResult) : bool :=
  match snippet r with
  | None => true
  | Some sn => (sn =? "")%string || (JS.len sn <? 30)
  end.

Fixpoint selectUrls_loop (results : list SearchResult) (max : Z)
    (seenDomains : gset string) (selected : list Selected) : list Selected :=
  match results with
  | [] => selected
  | r :: rest =>
      match domainOf (link r) with
      | Throw _ => selectUrls_loop rest max seenDomains selected
      | Ok d =>
          if decide (d ∈ seenDomains) then selectUrls_loop rest max seenDomains selected
          else if snippet_too_short r then selectUrls_loop rest max seenDomains selected
          else
            let seenDomains' := {[d]} ∪ seenDomains in
            let selected' := selected ++ [{| sel_url := link r; reason := select_reason |}] in
            if max <=? Z.of_nat (length selected') then selected'
            else selectUrls_loop rest max seenDomains' selected'
      end
  end.

Definition selectUrls (results : list SearchResult) (max : Z) : list Selected :=
  selectUrls_loop results max ∅ [].

(** Phase A: one search and one selection per intent, in order.  [None]
    when the environment has no reply left for an intent. *)
Fixpoint select_phase (intents : list string) (replies : list (Exn (list SearchResult)))
    (opts : ResearchOptions) (tr : list TraceEvent) (tasks : list Selected)
    : option (Exn (list TraceEvent * list Selected)) :=
  match intents with
  | [] => Some (Ok (tr, tasks))
  | q :: intents' =>
      match replies with
      | [] => None
      | Throw e :: _ => Some (Throw e)
      | Ok results :: replies' =>
          let selected := selectUrls results (perIntentUrls opts) in
          select_phase intents' replies' opts
            (tr ++ [TrSearch q (Z.of_nat (length results)); TrSelect selected])
            (tasks ++ selected)
      end
  end.

Section Workers.

Variable tasks : list Selected.
Variable opts : ResearchOptions.
Variable deadline : Z.

(** From [while (idx < tasks.length)] to the call of [fetchHtml]. *)
Definition run_head (w : nat) (now : Z) (p : Pool) : Pool :=
  match tasks !! idx p with
  | None => set_worker w Returned p
  | Some cur =>
      if deadline <? now then set_worker w Returned p
      else if enoughEvidence opts (sources p) then set_worker w Returned p
      else {| idx := S (idx p); sources := sources p; trace := trace p;
              clock := clock p; workers := <[w := AwaitFetch cur]> (workers p) |}
  end.

(** From the page to the call of [extractReadable]. *)
Definition run_fetched (w : nat) (cur : Selected) (page : FetchResult) (now : Z)
    (p : Pool) : Pool :=
  let p := {| idx := idx p; sources := sources p;
              trace := trace p ++ [TrFetch (sel_url cur) (status page)];
              clock := clock p; workers := workers p |} in
  if deadline <? now then set_worker w Returned p
  else if (status page <? 200) || (300 <=? status page) then set_worker w AtHead p
  else if negb (JS.includes (JS.toLowerCase (contentType page)) "text/html")
       then set_worker w AtHead p
  else if (html page =? "")%string then set_worker w AtHead p
  else set_worker w (AwaitExtract cur) p.

(** From the extracted document to the next loop test. *)
Definition run_extracted (w : nat) (cur : Selected) (doc : Exn ExtractedDoc)
    (p : Pool) : Pool :=
  match doc with
  | Throw _ => set_worker w AtHead p
  | Ok d =>
      if (doc_text d =? "")%string || (JS.len (doc_text d) <? 300)
      then set_worker w AtHead p
      else
        match domainOf (sel_url cur) with
        | Throw _ => set_worker w AtHead p
        | Ok dom =>
            set_worker w AtHead
              {| idx := idx p;
                 sources := sources p ++
                   [{| url := sel_url cur; title := doc_title d; domain := dom;
                       excerpt := doc_excerpt d; text := doc_text d;
                       contentHash := doc_contentHash d |}];
                 trace := trace p; clock := clock p; workers := workers p |}
        end
  end.

(** One event; [None] when the worker is not waiting for it, or when
    the clock would run backwards. *)
Definition exec (ev : Event) (p : Pool) : option Pool :=
  if event_time ev <? clock p then None
  else
    let p := tick (event_time ev) p in
    match ev with
    | EvHead w now =>
        match workers p !! w with
        | Some AtHead => Some (run_head w now p)
        | _ => None
        end
    | EvFetched w page now =>
        match workers p !! w with
        | Some (AwaitFetch cur) => Some (run_fetched w cur page now p)
        | _ => None
        end
    | EvExtracted w doc now =>
        match workers p !! w with
        | Some (AwaitExtract cur) => Some (run_extracted w cur doc p)
        | _ => None
        end
    end.

Fixpoint run_events (evs : list Event) (p : Pool) : option Pool :=
  match evs with
  | [] => Some p
  | ev :: evs' =>
      match exec ev p with
      | None => None
      | Some p' => run_events evs' p'
      end
  end.

Definition all_returned (p : Pool) : bool :=
  forallb (fun st => match st with Returned => true | _ => false end) (workers p).

End Workers.

Definition initial_pool (tr : list TraceEvent) (start : Z) (n : nat) : Pool :=
  {| idx := 0; sources := []; trace := tr; clock := start;
     workers := replicate n AtHead |}.

Definition worker_count (opts : ResearchOptions) (tasks : list Selected) : nat :=
  Z.to_nat (Z.min (concurrency opts) (Z.of_nat (length tasks))).

(** [research(intents, opts)] in the environment [env], up to the
    settling of [Promise.all]: the pool the workers leave.  [None] when
    [env] does not describe a complete call (a reply is missing, an event
    does not fit, or a worker is left suspended). *)
Definition fetch_phase (intents : list string) (opts : ResearchOptions) (env : Env)
    : option (Exn Pool) :=
  let start := startMs env in
  let deadline := start + budgetMs opts in
  match select_phase intents (searchReplies env) opts [] [] with
  | None => None
  | Some (Throw e) => Some (Throw e)
  | Some (Ok (tr, tasks)) =>
      match run_events tasks opts deadline (schedule env)
              (initial_pool tr start (worker_count opts tasks)) with
      | None => None
      | Some p =>
          if finishMs env <? clock p then None
          else if all_returned p then Some (Ok p) else None
      end
  end.

Definition research (intents : list string) (opts : ResearchOptions) (env : Env)
    : option (Exn ResearchResult) :=
  match fetch_phase intents opts env with
  | None => None
  | Some (Throw e) => Some (Throw e)
  | Some (Ok p) =>
      Some (Ok {| res_trace := trace p ++ [TrTiming (finishMs env - startMs env)];
                  res_sources := JS.slice_list (dedupe (sources p)) 0 (maxSources opts) |})
  end.

End Retriever.

(** A hostname function for the examples: it reads the URLs of the form
    [http(s)://host[:port][/...]] and refuses every other string, as
    [new URL] refuses a string with no scheme. *)
Fixpoint host_prefix (s : string) : string :=
  match s with
  | EmptyString => EmptyString
  | String c r =>
      if (Ascii.eqb c "/" || Ascii.eqb c "?" || Ascii.eqb c "#" || Ascii.eqb c ":")%char
      then EmptyString
      else String c (host_prefix r)
  end.

Definition url_hostname (u : string) : Exn string :=
  let rest :=
    if String.prefix "https://" u then Some (JS.slice u 8 (JS.len u))
    else if String.prefix "http://" u then Some (JS.slice u 7 (JS.len u))
    else None in
  match rest with
  | None => Throw TypeError
  | Some r =>
      let h := JS.toLowerCase (host_prefix r) in
      if (h =? "")%string then Throw TypeError else Ok h
  end.

(** ** JSON values and [JSON.parse] *)

Inductive Json :=
  | JNull
  | JBool (b : bool)
  | JNum (lexeme : string)
  | JStr (s : string)
  | JArr (items : list Json)
  | JObj (fields : list (string * Json)).

(** [o[k]] on a parsed object: the last member named [k] wins. *)
Fixpoint obj_get (k : string) (fields : list (string * Json)) : option Json :=
  match fields with
  | [] => None
  | (k', v) :: r =>
      match obj_get k r with
      | Some v' => Some v'
      | None => if (k =? k')%string then Some v else None
      end
  end.

Module JsonText.

Definition is_ws (c : ascii) : bool :=
  let n := JS.code c in (n =? 32) || (n =? 9) || (n =? 10) || (n =? 13).

Fixpoint skip_ws (s : string) : string :=
  match s with
  | String c r => if is_ws c then skip_ws r else s
  | EmptyString => s
  end.

Definition quote : ascii := ascii_of_N 34.

Definition backslash : ascii := ascii_of_N 92.

Definition is_digit (c : ascii) : bool :=
  let n := JS.code c in (48 <=? n) && (n <=? 57).

Fixpoint span_digits (s : string) : string * string :=
  match s with
  | String c r =>
      if is_digit c then let '(d, rest) := span_digits r in (String c d, rest)
      else (EmptyString, s)
  | EmptyString => (EmptyString, s)
  end.

Definition hex_value (c : ascii) : option Z :=
  let n := JS.code c in
  if (48 <=? n) && (n <=? 57) then Some (n - 48)
  else if (65 <=? n) && (n <=? 70) then Some (n - 55)
  else if (97 <=? n) && (n <=? 102) then Some (n - 87)
  else None.

(** A code unit above 255 has no [ascii]; the model writes "?" for it,
    which keeps the validity of the text and the length of the string. *)
Definition unit_char (n : Z) : ascii :=
  if n <? 256 then ascii_of_N (Z.to_N n) else "?"%char.

(** The characters of a string literal after its opening quote. *)
Fixpoint string_body (s : string) : option (string * string) :=
  match s with
  | EmptyString => None
  | String c r =>
      if Ascii.eqb c quote then Some (EmptyString, r)
      else if JS.code c <? 32 then None
      else if Ascii.eqb c backslash then
        match r with
        | String e r' =>
            let simple (x : ascii) :=
              match string_body r' with
              | Some (b, rest) => Some (String x b, rest)
              | None => None
              end in
            if Ascii.eqb e quote then simple quote
            else if Ascii.eqb e backslash then simple backslash
            else if Ascii.eqb e "/"%char then simple "/"%char
            else if Ascii.eqb e "b"%char then simple (ascii_of_N 8)
            else if Ascii.eqb e "f"%char then simple (ascii_of_N 12)
            else if Ascii.eqb e "n"%char then simple (ascii_of_N 10)
            else if Ascii.eqb e "r"%char then simple (ascii_of_N 13)
            else if Ascii.eqb e "t"%char then simple (ascii_of_N 9)
            else if Ascii.eqb e "u"%char then
              match r' with
              | String h1 (String h2 (String h3 (String h4 r4))) =>
                  match hex_value h1, hex_value h2, hex_value h3, hex_value h4,
                        string_body r4 with
                  | Some a, Some b, Some c', Some d, Some (body, rest) =>
                      Some (String (unit_char (((a * 16 + b) * 16 + c') * 16 + d)) body, rest)
                  | _, _, _, _, _ => None
                  end
              | _ => None
              end
            else None
        | EmptyString => None
        end
      else
        match string_body r with
        | Some (b, rest) => Some (String c b, rest)
        | None => None
        end
  end.

(** A number: an optional minus sign; the digit 0 alone or digits that
    do not start with 0; an optional fraction, a dot and digits; an
    optional exponent, e or E, an optional sign and digits. *)
Definition number (s : string) : option (string * string) :=
  let '(sign, s1) :=
    match s with
    | String "-" r => ("-", r)
    | _ => (EmptyString, s)
    end in
  let '(int, s2) := span_digits s1 in
  if (int =? "")%string then None
  else if String.prefix "0" int && negb (int =? "0")%string then None
  else
    let '(frac, s3) :=
      match s2 with
      | String "." r =>
          let '(d, rest) := span_digits r in
          if (d =? "")%string then (None, s2) else (Some ("." +:+ d), rest)
      | _ => (Some EmptyString, s2)
      end in
    match frac with
    | None => None
    | Some frac =>
        let '(expo, s4) :=
          match s3 with
          | String e r =>
              if (Ascii.eqb e "e" || Ascii.eqb e "E")%char then
                let '(sg, r1) :=
                  match r with
                  | String "+" r' => ("+", r')
                  | String "-" r' => ("-", r')
                  | _ => (EmptyString, r)
                  end in
                let '(d, rest) := span_digits r1 in
                if (d =? "")%string then (None, s3)
                else (Some (String e sg +:+ d), rest)
              else (Some EmptyString, s3)
          | EmptyString => (Some EmptyString, s3)
          end in
        match expo with
        | None => None
        | Some expo => Some (sign +:+ int +:+ frac +:+ expo, s4)
        end
    end.

(** One value at the head of [s], with the text that follows it. *)
Fixpoint value (fuel : nat) (s : string) {struct fuel} : option (Json * string) :=
  match fuel with
  | O => None
  | S fuel' =>
      match skip_ws s with
      | String "{" r =>
          match skip_ws r with
          | String "}" r' => Some (JObj [], r')
          | r1 =>
              match members fuel' r1 [] with
              | Some (fs, rest) => Some (JObj fs, rest)
              | None => None
              end
          end
      | String "[" r =>
          match skip_ws r with
          | String "]" r' => Some (JArr [], r')
          | r1 =>
              match elements fuel' r1 [] with
              | Some (vs, rest) => Some (JArr vs, rest)
              | None => None
              end
          end
      | s1 =>
          if String.prefix (String quote EmptyString) s1 then
            match string_body (JS.slice s1 1 (JS.len s1)) with
            | Some (b, rest) => Some (JStr b, rest)
            | None => None
            end
          else if String.prefix "true" s1 then Some (JBool true, JS.slice s1 4 (JS.len s1))
          else if String.prefix "false" s1 then Some (JBool false, JS.slice s1 5 (JS.len s1))
          else if String.prefix "null" s1 then Some (JNull, JS.slice s1 4 (JS.len s1))
          else
            match number s1 with
            | Some (lx, rest) => Some (JNum lx, rest)
            | None => None
            end
      end
  end
with elements (fuel : nat) (s : string) (acc : list Json) {struct fuel}
    : option (list Json * string) :=
  match fuel with
  | O => None
  | S fuel' =>
      match value fuel' s with
      | None => None
      | Some (v, r) =>
          match skip_ws r with
          | String "," r' => elements fuel' r' (acc ++ [v])
          | String "]" r' => Some (acc ++ [v], r')
          | _ => None
          end
      end
  end
with members (fuel : nat) (s : string) (acc : list (string * Json)) {struct fuel}
    : option (list (string * Json) * string) :=
  match fuel with
  | O => None
  | S fuel' =>
      match skip_ws s with
      | String c r =>
          if negb (Ascii.eqb c quote) then None else
          match string_body r with
          | None => None
          | Some (k, r1) =>
              match skip_ws r1 with
              | String ":" r2 =>
                  match value fuel' r2 with
                  | None => None
                  | Some (v, r3) =>
                      match skip_ws r3 with
                      | String "," r4 => members fuel' r4 (acc ++ [(k, v)])
                      | String "}" r4 => Some (acc ++ [(k, v)], r4)
                      | _ => None
                      end
                  end
              | _ => None
              end
          end
      | _ => None
      end
  end.

(** [JSON.parse(s)]: one value, with white space around it and nothing
    else.  Every call of [value], [elements] or [members] on the way
    either fails or reads a character, so twice the length is fuel
    enough. *)
Definition parse (s : string) : Exn Json :=
  match value (2 * String.length s + 2) s with
  | Some (v, rest) =>
      if (skip_ws rest =? "")%string then Ok v else Throw SyntaxError
  | None => Throw SyntaxError
  end.

End JsonText.

(** ** The providers' JSON mode (llm/ollama.ts, llm/openrouter.ts) *)

Section Providers.

(** [JSON.parse] *)
Variable JSON_parse : string -> Exn Json.

Definition first_opener (t : string) : Z :=
  let firstObj := JS.indexOf t "{" in
  let firstArr := JS.indexOf t "[" in
  if firstObj =? -1 then firstArr
  else if firstArr =? -1 then firstObj
  else Z.min firstObj firstArr.

Definition last_closer (t : string) : Z :=
  let endObj := JS.lastIndexOf t "}" in
  let endArr := JS.lastIndexOf t "]" in
  Z.max endObj endArr.

(** The same function in both providers. *)
Definition safeJsonParse (text : string) : Exn Json :=
  let t := JS.trim text in
  try_catch (JSON_parse t) (fun _ =>
    let start := first_opener t in
    if start =? -1 then Throw NoJsonError
    else
      let end_ := last_closer t in
      if end_ <=? start then Throw MalformedJsonError
      else JSON_parse (JS.slice t start (end_ + 1))).

(** [chat(opts)] with [opts.json] set, from the text of the completion
    on; [completion] is what the HTTP exchange gave: the text, or an
    exception when the call failed or timed out. *)
Definition chat_json {T} (completion : Exn string) (parse : Json -> Exn T)
    : Exn (string * option T) :=
  let! text := completion in
  let! raw := safeJsonParse text in
  let! parsed := parse raw in
  Ok (text, Some parsed).

End Providers.

(** *** The recovery as the specification words it

    The specification asks for the first balanced [{...}] or [[...]]
    substring.  [spec_first_balanced] and [spec_safeJsonParse] follow those
    words, to be compared with [safeJsonParse]. *)

Definition is_opener (c : ascii) : bool := (Ascii.eqb c "{" || Ascii.eqb c "[")%char.

Definition is_closer (c : ascii) : bool := (Ascii.eqb c "}" || Ascii.eqb c "]")%char.

Definition closer_of (c : ascii) : ascii :=
  if Ascii.eqb c "{"%char then "}"%char else "]"%char.

(** The number of characters of [s] read until the brackets awaited in
    [stack] are all closed; [None] on a closer that does not match or when
    [s] ends first. *)
Fixpoint balanced_end (s : string) (stack : list ascii) (n : nat) : option nat :=
  match s with
  | EmptyString => None
  | String c r =>
      if is_opener c then balanced_end r (closer_of c :: stack) (S n)
      else if is_closer c then
        match stack with
        | top :: rest =>
            if Ascii.eqb c top then
              match rest with
              | [] => Some (S n)
              | _ => balanced_end r rest (S n)
              end
            else None
        | [] => None
        end
      else balanced_end r stack (S n)
  end.

Fixpoint spec_first_balanced (t : string) : option string :=
  match t with
  | EmptyString => None
  | String c r =>
      if is_opener c then
        match balanced_end r [closer_of c] 1 with
        | Some n => Some (String.substring 0 n t)
        | None => spec_first_balanced r
        end
      else spec_first_balanced r
  end.

Definition spec_safeJsonParse (JSON_parse : string -> Exn Json) (text : string) : Exn Json :=
  let t := JS.trim text in
  try_catch (JSON_parse t) (fun _ =>
    match spec_first_balanced t with
    | Some sub => JSON_parse sub
    | None => Throw NoJsonError
    end).

(** ** The planner (agents/planner.ts) *)

Inductive RawIntent :=
  | IntentString (s : string)
  | IntentObject (query : string) (rationale : option string).

Inductive TimeSensitivity := ts_none | ts_recent | ts_current.

Record RawPlan := {
  raw_intents : list RawIntent;
  raw_must_include : list string;
  raw_time_sensitivity : TimeSensitivity
}.

Record Plan := {
  plan_intents : list string;
  must_include : list string;
  time_sensitivity : TimeSensitivity
}.

(** [z.string().min(n)] *)
Definition zod_string_min (n : Z) (j : Json) : Exn string :=
  match j with
  | JStr s => if n <=? JS.len s then Ok s else Throw ZodError
  | _ => Throw ZodError
  end.

(** [z.string().optional()] on the value of a member that may be absent *)
Definition zod_string_optional (j : option Json) : Exn (option string) :=
  match j with
  | None => Ok None
  | Some (JStr s) => Ok (Some s)
  | Some _ => Throw ZodError
  end.

Definition IntentSchema_parse (j : Json) : Exn RawIntent :=
  match j with
  | JStr s => if 3 <=? JS.len s then Ok (IntentString s) else Throw ZodError
  | JObj fields =>
      match obj_get "query" fields with
      | None => Throw ZodError
      | Some q =>
          let! query := zod_string_min 3 q in
          let! rationale := zod_string_optional (obj_get "rationale" fields) in
          Ok (IntentObject query rationale)
      end
  | _ => Throw ZodError
  end.

Fixpoint zod_array {T} (item : Json -> Exn T) (items : list Json) : Exn (list T) :=
  match items with
  | [] => Ok []
  | j :: r =>
      match item j, zod_array item r with
      | Ok v, Ok vs => Ok (v :: vs)
      | _, _ => Throw ZodError
      end
  end.

Definition TimeSensitivity_parse (j : Json) : Exn TimeSensitivity :=
  match j with
  | JStr s =>
      if (s =? "none")%string then Ok ts_none
      else if (s =? "recent")%string then Ok ts_recent
      else if (s =? "current")%string then Ok ts_current
      else Throw ZodError
  | _ => Throw ZodError
  end.

Definition PlanSchema_parse (raw : Json) : Exn RawPlan :=
  match raw with
  | JObj fields =>
      let! intents :=
        match obj_get "intents" fields with
        | Some (JArr items) =>
            let n := Z.of_nat (length items) in
            if (2 <=? n) && (n <=? 6) then zod_array IntentSchema_parse items
            else Throw ZodError
        | _ => Throw ZodError
        end in
      let! must :=
        match obj_get "must_include" fields with
        | None => Ok []
        | Some (JArr items) => zod_array (zod_string_min 0) items
        | Some _ => Throw ZodError
        end in
      let! ts :=
        match obj_get "time_sensitivity" fields with
        | None => Ok ts_none
        | Some j => TimeSensitivity_parse j
        end in
      Ok {| raw_intents := intents; raw_must_include := must;
            raw_time_sensitivity := ts |}
  | _ => Throw ZodError
  end.

Definition normalizePlan (raw : RawPlan) : Plan :=
  {| plan_intents :=
       (fun i => match i with
                 | IntentString s => s
                 | IntentObject q _ => q
                 end) <$> raw_intents raw;
     must_include := raw_must_include raw;
     time_sensitivity := raw_time_sensitivity raw |}.

(** [llm.chat] as [planQuery] calls it: it is handed the schema's parse
    and returns the text with the parsed value, if any, or throws. *)
Definition LLMChat (T : Type) : Type := (Json -> Exn T) -> Exn (string * option T).

Definition fallback_plan (q : string) : Plan :=
  {| plan_intents :=
       JS.slice_list [q; q +:+ " primary source"; q +:+ " overview"] 0 3;
     must_include := [];
     time_sensitivity := ts_none |}.

Definition planQuery (llm : LLMChat RawPlan) (userQuestion : string) : Exn Plan :=
  try_catch
    (let! res := llm PlanSchema_parse in
     match snd res with
     | Some json => Ok (normalizePlan json)
     | None => Throw TypeError      (* [json!] is undefined: reading [raw.intents] throws *)
     end)
    (fun _ => Ok (fallback_plan (JS.trim userQuestion))).

(** The fallback as the specification words it: built from the question
    as given. *)
Definition spec_fallback_plan (question : string) : Plan :=
  {| plan_intents :=
       [question; question +:+ " primary source"; question +:+ " overview"];
     must_include := [];
     time_sensitivity := ts_none |}.

(** ** The orchestrator's retrieval stage (routes/chat.ts) *)

Inductive Mode := normal | reliability.

Definition mode_name (m : Mode) : string :=
  match m with normal => "normal" | reliability => "reliability" end.

Fixpoint mergeSourcesByHash_loop (l : list EvidenceSource) (cap : Z)
    (seen : gset string) (out : list EvidenceSource) : list EvidenceSource :=
  match l with
  | [] => out
  | x :: r =>
      if decide (contentHash x ∈ seen) then mergeSourcesByHash_loop r cap seen out
      else
        let out' := out ++ [x] in
        if cap <=? Z.of_nat (length out') then out'
        else mergeSourcesByHash_loop r cap ({[contentHash x]} ∪ seen) out'
  end.

Definition mergeSourcesByHash (a b : list EvidenceSource) (cap : Z) : list EvidenceSource :=
  mergeSourcesByHash_loop (a ++ b) cap ∅ [].

Definition requiredSources (m : Mode) : Z :=
  match m with reliability => 3 | normal => 2 end.

Definition chat_opts (m : Mode) : ResearchOptions :=
  {| budgetMs := 7000;
     perIntentUrls := match m with reliability => 3 | normal => 2 end;
     concurrency := 3;
     maxSources := 6;
     minSources := requiredSources m |}.

Definition extraIntents (intents : list string) (message : string) : list string :=
  intents ++ [message +:+ " definition"; message +:+ " authoritative source"].

(** What the retrieval stage of [chatHandler] leaves: the [research] calls
    it made, in order, the trace events it appended and the sources it
    goes on with. *)
Record Retrieval := {
  ret_calls : list (list string * ResearchOptions);
  ret_trace : list TraceEvent;
  ret_sources : list EvidenceSource
}.

Section RetrievalStage.

Variable hostname : string -> Exn string.

  (** From [const researched1 = await research(plan.intents, opts)] to the
      end of the [if] that widens the search; [env1] and [env2] are the
      environments of the first and of the second call. *)
Definition retrieval_stage (m : Mode) (message : string) (intents : list string)
      (env1 env2 : Env) : option (Exn Retrieval) :=
    let opts := chat_opts m in
    match research hostname intents opts env1 with
    | None => None
    | Some (Throw e) => Some (Throw e)
    | Some (Ok researched1) =>
        let sources := res_sources researched1 in
        match m with
        | reliability =>
            if Z.of_nat (length sources) <? requiredSources m then
              match research hostname (extraIntents intents message) opts env2 with
              | None => None
              | Some (Throw e) => Some (Throw e)
              | Some (Ok researched2) =>
                  Some (Ok {| ret_calls := [(intents, opts); (extraIntents intents message, opts)];
                              ret_trace := res_trace researched1 ++ res_trace researched2;
                              ret_sources := mergeSourcesByHash sources (res_sources researched2) 6 |})
              end
            else Some (Ok {| ret_calls := [(intents, opts)];
                             ret_trace := res_trace researched1;
                             ret_sources := sources |})
        | normal =>
            Some (Ok {| ret_calls := [(intents, opts)];
                        ret_trace := res_trace researched1;
                        ret_sources := sources |})
        end
    end.

End RetrievalStage.

(** ** Numbers

    A score is a double.  The model keeps its exact value as a rational in
    lowest terms: [to_double q] is the value of the double nearest to [q]
    (ties to the even mantissa), for the [q] whose exponent is in the normal
    range, which is the case of every quotient of positive counts. *)

Definition to_double (q : Q) : Q :=
  let a := Z.abs (Qnum q) in
  let b := Zpos (Qden q) in
  if a =? 0 then 0%Q
  else
    let k0 := Z.log2 a - Z.log2 b in
    (* k = floor(log2 (a / b)) *)
    let k :=
      if 0 <=? k0 then (if b * 2 ^ k0 <=? a then k0 else k0 - 1)
      else (if b <=? a * 2 ^ (- k0) then k0 else k0 - 1) in
    let s := 52 - k in
    let N := if 0 <=? s then a * 2 ^ s else a in
    let D := if 0 <=? s then b else b * 2 ^ (- s) in
    let m0 := N / D in
    let r := N mod D in
    let m := if (D <? 2 * r) || ((2 * r =? D) && Z.odd m0) then m0 + 1 else m0 in
    Qred ((Z.sgn (Qnum q) * m * (if 0 <=? s then 1 else 2 ^ (- s)))
          # (if 0 <=? s then Z.to_pos (2 ^ s) else 1)).

(** [a / b] on two counts *)
Definition div_counts (a b : Z) : Q := to_double (a # Z.to_pos b).

(** [Math.min(1, x)] *)
Definition min_one (x : Q) : Q := if Qle_bool 1 x then 1%Q else x.

(** The literals 0.75 and 0.45 *)
Definition lit_075 : Q := to_double (75 # 100).

Definition lit_045 : Q := to_double (45 # 100).

(** [Number(x.toFixed(2))]: the integer [n] for which [n / 100 - x] is
    closest to zero, the larger one of two, then the double nearest to
    [n / 100]. *)
Definition toFixed2_digits (x : Q) : Z := Qfloor (x * 100 + (1 # 2)).

Definition toFixed2 (x : Q) : Q := to_double (toFixed2_digits x # 100).

(** ** The verifier (agents/verifier.ts) *)

Definition nonempty (s : string) : bool := negb (s =? "")%string.

Definition paragraph_sep : string :=
  String JS.newline (String JS.newline EmptyString).

Fixpoint chunkText_loop (paras : list string) (maxLen : Z) (buf : string)
    (chunks : list string) : list string :=
  match paras with
  | [] => if nonempty buf then chunks ++ [buf] else chunks
  | p :: rest =>
      let next := if nonempty buf then buf +:+ paragraph_sep +:+ p else p in
      if maxLen <? JS.len next
      then chunkText_loop rest maxLen p (if nonempty buf then chunks ++ [buf] else chunks)
      else chunkText_loop rest maxLen next chunks
  end.

Definition chunkText (text : string) : list string :=
  let paras := filter (fun p => nonempty p = true) (JS.trim <$> JS.split_blank text) in
  JS.slice_list (chunkText_loop paras 900 EmptyString []) 0 40.

Definition normalizeTokens (s : string) : list string :=
  filter (fun t => 4 <= JS.len t)
         (JS.split_ws (JS.replace_non_token (JS.toLowerCase s))).

(** [for (const w of dt) if (ct.has(w)) hit += 1] *)
Fixpoint count_hits (ct : gset string) (dt : list string) (hit : Z) : Z :=
  match dt with
  | [] => hit
  | w :: rest => count_hits ct rest (if decide (w ∈ ct) then hit + 1 else hit)
  end.

Definition overlapScore (claim chunk : string) : Q :=
  let ct : gset string := list_to_set (normalizeTokens claim) in
  let dt := normalizeTokens chunk in
  if (size ct =? 0)%nat || (length dt =? 0)%nat then 0%Q
  else
    let hit := count_hits ct dt 0 in
    min_one (div_counts hit (Z.max 8 (Z.of_nat (size ct)))).

Definition labelFromScore (score : Q) : ClaimSupportLabel :=
  if Qle_bool lit_075 score then supported
  else if Qle_bool lit_045 score then weak
  else unsupported.

Record Best := { best_snippet : string; best_score : Q }.

Record ScoredEvidence := { sourceUrl : string; ev_snippet : string; ev_score : Q }.

Record ClaimRecord := {
  id : string;
  claim : string;
  label : ClaimSupportLabel;
  score : Q;
  evidence : list (string * string)     (* sourceUrl, snippet *)
}.

(** [for (const chunk of s.chunks) ...]: the best chunk so far *)
Fixpoint best_chunk (claim : string) (chunks : list string) (best : Best) : Best :=
  match chunks with
  | [] => best
  | chunk :: rest =>
      let sc := overlapScore claim chunk in
      best_chunk claim rest
        (if negb (Qle_bool sc (best_score best))
         then {| best_snippet := JS.slice chunk 0 280; best_score := sc |}
         else best)
  end.

(** [for (const s of sourceChunks) ...] *)
Fixpoint score_sources (claim : string) (sourceChunks : list (string * list string))
    (evidenceScored : list ScoredEvidence) : list ScoredEvidence :=
  match sourceChunks with
  | [] => evidenceScored
  | (u, chunks) :: rest =>
      let best := best_chunk claim chunks {| best_snippet := EmptyString; best_score := 0 |} in
      score_sources claim rest
        (if negb (Qle_bool (best_score best) 0)
         then evidenceScored ++
                [{| sourceUrl := u; ev_snippet := best_snippet best; ev_score := best_score best |}]
         else evidenceScored)
  end.

(** [evidenceScored.sort((a, b) => b.score - a.score)]: by descending
    score, elements of equal score keeping their order. *)
Fixpoint insert_desc (x : ScoredEvidence) (l : list ScoredEvidence) : list ScoredEvidence :=
  match l with
  | [] => [x]
  | y :: r =>
      if Qle_bool (ev_score y) (ev_score x) then x :: y :: r
      else y :: insert_desc x r
  end.

Definition sort_desc (l : list ScoredEvidence) : list ScoredEvidence :=
  foldr insert_desc [] l.

Section VerifyClaims.

(** [createId()]: the identifier drawn for the [k]-th record. *)
Variable createId : nat -> string.

Definition verify_one (sourceChunks : list (string * list string)) (k : nat)
    (claim : string) : ClaimRecord :=
  let evidenceScored := sort_desc (score_sources claim sourceChunks []) in
  let top := JS.slice_list evidenceScored 0 3 in
  let maxScore := match top with e :: _ => ev_score e | [] => 0%Q end in
  {| id := createId k;
     claim := claim;
     score := toFixed2 maxScore;
     label := labelFromScore maxScore;
     evidence := (fun e => (sourceUrl e, ev_snippet e)) <$> top |}.

Definition verifyClaims (claims : list string) (sources : list EvidenceSource)
    : list ClaimRecord :=
  let sourceChunks := (fun s => (url s, chunkText (text s))) <$> sources in
  imap (verify_one sourceChunks) claims.

End VerifyClaims.

(** The score of the best chunk of one source, 0 when no chunk scores. *)
Definition source_best (claim : string) (chunks : list string) : Q :=
  best_score (best_chunk claim chunks {| best_snippet := EmptyString; best_score := 0 |}).

Definition per_source_best (claim : string) (sources : list EvidenceSource) : list Q :=
  (fun s => source_best claim (chunkText (text s))) <$> sources.

(** The overlap as the specification words it: the size of the
    intersection of the set of chunk tokens with the set of claim tokens,
    over max(8, number of claim tokens), clamped to 1. *)
Definition spec_overlapScore (claim chunk : string) : Q :=
  let ct : gset string := list_to_set (normalizeTokens claim) in
  let dt : gset string := list_to_set (normalizeTokens chunk) in
  min_one (div_counts (Z.of_nat (size (dt ∩ ct))) (Z.max 8 (Z.of_nat (size ct)))).

(** ** The cache (services/cache.ts, the in-memory store) *)

Module Cache.

(** [mem]: the value and [expiresAt] of every key *)
Abbreviation Mem := (gmap string (string * Z)).

Definition cacheGet (key : string) (now : Z) (mem : Mem) : option string * Mem :=
  match mem !! key with
  | None => (None, mem)
  | Some (value, expiresAt) =>
      if expiresAt <? now then (None, delete key mem) else (Some value, mem)
  end.

Definition cacheSet (key value : string) (ttlSeconds now : Z) (mem : Mem) : Mem :=
  <[key := (value, now + ttlSeconds * 1000)]> mem.

End Cache.

(** ** The chat handler (routes/chat.ts) *)

Record ArtifactSource := {
  as_url : string;
  as_title : string;
  as_domain : string;
  as_excerpt : string;
  as_contentHash : string
}.

Record CachedArtifact := {
  finalAnswer : string;
  art_sources : list ArtifactSource;
  art_trace : list TraceEvent;
  art_claims : list ClaimRecord
}.

(** The events written to the response; the identifiers of the
    conversation and of the run are left out. *)
Inductive SseEvent :=
  | SseMeta (m : Mode)
  | SseStatus (message : string) (step total : Z)
  | SseToken (chunk : string)
  | SseClaims (claims : list ClaimRecord)
  | SseDone
  | SseError (e : Error).

Definition normalizeQuestion (q : string) : string :=
  JS.slice (JS.collapse_ws (JS.toLowerCase (JS.trim q))) 0 300.

Definition artifactKey (mode q : string) : string :=
  "artifact:v1:" +:+ mode +:+ ":" +:+ normalizeQuestion q.

(** [for (let i = 0; i < text.length; i += chunkSize) ...]: the chunks
    sent; the loop runs at most once per character. *)
Fixpoint streamTextQuick_from (fuel : nat) (text : string) (i : Z) : list string :=
  match fuel with
  | O => []
  | S fuel' =>
      if i <? JS.len text
      then JS.slice text i (i + 140) :: streamTextQuick_from fuel' text (i + 140)
      else []
  end.

Definition streamTextQuick (text : string) : list string :=
  streamTextQuick_from (String.length text) text 0.

(** The first token of every response.  The source text has a dash and an
    ellipsis outside Latin-1; the model writes them in ASCII. *)
Definition preamble : string :=
  "Got it - pulling sources and drafting an answer..." +:+ paragraph_sep.

Definition no_answer : string :=
  "I wasn't able to generate a response. Please try again.".

(** What the world answers during one request. *)
Record RunEnv := {
  run_now : Z;                        (* [Date.now()] in [cacheGet] *)
  run_store_now : Z;                  (* [Date.now()] in [cacheSet] *)
  run_db : Exn unit;                  (* do the storage calls of the run succeed *)
  run_plan : LLMChat RawPlan;         (* [llmFast.chat] for the plan *)
  run_env1 : Env;                     (* the first [research] call *)
  run_env2 : Env;                     (* the second one, if any *)
  run_draft : Exn string;             (* [llmFast.chat] for the draft: its text *)
  run_claims : list string;           (* [extractClaims], which never throws *)
  run_stream : list string * option Error;
                                      (* the tokens of [llm.streamChat], then
                                         the exception that ended it, if any *)
  run_fallback : Exn string;          (* [llm.chat] after an empty stream: its text *)
  run_fallback_fast : Exn string      (* [llmFast.chat] after that *)
}.

(** What one request leaves: the events written, the final answer of the
    run when it has one, and the [research] calls made. *)
Record Response := {
  events : list SseEvent;
  answer : option string;
  research_calls : list (list string * ResearchOptions)
}.

Definition failed (ev : list SseEvent) (e : Error)
    (calls : list (list string * ResearchOptions)) : Response :=
  {| events := ev ++ [SseError e]; answer := None; research_calls := calls |}.

Definition artifact_source (s : EvidenceSource) : ArtifactSource :=
  {| as_url := url s; as_title := title s; as_domain := domain s;
     as_excerpt := excerpt s; as_contentHash := contentHash s |}.

Definition concat_strings (l : list string) : string :=
  foldr String.append EmptyString l.

Section ChatHandler.

Variable hostname : string -> Exn string.
Variable createId : nat -> string.
(** [JSON.stringify] and [JSON.parse] on an artifact *)
Variable JSON_stringify : CachedArtifact -> string.
Variable JSON_parse_artifact : string -> Exn CachedArtifact.

(** From [let finalText = ""] to the text the run ends with; the events
    are the tokens written on the way. *)
Definition final_text (env : RunEnv) : list SseEvent * Exn string :=
  let '(tokens, broke) := run_stream env in
  let ev := SseToken <$> tokens in
  match broke with
  | Some e => (ev, Throw e)
  | None =>
      let finalText := concat_strings tokens in
      if nonempty (JS.trim finalText) then (ev, Ok finalText)
      else
        match run_fallback env with
        | Throw e => (ev, Throw e)
        | Ok fb =>
            let fb' := if nonempty (JS.trim fb) then Ok fb else run_fallback_fast env in
            match fb' with
            | Throw e => (ev, Throw e)
            | Ok fb2 =>
                let finalText :=
                  if nonempty (JS.trim fb2) then JS.trim fb2 else no_answer in
                (ev ++ (SseToken <$> streamTextQuick finalText), Ok finalText)
            end
        end
  end.

(** Does the stage make the second [research] call: in reliability mode,
    when the first call returned fewer sources than required. *)
Definition widens (m : Mode) (intents : list string) (env : RunEnv) : bool :=
  match m, research hostname intents (chat_opts m) (run_env1 env) with
  | reliability, Some (Ok researched1) =>
      Z.of_nat (length (res_sources researched1)) <? requiredSources m
  | _, _ => false
  end.

Definition calls_made (m : Mode) (message : string) (intents : list string)
    (env : RunEnv) : list (list string * ResearchOptions) :=
  (intents, chat_opts m)
  :: (if widens m intents env then [(extraIntents intents message, chat_opts m)] else []).

Definition announce_widening (m : Mode) (intents : list string) (env : RunEnv)
    (ev : list SseEvent) : list SseEvent :=
  if widens m intents env then ev ++ [SseStatus "Fetching extra sources..." 2 4] else ev.

(** The request after a cache miss. *)
Definition fresh_run (m : Mode) (message : string) (env : RunEnv)
    (ev : list SseEvent) (ck : string) (mem : Cache.Mem) : option (Response * Cache.Mem) :=
  match run_db env with
  | Throw e => Some (failed ev e [], mem)
  | Ok _ =>
      let ev := ev ++ [SseStatus "Planning searches..." 1 4] in
      match planQuery (run_plan env) message with
      | Throw e => Some (failed ev e [], mem)
      | Ok plan =>
          let ev := ev ++ [SseStatus "Searching & fetching sources..." 2 4] in
          match retrieval_stage hostname m message (plan_intents plan)
                  (run_env1 env) (run_env2 env) with
          | None => None
          | Some (Throw e) =>
              Some (failed (announce_widening m (plan_intents plan) env ev) e
                      (calls_made m message (plan_intents plan) env), mem)
          | Some (Ok ret) =>
              let trace := [TrPlanner (plan_intents plan)] ++ ret_trace ret in
              let sources := ret_sources ret in
              let ev := announce_widening m (plan_intents plan) env ev in
              let finish (ev : list SseEvent) (verified : list ClaimRecord) :=
                let '(tok, text) := final_text env in
                let ev := ev ++ [SseStatus "Writing answer..." 3 4] ++ tok in
                match text with
                | Throw e => Some (failed ev e (ret_calls ret), mem)
                | Ok finalText =>
                    let artifact :=
                      {| finalAnswer := finalText;
                         art_sources := artifact_source <$> sources;
                         art_trace := trace;
                         art_claims := verified |} in
                    Some ({| events := ev ++ [SseStatus "Done" 4 4; SseDone];
                             answer := Some finalText;
                             research_calls := ret_calls ret |},
                          Cache.cacheSet ck (JSON_stringify artifact) (2 * 60 * 60)
                            (run_store_now env) mem)
                end in
              match m with
              | normal => finish ev []
              | reliability =>
                  let ev := ev ++ [SseStatus "Drafting & verifying..." 3 4] in
                  match run_draft env with
                  | Throw e => Some (failed ev e (ret_calls ret), mem)
                  | Ok _ =>
                      let safeClaims :=
                        JS.slice_list (filter (fun c => nonempty c = true) (run_claims env)) 0 4 in
                      match safeClaims with
                      | [] => finish ev []
                      | _ =>
                          let verified := verifyClaims createId safeClaims sources in
                          finish (ev ++ [SseClaims verified]) verified
                      end
                  end
              end
          end
      end
  end.

(** [chatHandler] on a valid request body; [None] when the environment
    does not describe a complete [research] call. *)
Definition chatHandler (m : Mode) (message : string) (env : RunEnv) (mem : Cache.Mem)
    : option (Response * Cache.Mem) :=
  let ev := [SseMeta m; SseStatus "Starting..." 0 4; SseToken preamble] in
  let ck := artifactKey (mode_name m) message in
  let '(cached, mem) := Cache.cacheGet ck (run_now env) mem in
  match cached with
  | Some text =>
      if nonempty text then
        match JSON_parse_artifact text with
        | Throw e => Some (failed ev e [], mem)
        | Ok artifact =>
            let ev := ev ++ [SseStatus "Cached answer" 4 4] in
            match run_db env with
            | Throw e => Some (failed ev e [], mem)
            | Ok _ =>
                let ev :=
                  match m, art_claims artifact with
                  | reliability, _ :: _ => ev ++ [SseClaims (art_claims artifact)]
                  | _, _ => ev
                  end in
                Some ({| events :=
                           ev ++ (SseToken <$> streamTextQuick (finalAnswer artifact))
                              ++ [SseDone];
                         answer := Some (finalAnswer artifact);
                         research_calls := [] |}, mem)
            end
        end
      else fresh_run m message env ev ck mem
  | None => fresh_run m message env ev ck mem
  end.

End ChatHandler.

(** The normalization as the specification words it: lower-case, collapse
    white space, truncate to 300 characters. *)
Definition spec_normalizeQuestion (q : string) : string :=
  JS.slice (JS.collapse_ws (JS.toLowerCase q)) 0 300.

(** ** The rate limiter (services/rateLimit.ts, the in-memory window) *)

Module RateLimit.

(** [memHits]: the count and [resetAt] of every address *)
Record Hits := { count : Z; resetAt : Z }.

Abbreviation MemHits := (gmap string Hits).

Record Verdict := { allowed : bool; remaining : Z }.

Definition windowMs : Z := 60000.

Definition limit : Z := 30.

Definition checkRateLimit (ip : string) (now : Z) (memHits : MemHits)
    : Verdict * MemHits :=
  let fresh :=
    ({| allowed := true; remaining := limit - 1 |},
     <[ip := {| count := 1; resetAt := now + windowMs |}]> memHits) in
  match memHits !! ip with
  | None => fresh
  | Some cur =>
      if resetAt cur <? now then fresh
      else if limit <=? count cur then ({| allowed := false; remaining := 0 |}, memHits)
      else
        let cur' := {| count := count cur + 1; resetAt := resetAt cur |} in
        ({| allowed := true; remaining := limit - count cur' |}, <[ip := cur']> memHits)
  end.

End RateLimit.

(** ** The page fetcher (services/fetch.ts) *)

(** What the HTTP exchange gives when it does not fail: the status, the
    content type header as [String(...)] renders it, and the text of the
    body, the reading of which can fail. *)
Record HttpReply := {
  statusCode : Z;
  header_contentType : string;
  body_text : Exn string
}.

Module Fetch.

Definition cacheKey (url : string) : string := "fetch:v2:" +:+ url.

Definition isHtml (contentType : string) : bool :=
  JS.includes (JS.toLowerCase contentType) "text/html".

Section FetchHtml.

(** [JSON.stringify] and [JSON.parse] on a fetch result *)
Variable JSON_stringify : FetchResult -> string.
Variable JSON_parse : string -> Exn FetchResult.

(** From [const abort = new AbortController()] on; [request] is what
    [await request(url, ...)] gives, an exception when the exchange failed,
    was aborted or timed out. *)
Definition fetch_fresh (url : string) (store_now : Z) (request : Exn HttpReply)
    (mem : Cache.Mem) : Exn FetchResult * Cache.Mem :=
  match request with
  | Throw _ =>
      (Ok {| fr_url := url; status := 0; contentType := EmptyString; html := EmptyString |}, mem)
  | Ok res =>
      let st := statusCode res in
      let ct := header_contentType res in
      let ok := (200 <=? st) && (st <? 300) in
      let body :=
        if ok && isHtml ct
        then match body_text res with Ok t => t | Throw _ => EmptyString end
        else EmptyString in
      let out := {| fr_url := url; status := st; contentType := ct; html := body |} in
      (Ok out,
       if ok && nonempty body
       then Cache.cacheSet (cacheKey url) (JSON_stringify out) (6 * 60 * 60) store_now mem
       else mem)
  end.

(** [fetchHtml(url)]; [now] and [store_now] are the readings of the clock
    in [cacheGet] and in [cacheSet]. *)
Definition fetchHtml (url : string) (now store_now : Z) (request : Exn HttpReply)
    (mem : Cache.Mem) : Exn FetchResult * Cache.Mem :=
  let '(cached, mem) := Cache.cacheGet (cacheKey url) now mem in
  match cached with
  | Some text =>
      if nonempty text then (JSON_parse text, mem)
      else fetch_fresh url store_now request mem
  | None => fetch_fresh url store_now request mem
  end.

End FetchHtml.

End Fetch.

(** ** The extraction of claims (agents/verifier.ts) *)

(** [ClaimsSchema.parse(raw)], then the [claims] of the parsed object *)
Definition ClaimsSchema_parse (raw : Json) : Exn (list string) :=
  match raw with
  | JObj fields =>
      match obj_get "claims" fields with
      | Some (JArr items) =>
          let n := Z.of_nat (length items) in
          if (1 <=? n) && (n <=? 6) then zod_array (zod_string_min 8) items
          else Throw ZodError
      | _ => Throw ZodError
      end
  | _ => Throw ZodError
  end.

Definition extractClaims (llm : LLMChat (list string)) : list string :=
  match llm ClaimsSchema_parse with
  | Ok (_, Some claims) => filter (fun c => nonempty c = true) claims
  | Ok (_, None) => []
  | Throw _ => []
  end.

(** ** The text extractor's cache key (services/extract.ts) *)

Definition extractCacheKey (url : string) : string := "extract:v1:" +:+ url.

(** ** The Ollama provider's stream (llm/ollama.ts) *)

Module Ollama.

(** [for (let i = 0; i < text.length; i += chunkSize) ...]: the chunks
    handed to [onToken]; the loop runs at most once per character. *)
Fixpoint streamChat_from (fuel : nat) (text : string) (i : Z) : list string :=
  match fuel with
  | O => []
  | S fuel' =>
      if i <? JS.len text
      then JS.slice text i (i + 60) :: streamChat_from fuel' text (i + 60)
      else []
  end.

(** [streamChat(opts)]: the chunks handed to [onToken], then the exception
    that ended the call, if any; [completion] is the text [this.chat] gives,
    or the exception it throws. *)
Definition streamChat (completion : Exn string) : list string * option Error :=
  match completion with
  | Throw e => ([], Some e)
  | Ok text => (streamChat_from (String.length text) text 0, None)
  end.

End Ollama.

(** ** The OpenRouter provider's stream (llm/openrouter.ts) *)

(** A value read from a parsed JSON text: [None] is [undefined]. *)
Definition JsValue : Type := option Json.

(** [v.k] on a value that is neither [undefined] nor [null], for a key
    that no prototype defines: a member of an object, the element of an
    array or the character of a string at the index [k] spells. *)
Definition get_member (v : Json) (k : string) : JsValue :=
  match v with
  | JObj fields => obj_get k fields
  | JArr items => if (k =? "0")%string then head items else None
  | JStr s =>
      if (k =? "0")%string
      then match s with String c _ => Some (JStr (String c EmptyString)) | EmptyString => None end
      else None
  | _ => None
  end.

(** [v?.k] *)
Definition get_optional (v : JsValue) (k : string) : JsValue :=
  match v with
  | None | Some JNull => None
  | Some v => get_member v k
  end.

(** What the HTTP exchange of [streamChat] gives when [fetch] does not
    throw: [res.ok], and the body if any, as the texts the reads decode
    to, in order, and the exception of the read that follows them, if it
    throws. *)
Record HttpStream := {
  stream_ok : bool;
  stream_body : option (list string * option Error)
}.

Module OpenRouter.

(** [buffer.split("\n\n")]: the pieces between the occurrences of two line
    feeds, found from left to right; never an empty list. *)
Definition cons_head (a : ascii) (l : list string) : list string :=
  match l with
  | x :: r => String a x :: r
  | [] => [String a EmptyString]
  end.

Fixpoint split_frames (s : string) : list string :=
  match s with
  | EmptyString => [EmptyString]
  | String a r =>
      match r with
      | String b r' =>
          if Ascii.eqb a JS.newline && Ascii.eqb b JS.newline
          then EmptyString :: split_frames r'
          else cons_head a (split_frames r)
      | EmptyString => [String a EmptyString]
      end
  end.

(** [frame.split("\n")] *)
Fixpoint split_lines (s : string) : list string :=
  match s with
  | EmptyString => [EmptyString]
  | String a r =>
      if Ascii.eqb a JS.newline then EmptyString :: split_lines r
      else cons_head a (split_lines r)
  end.

(** How a call of [streamChat] ends: normally; by the error of [ensureKey];
    by the throw of the check of the response, which is not ok or has no
    body; or by an exception of the network, of [JSON.parse] or of the
    reading of a member of [null]. *)
Inductive StreamEnd :=
  | Completed
  | KeyNotSet
  | StreamFailed
  | Raised (e : Error).

(** What one frame makes the loop do. *)
Inductive FrameResult :=
  | Skip                    (* no data line, or no content: go on *)
  | Token (chunk : Json)    (* [opts.onToken(chunk)] *)
  | Finished                (* [DONE]: return *)
  | Failed (e : Error).     (* an exception leaves [streamChat] *)

Section StreamChat.

(** [JSON.parse], and whether a numeral denotes a number other than 0 *)
Variable JSON_parse : string -> Exn Json.
Variable number_truthy : string -> bool.

(** [if (chunk)] *)
Definition truthy (v : Json) : bool :=
  match v with
  | JNull => false
  | JBool b => b
  | JNum lexeme => number_truthy lexeme
  | JStr s => nonempty s
  | JArr _ | JObj _ => true
  end.

(** The body of [for (const frame of frames)] *)
Definition handle_frame (frame : string) : FrameResult :=
  match List.find (fun l => String.prefix "data: " l) (split_lines frame) with
  | None => Skip
  | Some line =>
      let payload := JS.trim (JS.slice line 6 (JS.len line)) in
      if (payload =? "[DONE]")%string then Finished
      else
        match JSON_parse payload with
        | Throw e => Failed e
        | Ok JNull => Failed TypeError      (* [obj.choices] on [null] *)
        | Ok obj =>
            let content :=
              get_optional (get_optional (get_optional (get_member obj "choices") "0")
                              "delta") "content" in
            match content with
            | None | Some JNull => Skip     (* [?? ""], which is not truthy *)
            | Some chunk => if truthy chunk then Token chunk else Skip
            end
        end
  end.

(** The frames of one read, in order: the chunks handed to [onToken], and
    how the call was left, if it was: by [return] or by an exception. *)
Fixpoint run_frames (frames : list string) : list Json * option StreamEnd :=
  match frames with
  | [] => ([], None)
  | frame :: rest =>
      match handle_frame frame with
      | Skip => run_frames rest
      | Token chunk => let '(toks, r) := run_frames rest in (chunk :: toks, r)
      | Finished => ([], Some Completed)
      | Failed e => ([], Some (Raised e))
      end
  end.

(** [for (;;) { ... }]: [reads] are the texts the reads decode to, in
    order, and [broken] the exception of the read that follows them, if
    it throws. *)
Fixpoint read_loop (reads : list string) (broken : option Error) (buffer : string)
    : list Json * StreamEnd :=
  match reads with
  | [] => ([], match broken with Some e => Raised e | None => Completed end)
  | value :: rest =>
      let frames := split_frames (buffer +:+ value) in
      match run_frames (removelast frames) with
      | (toks, None) =>
          let '(toks', r) := read_loop rest broken (List.last frames EmptyString) in
          (toks ++ toks', r)
      | (toks, Some r) => (toks, r)
      end
  end.

(** [streamChat(opts)]: the chunks handed to [onToken], and how the call
    ends; [apiKey] is [env.OPENROUTER_API_KEY] and [response] what [fetch]
    gives. *)
Definition streamChat (apiKey : option string) (response : Exn HttpStream)
    : list Json * StreamEnd :=
  match apiKey with
  | None => ([], KeyNotSet)
  | Some key =>
      if negb (nonempty key) then ([], KeyNotSet)
      else
        match response with
        | Throw e => ([], Raised e)
        | Ok res =>
            match stream_ok res, stream_body res with
            | true, Some (reads, broken) => read_loop reads broken EmptyString
            | _, _ => ([], StreamFailed)
            end
        end
  end.

End StreamChat.

End OpenRouter.

(** ** The chat handler, from the body of the request (routes/chat.ts)

    [chatHandler] above starts from a valid body and lets one answer,
    [run_db], stand for every storage call.  Here the handler starts from
    the body as it arrives, every call of [prisma] has its own answer, and
    the store goes through the [research] calls. *)

Module Request.

(** What [ChatReqSchema.parse] returns *)
Record ChatBody := {
  conversationId : option string;
  message : string;
  mode : Mode
}.

(** [ChatReqSchema.parse(req.body)]; the body [None] is [undefined] *)
Definition ChatReqSchema_parse (body : JsValue) : Exn ChatBody :=
  match body with
  | Some (JObj fields) =>
      let! conversationId := zod_string_optional (obj_get "conversationId" fields) in
      let! message :=
        match obj_get "message" fields with
        | Some j => zod_string_min 1 j
        | None => Throw ZodError
        end in
      let! mode :=
        match obj_get "mode" fields with
        | None => Ok normal
        | Some (JStr s) =>
            if (s =? "normal")%string then Ok normal
            else if (s =? "reliability")%string then Ok reliability
            else Throw ZodError
        | Some _ => Throw ZodError
        end in
      Ok {| conversationId := conversationId; message := message; mode := mode |}
  | _ => Throw ZodError
  end.

(** [n] calls of [prisma] in a row, the first of which is the call of rank
    [k] of the request: the exception of the first call that fails, or the
    rank of the call that comes next.  [storage k] is what the call of rank
    [k] answers. *)
Fixpoint storage_calls (storage : nat -> Exn unit) (k n : nat) : Exn nat :=
  match n with
  | O => Ok k
  | S n' =>
      match storage k with
      | Ok _ => storage_calls storage (S k) n'
      | Throw e => Throw e
      end
  end.

(** [persistRunFromArtifact(...)], the first storage calls of its request:
    the conversation, the message of the user, the run, one call per source
    and the message of the assistant. *)
Definition persistRunFromArtifact (storage : nat -> Exn unit) (artifact : CachedArtifact)
    : Exn nat :=
  storage_calls storage 0 (3 + length (art_sources artifact) + 1).

Section ChatHandler.

Variable hostname : string -> Exn string.
Variable createId : nat -> string.
(** [JSON.stringify] and [JSON.parse] on an artifact *)
Variable JSON_stringify : CachedArtifact -> string.
Variable JSON_parse_artifact : string -> Exn CachedArtifact.

(** From [let finalText = ""] to [res.end()], in either mode: the answer
    is generated, the message of the assistant and the run are stored
    (the calls of rank [k] and [k + 1]), the artifact is cached. *)
Definition finish (env : RunEnv) (storage : nat -> Exn unit) (k : nat)
    (ev : list SseEvent) (trace : list TraceEvent) (sources : list EvidenceSource)
    (calls : list (list string * ResearchOptions)) (verified : list ClaimRecord)
    (ck : string) (mem : Cache.Mem) : Response * Cache.Mem :=
  let '(tok, text) := final_text env in
  let ev := ev ++ [SseStatus "Writing answer..." 3 4] ++ tok in
  match text with
  | Throw e => (failed ev e calls, mem)
  | Ok finalText =>
      match storage_calls storage k 2 with
      | Throw e => (failed ev e calls, mem)
      | Ok _ =>
          let artifact :=
            {| finalAnswer := finalText;
               art_sources := artifact_source <$> sources;
               art_trace := trace;
               art_claims := verified |} in
          ({| events := ev ++ [SseStatus "Done" 4 4; SseDone];
              answer := Some finalText;
              research_calls := calls |},
           Cache.cacheSet ck (JSON_stringify artifact) (2 * 60 * 60)
             (run_store_now env) mem)
      end
  end.

(** The request after a cache miss.  [research_store] is what the
    [research] calls of the request do to the store: [webSearch],
    [fetchHtml] and [extractReadable] read, evict and write entries under
    their own keys. *)
Definition fresh_run (b : ChatBody) (env : RunEnv) (storage : nat -> Exn unit)
    (research_store : Cache.Mem -> Cache.Mem)
    (ev : list SseEvent) (ck : string) (mem : Cache.Mem) : option (Response * Cache.Mem) :=
  let m := mode b in
  match storage_calls storage 0 2 with
  | Throw e => Some (failed ev e [], mem)
  | Ok k =>
      let ev := ev ++ [SseStatus "Planning searches..." 1 4] in
      match planQuery (run_plan env) (message b) with
      | Throw e => Some (failed ev e [], mem)
      | Ok plan =>
          let ev := ev ++ [SseStatus "Searching & fetching sources..." 2 4] in
          match retrieval_stage hostname m (message b) (plan_intents plan)
                  (run_env1 env) (run_env2 env) with
          | None => None
          | Some (Throw e) =>
              Some (failed (announce_widening hostname m (plan_intents plan) env ev) e
                      (calls_made hostname m (message b) (plan_intents plan) env),
                    research_store mem)
          | Some (Ok ret) =>
              let mem := research_store mem in
              let trace := [TrPlanner (plan_intents plan)] ++ ret_trace ret in
              let sources := ret_sources ret in
              let calls := ret_calls ret in
              let ev := announce_widening hostname m (plan_intents plan) env ev in
              (* the run, then one call per source *)
              match storage_calls storage k (1 + length sources) with
              | Throw e => Some (failed ev e calls, mem)
              | Ok k =>
                  match m with
                  | normal =>
                      Some (finish env storage k ev trace sources calls [] ck mem)
                  | reliability =>
                      let ev := ev ++ [SseStatus "Drafting & verifying..." 3 4] in
                      match run_draft env with
                      | Throw e => Some (failed ev e calls, mem)
                      | Ok _ =>
                          let safeClaims :=
                            JS.slice_list
                              (filter (fun c => nonempty c = true) (run_claims env)) 0 4 in
                          match safeClaims with
                          | [] => Some (finish env storage k ev trace sources calls [] ck mem)
                          | _ =>
                              let verified := verifyClaims createId safeClaims sources in
                              (* the claims of the run are stored, then sent *)
                              match storage_calls storage k 1 with
                              | Throw e => Some (failed ev e calls, mem)
                              | Ok k =>
                                  Some (finish env storage k (ev ++ [SseClaims verified])
                                          trace sources calls verified ck mem)
                              end
                          end
                      end
                  end
              end
          end
      end
  end.

(** [chatHandler(req, res)]; [None] when the environment does not describe
    a complete [research] call.  A body that the schema refuses is answered
    by the event [error] alone. *)
Definition chatHandler (req_body : JsValue) (env : RunEnv) (storage : nat -> Exn unit)
    (research_store : Cache.Mem -> Cache.Mem) (mem : Cache.Mem)
    : option (Response * Cache.Mem) :=
  match ChatReqSchema_parse req_body with
  | Throw e => Some (failed [] e [], mem)
  | Ok b =>
      let m := mode b in
      let ev := [SseMeta m; SseStatus "Starting..." 0 4; SseToken preamble] in
      let ck := artifactKey (mode_name m) (message b) in
      let '(cached, mem) := Cache.cacheGet ck (run_now env) mem in
      match cached with
      | Some text =>
          if nonempty text then
            match JSON_parse_artifact text with
            | Throw e => Some (failed ev e [], mem)
            | Ok artifact =>
                let ev := ev ++ [SseStatus "Cached answer" 4 4] in
                match persistRunFromArtifact storage artifact with
                | Throw e => Some (failed ev e [], mem)
                | Ok _ =>
                    let ev :=
                      match m, art_claims artifact with
                      | reliability, _ :: _ => ev ++ [SseClaims (art_claims artifact)]
                      | _, _ => ev
                      end in
                    Some ({| events :=
                               ev ++ (SseToken <$> streamTextQuick (finalAnswer artifact))
                                  ++ [SseDone];
                             answer := Some (finalAnswer artifact);
                             research_calls := [] |}, mem)
                end
            end
          else fresh_run b env storage research_store ev ck mem
      | None => fresh_run b env storage research_store ev ck mem
      end
  end.

End ChatHandler.

End Request.

(** * Predicates of the properties, and the data of the examples *)

(** [x] is the first element of [raw] that carries its content hash. *)
Definition first_with_hash (raw : list EvidenceSource) (x : EvidenceSource) : Prop :=
  exists l1 l2, raw = l1 ++ x :: l2 /\ contentHash x ∉ contentHash <$> l1.

Definition opts_default : ResearchOptions :=
  {| budgetMs := 7000; perIntentUrls := 2; concurrency := 3;
     maxSources := 6; minSources := 2 |}.

Definition snippet40 : string := "This snippet is long enough to be useful".

Definition text300 : string := JS.repeat_char "x" 300.

Definition page_ok (u : string) : FetchResult :=
  {| fr_url := u; status := 200; contentType := "text/html; charset=utf-8";
     html := "<p>x</p>" |}.

Definition doc_ok (h : string) : ExtractedDoc :=
  {| doc_title := "T"; doc_text := text300; doc_excerpt := "e"; doc_contentHash := h |}.

Definition result_at (u : string) : SearchResult :=
  {| sr_title := "t"; link := u; snippet := Some snippet40 |}.

(** Two pages with the same extracted text: the second one is dropped. *)
Definition env_two_equal_pages : Env :=
  {| searchReplies :=
       [Ok [result_at "https://www.a.com/x"; result_at "https://a.com/y";
            result_at "http://b.org"]];
     startMs := 1000;
     schedule :=
       [EvHead 0 1000; EvHead 1 1000;
        EvFetched 1 (page_ok "http://b.org") 1100;
        EvExtracted 1 (Ok (doc_ok "h1")) 1200; EvHead 1 1200;
        EvFetched 0 (page_ok "https://www.a.com/x") 1300;
        EvExtracted 0 (Ok (doc_ok "h1")) 1400; EvHead 0 1400];
     finishMs := 1500 |}.

Definition env_idle_workers : Env :=
  {| searchReplies := [Ok [result_at "https://a.com/x"; result_at "http://b.org"]];
     startMs := 0;
     schedule := [EvHead 0 0; EvHead 1 0];
     finishMs := 1 |}.

(** The search result a selected URL was taken from has a snippet of at
    least 30 code units. *)
Definition informative (results : list SearchResult) (s : Selected) : Prop :=
  exists r sn, r ∈ results /\ link r = sel_url s
               /\ snippet r = Some sn /\ 30 <= JS.len sn.

(** The normalized domain of a selected URL is in [seen]. *)
Definition has_domain_in (hostname : string -> Exn string) (seen : gset string)
    (s : Selected) : Prop :=
  exists d, domainOf hostname (sel_url s) = Ok d /\ d ∈ seen.

Definition env_one_page : Env :=
  {| searchReplies := [Ok [result_at "https://www.a.com/x"]];
     startMs := 0;
     schedule :=
       [EvHead 0 0; EvFetched 0 (page_ok "https://www.a.com/x") 100;
        EvExtracted 0 (Ok (doc_ok "h1")) 200; EvHead 0 200];
     finishMs := 300 |}.

Definition env_wider : Env :=
  {| searchReplies :=
       [Ok [result_at "https://www.a.com/x"]; Ok [result_at "http://b.org/def"]; Ok []];
     startMs := 1000;
     schedule :=
       [EvHead 0 1000; EvHead 1 1000;
        EvFetched 0 (page_ok "https://www.a.com/x") 1100;
        EvFetched 1 (page_ok "http://b.org/def") 1150;
        EvExtracted 1 (Ok (doc_ok "h2")) 1200; EvHead 1 1200;
        EvExtracted 0 (Ok (doc_ok "h1")) 1300; EvHead 0 1300];
     finishMs := 1400 |}.

Definition source_a : EvidenceSource :=
  {| url := "https://www.a.com/x"; title := "T"; domain := "a.com";
     excerpt := "e"; text := text300; contentHash := "h1" |}.

Definition source_b : EvidenceSource :=
  {| url := "http://b.org/def"; title := "T"; domain := "b.org";
     excerpt := "e"; text := text300; contentHash := "h2" |}.

(** Some character of [t] at index [k] satisfies [p]. *)
Definition char_at (p : ascii -> bool) (t : string) (k : nat) : Prop :=
  exists c, String.get k t = Some c /\ p c = true.

Definition none_at (p : ascii -> bool) (t : string) : Prop :=
  forall k, ~ char_at p t k.

Definition first_at (p : ascii -> bool) (t : string) (n : nat) : Prop :=
  char_at p t n /\ forall k, (k < n)%nat -> ~ char_at p t k.

Definition last_at (p : ascii -> bool) (t : string) (n : nat) : Prop :=
  char_at p t n /\ forall k, (n < k)%nat -> ~ char_at p t k.

(** What the catch branch of [safeJsonParse] gives on the trimmed text [t]:
    - no [{] and no [[] in [t]: the error "Model did not return JSON.";
    - no [}] or []] after the first [{] or [[]: the error "Model returned
      malformed JSON.";
    - otherwise [JSON.parse] of the text from the first [{] or [[] to the
      last [}] or []], both included. *)
Inductive recovers (JSON_parse : string -> Exn Json) (t : string) : Exn Json -> Prop :=
  | recovers_no_opener :
      none_at is_opener t ->
      recovers JSON_parse t (Throw NoJsonError)
  | recovers_no_closer_after i :
      first_at is_opener t i ->
      (forall k, (i < k)%nat -> ~ char_at is_closer t k) ->
      recovers JSON_parse t (Throw MalformedJsonError)
  | recovers_span i j :
      first_at is_opener t i ->
      last_at is_closer t j ->
      (i < j)%nat ->
      recovers JSON_parse t (JSON_parse (String.substring i (j - i + 1) t)).

Definition quoted (s : string) : string :=
  String JsonText.quote s +:+ String JsonText.quote EmptyString.

Definition plan_text : string :=
  "{" +:+ quoted "intents" +:+ ":[" +:+ quoted "solar power basics" +:+ ","
      +:+ quoted "solar power history" +:+ "]}".

Definition plan_json : Json :=
  JObj [("intents", JArr [JStr "solar power basics"; JStr "solar power history"])].

(** A completion that repeats the shape it was asked for after the plan. *)
Definition reply_with_note : string :=
  plan_text +:+ " (shape: {intents, must_include})".

(** The ways a provider in JSON mode fails on a completion. *)
Inductive generation_fails (JSON_parse : string -> Exn Json) : Exn string -> Prop :=
  | fails_call e :
      (* the call failed or timed out *)
      generation_fails JSON_parse (Throw e)
  | fails_not_json text e :
      safeJsonParse JSON_parse text = Throw e ->
      generation_fails JSON_parse (Ok text)
  | fails_schema text raw e :
      safeJsonParse JSON_parse text = Ok raw ->
      PlanSchema_parse raw = Throw e ->
      generation_fails JSON_parse (Ok text).

Definition llm_down : LLMChat RawPlan := fun _ => Throw UpstreamError.

(** [m] is the greatest element of [L]. *)
Definition is_max (m : Q) (L : list Q) : Prop :=
  m ∈ L /\ Forall (fun x => (x <= m)%Q) L.

Definition positive (b : Q) : bool := negb (Qle_bool b 0).

(** The head of a list is one of its greatest elements. *)
Definition head_max (l : list ScoredEvidence) : Prop :=
  match l with
  | [] => True
  | e :: r => Forall (fun y => (ev_score y <= ev_score e)%Q) r
  end.

Definition string_all (p : ascii -> bool) (s : string) : Prop :=
  Forall (fun c => p c = true) (list_ascii_of_string s).

Definition digit (d : nat) : ascii := ascii_of_nat (48 + d).

(** The tokens w000, w001, ... *)
Definition tok (i : nat) : string :=
  String "w" (String (digit (i / 100 mod 10))
    (String (digit (i / 10 mod 10)) (String (digit (i mod 10)) EmptyString))).

Definition unwords (l : list string) : string :=
  foldr (fun w acc => if (acc =? "")%string then w else w +:+ " " +:+ acc)
        EmptyString l.

Definition toks (n : nat) : string := unwords (tok <$> seq 0 n).

Definition ids (k : nat) : string := "id" +:+ String (digit k) EmptyString.

Definition source_with (t : string) : EvidenceSource :=
  {| url := "https://a.com/x"; title := "T"; domain := "a.com";
     excerpt := "e"; text := t; contentHash := "h" |}.

(** A stop condition holds in the pool: the last reading of the clock is
    past the deadline, or the evidence collected is sufficient. *)
Definition stopped (opts : ResearchOptions) (deadline : Z) (p : Pool) : Prop :=
  deadline < clock p \/ enoughEvidence opts (sources p) = true.

(** What every event preserves. *)
Definition extends (opts : ResearchOptions) (deadline : Z) (p p' : Pool) : Prop :=
  clock p <= clock p'
  /\ sources p `prefix_of` sources p'
  /\ trace p `prefix_of` trace p'
  /\ (idx p <= idx p')%nat
  /\ (stopped opts deadline p -> idx p' = idx p /\ stopped opts deadline p').

(** The three tests of a fetched page, and the test of a document. *)
Definition page_usable (page : FetchResult) : bool :=
  negb ((status page <? 200) || (300 <=? status page))
  && JS.includes (JS.toLowerCase (contentType page)) "text/html"
  && negb (html page =? "")%string.

Definition doc_usable (d : ExtractedDoc) : bool :=
  negb ((doc_text d =? "")%string || (JS.len (doc_text d) <? 300)).

Definition source_of (cur : Selected) (d : ExtractedDoc) (dom : string) : EvidenceSource :=
  {| url := sel_url cur; title := doc_title d; domain := dom;
     excerpt := doc_excerpt d; text := doc_text d;
     contentHash := doc_contentHash d |}.

Definition three_tasks : list Selected :=
  [{| sel_url := "https://www.a.com/x"; reason := select_reason |};
   {| sel_url := "http://b.org/def"; reason := select_reason |};
   {| sel_url := "https://c.net/"; reason := select_reason |}].

Definition opts_one_source : ResearchOptions :=
  {| budgetMs := 7000; perIntentUrls := 3; concurrency := 2;
     maxSources := 1; minSources := 1 |}.

(** Two workers hold the first two tasks; the first has delivered its
    source, which is sufficient; the second is still extracting. *)
Definition pool_sufficient : Pool :=
  {| idx := 2; sources := [source_a]; trace := []; clock := 200;
     workers := [AtHead; AwaitExtract {| sel_url := "http://b.org/def"; reason := select_reason |}] |}.

Definition events_after_sufficient : list Event :=
  [EvHead 0 200; EvExtracted 1 (Ok (doc_ok "h2")) 300; EvHead 1 300].

Definition pool_drained : Pool :=
  {| idx := 2; sources := [source_a; source_b]; trace := []; clock := 300;
     workers := [Returned; Returned] |}.

(** One task, taken at time 0 of a budget of 7000 ms, whose fetch brings a
    usable page at time 7001. *)
Definition env_fetch_late : Env :=
  {| searchReplies := [Ok [result_at "https://www.a.com/x"]];
     startMs := 0;
     schedule := [EvHead 0 0; EvFetched 0 (page_ok "https://www.a.com/x") 7001];
     finishMs := 7001 |}.

(** The same task, whose fetch resolves at time 7000 and whose extraction
    ends at time 9000. *)
Definition env_extract_late : Env :=
  {| searchReplies := [Ok [result_at "https://www.a.com/x"]];
     startMs := 0;
     schedule :=
       [EvHead 0 0; EvFetched 0 (page_ok "https://www.a.com/x") 7000;
        EvExtracted 0 (Ok (doc_ok "h1")) 9000; EvHead 0 9000];
     finishMs := 9000 |}.

(** Two tasks taken at time 0; both deliver a source, the second one after
    the first has made the evidence sufficient. *)
Definition env_two_in_flight : Env :=
  {| searchReplies :=
       [Ok [result_at "https://www.a.com/x"; result_at "http://b.org/def"]];
     startMs := 0;
     schedule :=
       [EvHead 0 0; EvHead 1 0;
        EvFetched 0 (page_ok "https://www.a.com/x") 100;
        EvFetched 1 (page_ok "http://b.org/def") 100;
        EvExtracted 0 (Ok (doc_ok "h1")) 200; EvHead 0 200;
        EvExtracted 1 (Ok (doc_ok "h2")) 300; EvHead 1 300];
     finishMs := 300 |}.

Definition tokens_of (ev : list SseEvent) : list string :=
  omap (fun e => match e with SseToken c => Some c | _ => None end) ev.

(** A serialization for the examples: it keeps the final answer only. *)
Definition answer_stringify (a : CachedArtifact) : string := "{" +:+ finalAnswer a.

Definition answer_parse (s : string) : Exn CachedArtifact :=
  match s with
  | String "{" r =>
      Ok {| finalAnswer := r; art_sources := []; art_trace := []; art_claims := [] |}
  | _ => Throw SyntaxError
  end.

Definition env_three_searches : Env :=
  {| searchReplies := [Ok [result_at "https://www.a.com/x"]; Ok []; Ok []];
     startMs := 0;
     schedule :=
       [EvHead 0 0; EvFetched 0 (page_ok "https://www.a.com/x") 100;
        EvExtracted 0 (Ok (doc_ok "h1")) 200; EvHead 0 200];
     finishMs := 300 |}.

Definition run_first : RunEnv :=
  {| run_now := 1000; run_store_now := 5000; run_db := Ok tt;
     run_plan := llm_down;
     run_env1 := env_three_searches; run_env2 := env_three_searches;
     run_draft := Ok "draft"; run_claims := [];
     run_stream := (["Solar power "; "is abundant."], None);
     run_fallback := Ok ""; run_fallback_fast := Ok "" |}.

(** A later request: nothing but the clock, the store and the cache
    answers. *)
Definition run_second (db : Exn unit) : RunEnv :=
  {| run_now := 6000; run_store_now := 6000; run_db := db;
     run_plan := llm_down;
     run_env1 := env_idle_workers; run_env2 := env_idle_workers;
     run_draft := Throw UpstreamError; run_claims := [];
     run_stream := ([], Some UpstreamError);
     run_fallback := Throw UpstreamError; run_fallback_fast := Throw UpstreamError |}.

Definition cache_with_answer : Cache.Mem :=
  {[ "artifact:v1:normal:solar power" := ("{Solar power is abundant.", 7205000) ]}.

(** ** Predicates and data of the further properties *)

(** The verdicts of a sequence of requests, each with its address and the
    reading of the clock when it is counted. *)
Fixpoint rate_limit_run (calls : list (string * Z)) (memHits : RateLimit.MemHits)
    : list (string * RateLimit.Verdict) * RateLimit.MemHits :=
  match calls with
  | [] => ([], memHits)
  | (ip, now) :: rest =>
      let '(v, memHits') := RateLimit.checkRateLimit ip now memHits in
      let '(vs, memHits'') := rate_limit_run rest memHits' in
      ((ip, v) :: vs, memHits'')
  end.

(** The verdicts given to one address, in order. *)
Definition verdicts_of (ip : string) (l : list (string * RateLimit.Verdict))
    : list RateLimit.Verdict :=
  snd <$> filter (fun x => x.1 = ip) l.

(** The verdict of the request of rank [k] (from 0) of a window. *)
Definition window_verdict (k : nat) : RateLimit.Verdict :=
  {| RateLimit.allowed := bool_decide (k < 30)%nat;
     RateLimit.remaining := Z.max 0 (29 - Z.of_nat k) |}.

(** A serialization of fetch results for the examples: it keeps the HTML,
    and reads every text back as a page of [https://a.com/x]. *)
Definition page_stringify (r : FetchResult) : string := "{" +:+ html r.

Definition page_parse (s : string) : Exn FetchResult :=
  match s with
  | String "{" body =>
      Ok {| fr_url := "https://a.com/x"; status := 200;
            contentType := "text/html; charset=utf-8"; html := body |}
  | _ => Throw SyntaxError
  end.

Definition reply_ok : HttpReply :=
  {| statusCode := 200; header_contentType := "text/html; charset=utf-8";
     body_text := Ok "<p>x</p>" |}.

(** [l.join(sep)] *)
Definition join_with (sep : string) (l : list string) : string :=
  match l with
  | [] => EmptyString
  | x :: r => x +:+ concat_strings ((fun y => sep +:+ y) <$> r)
  end.

(** The paragraphs [chunkText] packs: the pieces of the text between blank
    lines, trimmed, the empty ones left out. *)
Definition paragraphs (text : string) : list string :=
  filter (fun p => nonempty p = true) (JS.trim <$> JS.split_blank text).

(** The evidence [e] cited for [claim] is the first 280 code units of a
    chunk of one of the [sources], one that shares a token with the claim,
    under the URL of that source. *)
Definition cites (claim : string) (sources : list EvidenceSource) (e : string * string)
    : Prop :=
  exists s chunk,
    s ∈ sources /\ e.1 = url s
    /\ chunk ∈ chunkText (text s) /\ e.2 = JS.slice chunk 0 280
    /\ (0 < overlapScore claim chunk)%Q.

(** A search result [selectUrls] can select: its link has a hostname and
    its snippet has 30 code units or more. *)
Definition eligible (hostname : string -> Exn string) (r : SearchResult) (d : string)
    : Prop :=
  domainOf hostname (link r) = Ok d /\ snippet_too_short r = false.

(** Two searches, the second of which fails. *)
Definition env_second_search_fails : Env :=
  {| searchReplies := [Ok [result_at "https://www.a.com/x"]; Throw UpstreamError];
     startMs := 0;
     schedule :=
       [EvHead 0 0; EvFetched 0 (page_ok "https://www.a.com/x") 100;
        EvExtracted 0 (Ok (doc_ok "h1")) 200; EvHead 0 200];
     finishMs := 300 |}.

(** The tasks of a [research] call: the URLs selected for its intents, in
    the order of the intents. *)
Definition research_tasks (hostname : string -> Exn string) (intents : list string)
    (opts : ResearchOptions) (env : Env) : list Selected :=
  match select_phase hostname intents (searchReplies env) opts [] [] with
  | Some (Ok (_, tasks)) => tasks
  | _ => []
  end.

(** The queries of the search events of a trace, and the URLs of its fetch
    events, in order. *)
Definition searched_queries (tr : list TraceEvent) : list string :=
  omap (fun ev => match ev with TrSearch q _ => Some q | _ => None end) tr.

Definition fetched_urls (tr : list TraceEvent) : list string :=
  omap (fun ev => match ev with TrFetch u _ => Some u | _ => None end) tr.

(** The URL a worker is fetching, if it is. *)
Definition pending_fetch (st : WorkerState) : list string :=
  match st with AwaitFetch cur => [sel_url cur] | _ => [] end.

(** The task a worker holds, if any, is one of [tasks]. *)
Definition holds_task_of (tasks : list Selected) (st : WorkerState) : Prop :=
  match st with
  | AwaitFetch cur | AwaitExtract cur => cur ∈ tasks
  | AtHead | Returned => True
  end.

(** A source built from one of [tasks]: its URL is the task's, its domain
    the normalized hostname of that URL, and its text has 300 code units
    or more. *)
Definition source_from (hostname : string -> Exn string) (tasks : list Selected)
    (s : EvidenceSource) : Prop :=
  300 <= JS.len (text s)
  /\ url s ∈ sel_url <$> tasks
  /\ domainOf hostname (url s) = Ok (domain s).

(** What the workers of one [research] call keep, [tr0] being the trace of
    the selection: the trace is [tr0] followed by fetch events; the URLs
    fetched or being fetched are, up to their order, those of the first
    [idx] tasks; every worker holds a task of [tasks]; every source was
    built from one. *)
Definition pool_inv (hostname : string -> Exn string) (tasks : list Selected)
    (tr0 : list TraceEvent) (p : Pool) : Prop :=
  (idx p <= length tasks)%nat
  /\ (exists fetched,
        trace p = tr0 ++ ((fun x => TrFetch x.1 x.2) <$> fetched)
        /\ (fetched.*1) ++ (workers p ≫= pending_fetch) ≡ₚ sel_url <$> take (idx p) tasks)
  /\ Forall (holds_task_of tasks) (workers p)
  /\ Forall (source_from hostname tasks) (sources p).

(** The URL of [s] is the link of a search result, of one of the
    [replies], whose snippet has 30 code units or more. *)
Definition found_by (replies : list (Exn (list SearchResult))) (s : Selected) : Prop :=
  exists results, Ok results ∈ replies /\ informative results s.

(** The events that end a response. *)
Definition terminal (e : SseEvent) : bool :=
  match e with
  | SseDone | SseError _ => true
  | _ => false
  end.

(** The lists of records of the claims events of a response, in order. *)
Definition claims_of (ev : list SseEvent) : list (list ClaimRecord) :=
  omap (fun e => match e with SseClaims c => Some c | _ => None end) ev.

(** A record of events is a well-formed response: it starts with the
    three events every response starts with, and it holds one terminal
    event, its last: [done] when the run has an answer, [error] when it has
    none. *)
Definition well_formed (m : Mode) (resp : Response) : Prop :=
  take 3 (events resp) = [SseMeta m; SseStatus "Starting..." 0 4; SseToken preamble]
  /\ exists body t,
       events resp = body ++ [t]
       /\ Forall (fun e => terminal e = false) body
       /\ match t with
          | SseDone => exists a, answer resp = Some a
          | SseError _ => answer resp = None
          | _ => False
          end.

(** A store that holds the artifact of the answer "A." to the question
    "q" in normal mode. *)
Definition cache_with_q : Cache.Mem :=
  {[ "artifact:v1:normal:q" := ("{A.", 7205000) ]}.

(** A text that starts with [{] or [[] and ends with [}] or []]. *)
Definition bracketed (j : string) : Prop :=
  exists o mid c,
    j = String o (mid +:+ String c EmptyString)
    /\ is_opener o = true /\ is_closer c = true.

(** A response of the OpenRouter provider in two reads that cut the blank
    line between its two frames: one chunk of content, then the end. *)
Definition sse_head : string :=
  "data: {" +:+ quoted "choices" +:+ ":[{" +:+ quoted "delta" +:+ ":{"
    +:+ quoted "content" +:+ ":" +:+ quoted "Hi" +:+ "}}]}"
    +:+ String JS.newline EmptyString.

Definition sse_tail : string :=
  String JS.newline ("data: [DONE]" +:+ String JS.newline (String JS.newline EmptyString)).

(** The body of a request for [message] in mode [m]. *)
Definition body_of (m : Mode) (message : string) : JsValue :=
  Some (JObj [("message", JStr message); ("mode", JStr (mode_name m))]).

(** The keys of the artifacts, and a function on stores that leaves the
    entries under them as they are: what the [research] calls do, whose
    keys start with [search:v1:], [fetch:v2:] and [extract:v1:]. *)
Definition is_artifact_key (k : string) : bool := String.prefix "artifact:v1:" k.

Definition keeps_artifacts (f : Cache.Mem -> Cache.Mem) : Prop :=
  forall mem k, is_artifact_key k = true -> f mem !! k = mem !! k.

(** The artifact a request is answered from: the one the lookup of its key
    finds live in the store and reads back. *)
Definition cached_artifact (JSON_parse_artifact : string -> Exn CachedArtifact)
    (ck : string) (now : Z) (mem : Cache.Mem) : option CachedArtifact :=
  match (Cache.cacheGet ck now mem).1 with
  | Some text =>
      if nonempty text
      then match JSON_parse_artifact text with Ok a => Some a | Throw _ => None end
      else None
  | None => None
  end.

(** The events a response goes on from: the three events every response
    to a valid body starts with, then events that do not end it. *)
Definition starts (m : Mode) (ev : list SseEvent) : Prop :=
  (3 <= length ev)%nat
  /\ take 3 ev = [SseMeta m; SseStatus "Starting..." 0 4; SseToken preamble]
  /\ Forall (fun e => terminal e = false) ev.

(** A storage that answers the calls of rank below [n] and fails from the
    call of rank [n] on. *)
Definition storage_down_from (n : nat) (k : nat) : Exn unit :=
  if (k <? n)%nat then Ok tt else Throw UpstreamError.

(** What a [research] call that fetches one page leaves in the store. *)
Definition store_page (mem : Cache.Mem) : Cache.Mem :=
  Cache.cacheSet (Fetch.cacheKey "https://www.a.com/x") "{<p>x</p>" 21600 100 mem.

(** The second [research] call of a request whose plan is the fallback
    plan: five searches, one page. *)
Definition env_five_searches : Env :=
  {| searchReplies := [Ok [result_at "https://www.a.com/x"]; Ok []; Ok []; Ok []; Ok []];
     startMs := 1000;
     schedule :=
       [EvHead 0 1000; EvFetched 0 (page_ok "https://www.a.com/x") 1100;
        EvExtracted 0 (Ok (doc_ok "h1")) 1200; EvHead 0 1200];
     finishMs := 1300 |}.

(** A request in reliability mode: one claim is extracted from the
    draft. *)
Definition run_reliable : RunEnv :=
  {| run_now := 1000; run_store_now := 5000; run_db := Ok tt;
     run_plan := llm_down;
     run_env1 := env_three_searches; run_env2 := env_five_searches;
     run_draft := Ok "Solar power is abundant.";
     run_claims := ["Solar power is abundant."];
     run_stream := (["Solar power "; "is abundant."], None);
     run_fallback := Ok ""; run_fallback_fast := Ok "" |}.

(** * Properties *)

(** ** Deduplication by content hash *)

(** Case analysis on the membership tests of a goal, then propositional
    reasoning on the memberships. *)
Ltac unfold_members :=
  repeat match goal with
  | H : context [_ ∈ _ ∪ _] |- _ => rewrite elem_of_union in H
  | H : context [_ ∈ {[ _ ]}] |- _ => rewrite elem_of_singleton in H
  | H : context [_ ∈ ∅] |- _ => rewrite elem_of_empty in H
  | H : context [_ ∈ list_to_set _] |- _ => rewrite elem_of_list_to_set in H
  | |- context [_ ∈ _ ∪ _] => rewrite elem_of_union
  | |- context [_ ∈ {[ _ ]}] => rewrite elem_of_singleton
  | |- context [_ ∈ ∅] => rewrite elem_of_empty
  | |- context [_ ∈ list_to_set _] => rewrite elem_of_list_to_set
  end.

Ltac decide_members :=
  repeat case_decide; try reflexivity; exfalso; unfold_members;
  rewrite ?fmap_cons, ?elem_of_cons in *; intuition congruence.

Lemma dedupe_go_hashes_fresh l seen x :
  x ∈ dedupe_go l seen -> contentHash x ∉ seen.
Proof.
  revert seen. induction l as [|s r IH]; intros seen; simpl.
  - intros H. inversion H.
  - destruct (decide (contentHash s ∈ seen)) as [Hin|Hout].
    + apply IH.
    + intros H. apply elem_of_cons in H as [->|H]; [exact Hout|].
      apply IH in H. unfold_members. tauto.
Qed.

Lemma dedupe_go_NoDup l seen : NoDup (contentHash <$> dedupe_go l seen).
Proof.
  revert seen. induction l as [|s r IH]; intros seen; simpl.
  - constructor.
  - destruct (decide (contentHash s ∈ seen)); [apply IH|].
    rewrite fmap_cons. constructor; [|apply IH].
    intros H. apply list_elem_of_fmap in H as (y & Hy & Hin).
    apply dedupe_go_hashes_fresh in Hin. unfold_members. intuition congruence.
Qed.

Lemma dedupe_go_sublist l seen : dedupe_go l seen `sublist_of` l.
Proof.
  revert seen. induction l as [|s r IH]; intros seen; simpl.
  - constructor.
  - destruct (decide (contentHash s ∈ seen)).
    + apply sublist_cons, IH.
    + apply sublist_skip, IH.
Qed.

(** Appending one element to the collection appends it to the deduplicated
    list exactly when its hash has not been met before. *)
Lemma dedupe_go_snoc l x seen :
  dedupe_go (l ++ [x]) seen =
  dedupe_go l seen ++
    (if decide (contentHash x ∈ seen ∪ list_to_set (contentHash <$> l))
     then [] else [x]).
Proof.
  revert seen. induction l as [|s r IH]; intros seen; cbn [dedupe_go app].
  - rewrite fmap_nil, list_to_set_nil.
    decide_members.
  - rewrite fmap_cons, list_to_set_cons.
    destruct (decide (contentHash s ∈ seen)) as [Hin|Hout]; rewrite IH.
    + decide_members.
    + rewrite <- app_comm_cons.
      decide_members.
Qed.

Lemma dedupe_snoc l x :
  dedupe (l ++ [x]) =
  dedupe l ++ (if decide (contentHash x ∈ contentHash <$> l) then [] else [x]).
Proof.
  unfold dedupe. rewrite dedupe_go_snoc.
  decide_members.
Qed.

(** Every element of the deduplicated list is the first of the collection
    with its hash. *)
Lemma dedupe_go_first l seen x :
  x ∈ dedupe_go l seen ->
  exists l1 l2, l = l1 ++ x :: l2 /\ contentHash x ∉ contentHash <$> l1.
Proof.
  revert seen. induction l as [|s r IH]; intros seen; simpl.
  - intros H. inversion H.
  - destruct (decide (contentHash s ∈ seen)) as [Hin|Hout]; intros H.
    + pose proof (dedupe_go_hashes_fresh _ _ _ H) as Hfresh.
      destruct (IH _ H) as (l1 & l2 & -> & Hl1).
      exists (s :: l1), l2. split; [reflexivity|].
      rewrite fmap_cons, not_elem_of_cons. split; [congruence|exact Hl1].
    + apply elem_of_cons in H as [->|H].
      * exists [], r. split; [reflexivity|]. rewrite fmap_nil. apply not_elem_of_nil.
      * pose proof (dedupe_go_hashes_fresh _ _ _ H) as Hfresh.
        destruct (IH _ H) as (l1 & l2 & -> & Hl1).
        exists (s :: l1), l2. split; [reflexivity|].
        rewrite fmap_cons, not_elem_of_cons. split; [|exact Hl1].
        unfold_members. intuition congruence.
Qed.

(** Conversely the first element with a given hash survives. *)
Lemma dedupe_go_keeps_first l1 x l2 seen :
  contentHash x ∉ seen -> contentHash x ∉ contentHash <$> l1 ->
  x ∈ dedupe_go (l1 ++ x :: l2) seen.
Proof.
  revert seen. induction l1 as [|s r IH]; intros seen Hseen Hl1; simpl.
  - destruct (decide (contentHash x ∈ seen)); [contradiction|]. apply list_elem_of_here.
  - rewrite fmap_cons, not_elem_of_cons in Hl1. destruct Hl1 as [Hne Hr].
    destruct (decide (contentHash s ∈ seen)).
    + apply IH; assumption.
    + apply list_elem_of_further, IH; [|assumption].
      unfold_members. intuition congruence.
Qed.

Lemma slice_list_prefix {A} (l : list A) (n : Z) :
  0 <= n -> JS.slice_list l 0 n = take (Z.to_nat n) l.
Proof.
  intros Hn. unfold JS.slice_list, JS.clamp_index.
  replace (0 <? 0) with false by reflexivity.
  destruct (n <? 0) eqn:E; [apply Z.ltb_lt in E; lia|].
  replace (Z.min 0 (Z.of_nat (length l))) with 0 by lia.
  change (Z.to_nat 0) with 0%nat. rewrite drop_0, Z.sub_0_r.
  destruct (decide (n <= Z.of_nat (length l))).
  - replace (Z.max (Z.min n (Z.of_nat (length l))) 0) with n by lia. reflexivity.
  - replace (Z.max (Z.min n (Z.of_nat (length l))) 0) with (Z.of_nat (length l)) by lia.
    rewrite Nat2Z.id, firstn_all.
    symmetry. apply take_ge. lia.
Qed.

Lemma slice_list_sublist {A} (l : list A) (a b : Z) :
  JS.slice_list l a b `sublist_of` l.
Proof.
  unfold JS.slice_list.
  etrans; [apply sublist_take|apply sublist_drop].
Qed.

Lemma NoDup_fmap_sublist {A B} (f : A -> B) (l k : list A) :
  l `sublist_of` k -> NoDup (f <$> k) -> NoDup (f <$> l).
Proof.
  intros Hsub Hk. apply (sublist_NoDup _ (f <$> k)); [exact Hk|].
  by apply fmap_sublist.
Qed.

Lemma slice_list_from_0_prefix {A} (l : list A) (n : Z) :
  JS.slice_list l 0 n `prefix_of` l.
Proof.
  unfold JS.slice_list, JS.clamp_index.
  replace (0 <? 0) with false by reflexivity.
  replace (Z.min 0 (Z.of_nat (length l))) with 0 by lia.
  change (Z.to_nat 0) with 0%nat. rewrite drop_0.
  apply prefix_take.
Qed.

Lemma dedupe_first raw x : x ∈ dedupe raw -> first_with_hash raw x.
Proof. apply dedupe_go_first. Qed.

Lemma dedupe_keeps_first raw x : first_with_hash raw x -> x ∈ dedupe raw.
Proof.
  intros (l1 & l2 & -> & H). apply dedupe_go_keeps_first; [|exact H].
  apply not_elem_of_empty.
Qed.

Lemma dedupe_NoDup raw : NoDup (contentHash <$> dedupe raw).
Proof. apply dedupe_go_NoDup. Qed.

(** ** C1: the sources [research] returns *)

(** C1: for every list of intents, every options record and every
    environment in which [research] returns, no two returned sources have
    the same contentHash; the returned list is a prefix of the collection
    deduplicated in discovery order, where each hash is kept at its first
    occurrence and no first occurrence is dropped; maxSources being a
    count, not negative, the returned list is the first maxSources elements
    of the deduplicated collection, so its length is at most maxSources;
    and the trace returned is the trace of the call followed by one timing
    event with the elapsed milliseconds. *)
Theorem research_sources_distinct_and_capped
    (hostname : string -> Exn string) (intents : list string)
    (opts : ResearchOptions) (env : Env) (r : ResearchResult) :
  research hostname intents opts env = Some (Ok r) ->
  NoDup (contentHash <$> res_sources r)
  /\ (exists p, fetch_phase hostname intents opts env = Some (Ok p)
        /\ res_sources r `prefix_of` dedupe (sources p)
        /\ Forall (first_with_hash (sources p)) (res_sources r)
        /\ (0 <= maxSources opts ->
            res_sources r = take (Z.to_nat (maxSources opts)) (dedupe (sources p)))
        /\ (forall x, first_with_hash (sources p) x -> x ∈ dedupe (sources p))
        /\ res_trace r = trace p ++ [TrTiming (finishMs env - startMs env)])
  /\ (0 <= maxSources opts ->
      Z.of_nat (length (res_sources r)) <= maxSources opts).
Proof.
  unfold research. intros H.
  destruct (fetch_phase hostname intents opts env) as [[p|e]|] eqn:Hp; try discriminate.
  injection H as <-. cbn [res_sources res_trace].
  assert (Hpre : JS.slice_list (dedupe (sources p)) 0 (maxSources opts)
                   `prefix_of` dedupe (sources p))
    by apply slice_list_from_0_prefix.
  split; [|split].
  - apply (NoDup_fmap_sublist _ _ (dedupe (sources p))); [|apply dedupe_NoDup].
    destruct Hpre as [k Hk]. rewrite Hk at 2. apply sublist_inserts_r. reflexivity.
  - exists p. split; [reflexivity|]. split; [exact Hpre|]. split; [|split; [|split]].
    + apply Forall_forall. intros x Hx. apply dedupe_first.
      destruct Hpre as [k Hk]. rewrite Hk. apply elem_of_app. by left.
    + intros Hmax. by apply slice_list_prefix.
    + intros x Hx. by apply dedupe_keeps_first.
    + reflexivity.
  - intros Hmax. rewrite slice_list_prefix by exact Hmax.
    rewrite length_take. lia.
Qed.

(** Two pages with the same content hash are fetched: one source comes
    back, under a cap of 6. *)
Lemma research_sources_distinct_and_capped_witness :
  research url_hostname ["q"] opts_default env_two_equal_pages
    = Some (Ok {| res_trace :=
                    [TrSearch "q" 3;
                     TrSelect [{| sel_url := "https://www.a.com/x"; reason := select_reason |};
                               {| sel_url := "http://b.org"; reason := select_reason |}];
                     TrFetch "http://b.org" 200; TrFetch "https://www.a.com/x" 200;
                     TrTiming 500];
                  res_sources :=
                    [{| url := "http://b.org"; title := "T"; domain := "b.org";
                        excerpt := "e"; text := text300; contentHash := "h1" |}] |})
  /\ NoDup (contentHash <$>
              [{| url := "http://b.org"; title := "T"; domain := "b.org";
                  excerpt := "e"; text := text300; contentHash := "h1" |}])
  /\ Z.of_nat (length
                 [{| url := "http://b.org"; title := "T"; domain := "b.org";
                     excerpt := "e"; text := text300; contentHash := "h1" |}])
     <= maxSources opts_default.
Proof.
  assert (E : research url_hostname ["q"] opts_default env_two_equal_pages
    = Some (Ok {| res_trace :=
                    [TrSearch "q" 3;
                     TrSelect [{| sel_url := "https://www.a.com/x"; reason := select_reason |};
                               {| sel_url := "http://b.org"; reason := select_reason |}];
                     TrFetch "http://b.org" 200; TrFetch "https://www.a.com/x" 200;
                     TrTiming 500];
                  res_sources :=
                    [{| url := "http://b.org"; title := "T"; domain := "b.org";
                        excerpt := "e"; text := text300; contentHash := "h1" |}] |}))
    by (vm_compute; reflexivity).
  split; [exact E|].
  pose proof (research_sources_distinct_and_capped url_hostname ["q"] opts_default
                env_two_equal_pages _ E) as (Hnd & _ & Hcap).
  split; [exact Hnd|]. apply Hcap. cbn. lia.
Defined.

(** ** C2: one selection round *)

Section SelectUrls.

Variable hostname : string -> Exn string.

Lemma snippet_too_short_false r :
  snippet_too_short r = false ->
  exists sn, snippet r = Some sn /\ 30 <= JS.len sn.
Proof.
  unfold snippet_too_short. destruct (snippet r) as [sn|]; [|discriminate].
  intros H. apply orb_false_iff in H as [_ H]. apply Z.ltb_ge in H. eauto.
Qed.

Lemma selectUrls_loop_spec (all : list SearchResult) (max : Z) :
  forall results seen selected,
    results ⊆ all ->
    Forall (has_domain_in hostname seen) selected ->
    NoDup (domainOf hostname ∘ sel_url <$> selected) ->
    Forall (informative all) selected ->
    (selected = [] \/ Z.of_nat (length selected) < max) ->
    let out := selectUrls_loop hostname results max seen selected in
    NoDup (domainOf hostname ∘ sel_url <$> out)
    /\ Forall (fun s => exists d, domainOf hostname (sel_url s) = Ok d) out
    /\ Forall (informative all) out
    /\ Z.of_nat (length out) <= Z.max 1 max.
Proof.
  induction results as [|r rest IH]; intros seen selected Hsub Hseen Hnd Hinf Hlen; cbn zeta.
  - cbn [selectUrls_loop]. repeat split; try assumption.
    + eapply Forall_impl; [exact Hseen|]. intros s (d & Hd & _). eauto.
    + destruct Hlen as [->|Hlen]; simpl; lia.
  - assert (Hrest : rest ⊆ all) by (intros x Hx; apply Hsub; by right).
    cbn [selectUrls_loop].
    destruct (domainOf hostname (link r)) as [d|e] eqn:Hd; [|by apply IH].
    destruct (decide (d ∈ seen)) as [Hin|Hout]; [by apply IH|].
    destruct (snippet_too_short r) eqn:Hsn; [by apply IH|].
    set (new := {| sel_url := link r; reason := select_reason |}).
    assert (Hnd' : NoDup (domainOf hostname ∘ sel_url <$> selected ++ [new])).
    { rewrite fmap_app. apply NoDup_app. split; [exact Hnd|]. split.
      - intros k Hk Hk'. apply list_elem_of_fmap in Hk as (s & -> & Hs).
        rewrite Forall_forall in Hseen. destruct (Hseen s Hs) as (d' & Hd' & Hin').
        cbn in Hk'. apply list_elem_of_singleton in Hk'. cbn in Hk'.
        rewrite Hd, Hd' in Hk'. congruence.
      - cbn. apply NoDup_singleton. }
    assert (Hok' : Forall (has_domain_in hostname ({[d]} ∪ seen)) (selected ++ [new])).
    { apply Forall_app. split.
      - eapply Forall_impl; [exact Hseen|]. intros s (d' & Hd' & Hin').
        exists d'. split; [exact Hd'|]. apply elem_of_union. by right.
      - apply Forall_singleton. exists d. split; [exact Hd|].
        apply elem_of_union. left. by apply elem_of_singleton. }
    assert (Hinf' : Forall (informative all) (selected ++ [new])).
    { apply Forall_app. split; [exact Hinf|]. apply Forall_singleton.
      destruct (snippet_too_short_false _ Hsn) as (sn & Hsome & Hlong).
      exists r, sn. repeat split; try assumption. apply Hsub. by left. }
    destruct (max <=? Z.of_nat (length (selected ++ [new]))) eqn:Hmax.
    + repeat split; try assumption.
      * eapply Forall_impl; [exact Hok'|]. intros s (d' & Hd' & _). eauto.
      * rewrite length_app in *. cbn [length] in *.
        destruct Hlen as [->|Hlen]; cbn [length]; lia.
    + apply IH; try assumption. right. apply Z.leb_gt in Hmax. exact Hmax.
Qed.

(** What holds of every selection round: the normalized domains of the
    selected URLs are pairwise distinct, every selected URL comes from a
    result whose snippet has 30 code units or more, and at most
    [max] URLs are selected as soon as [max] is 1 or more. *)
Lemma selectUrls_spec (results : list SearchResult) (max : Z) :
  let out := selectUrls hostname results max in
  NoDup (domainOf hostname ∘ sel_url <$> out)
  /\ Forall (fun s => exists d, domainOf hostname (sel_url s) = Ok d) out
  /\ Forall (informative results) out
  /\ Z.of_nat (length out) <= Z.max 1 max.
Proof.
  apply selectUrls_loop_spec; [done|constructor|constructor|constructor|by left].
Qed.

Lemma selectUrls_at_most_max (results : list SearchResult) (max : Z) :
  1 <= max -> Z.of_nat (length (selectUrls hostname results max)) <= max.
Proof.
  intros Hmax. pose proof (selectUrls_spec results max) as (_ & _ & _ & H).
  cbn zeta in H. lia.
Qed.

End SelectUrls.

(** C2: one selection round, for a cap [max] of 1 or more (the handler
    passes 2 or 3): no two selected URLs have the same normalized domain,
    each has one; every selected URL is the link of a result whose snippet
    has 30 code units or more; and at most [max] URLs are selected. *)
Theorem selectUrls_round
    (hostname : string -> Exn string) (results : list SearchResult) (max : Z) :
  1 <= max ->
  let out := selectUrls hostname results max in
  NoDup (domainOf hostname ∘ sel_url <$> out)
  /\ Forall (fun s => exists d, domainOf hostname (sel_url s) = Ok d) out
  /\ Forall (informative results) out
  /\ Z.of_nat (length out) <= max.
Proof.
  intros Hmax. cbn zeta.
  pose proof (selectUrls_spec hostname results max) as (Hnd & Hdom & Hinf & Hlen).
  cbn zeta in Hlen. repeat split; try assumption. lia.
Qed.

(** Four results on three domains, the second on the domain of the first,
    and a cap of 2: the first and the third are selected. *)
Lemma selectUrls_round_witness :
  selectUrls url_hostname
    [result_at "https://www.a.com/x"; result_at "https://a.com/y";
     result_at "http://b.org"; result_at "http://c.org"] 2
  = [{| sel_url := "https://www.a.com/x"; reason := select_reason |};
     {| sel_url := "http://b.org"; reason := select_reason |}]
  /\ NoDup (domainOf url_hostname ∘ sel_url <$>
              selectUrls url_hostname
                [result_at "https://www.a.com/x"; result_at "https://a.com/y";
                 result_at "http://b.org"; result_at "http://c.org"] 2)
  /\ Z.of_nat (length (selectUrls url_hostname
                 [result_at "https://www.a.com/x"; result_at "https://a.com/y";
                  result_at "http://b.org"; result_at "http://c.org"] 2)) <= 2.
Proof.
  split; [vm_compute; reflexivity|].
  pose proof (selectUrls_round url_hostname
                [result_at "https://www.a.com/x"; result_at "https://a.com/y";
                 result_at "http://b.org"; result_at "http://c.org"] 2 ltac:(lia))
    as (Hnd & _ & _ & Hlen).
  split; [exact Hnd|exact Hlen].
Defined.

(** ** C7: the widened second pass *)

Lemma mergeSourcesByHash_loop_take (cap : Z) :
  forall l seen out,
    Z.of_nat (length out) < cap ->
    mergeSourcesByHash_loop l cap seen out
    = out ++ take (Z.to_nat cap - length out) (dedupe_go l seen).
Proof.
  induction l as [|x r IH]; intros seen out Hlen; cbn [mergeSourcesByHash_loop dedupe_go].
  - rewrite take_nil, app_nil_r. reflexivity.
  - destruct (decide (contentHash x ∈ seen)); [by apply IH|].
    cbn zeta. rewrite length_app. cbn [length].
    destruct (cap <=? Z.of_nat (length out + 1)) eqn:Hcap.
    + apply Z.leb_le in Hcap.
      replace (Z.to_nat cap - length out)%nat with 1%nat by lia.
      cbn [take]. rewrite take_0. reflexivity.
    + apply Z.leb_gt in Hcap. rewrite IH by (rewrite length_app; cbn [length]; lia).
      rewrite length_app. cbn [length].
      replace (Z.to_nat cap - length out)%nat
        with (S (Z.to_nat cap - (length out + 1)))%nat by lia.
      cbn [take]. rewrite <- app_assoc. reflexivity.
Qed.

(** With a cap of 1 or more, merging is: concatenate, keep the first
    source of every hash, keep the first [cap] of those. *)
Lemma mergeSourcesByHash_take (a b : list EvidenceSource) (cap : Z) :
  1 <= cap ->
  mergeSourcesByHash a b cap = take (Z.to_nat cap) (dedupe (a ++ b)).
Proof.
  intros Hcap. unfold mergeSourcesByHash, dedupe.
  rewrite mergeSourcesByHash_loop_take by (cbn; lia).
  cbn [length app]. rewrite Nat.sub_0_r. reflexivity.
Qed.

Lemma dedupe_go_app l1 l2 seen :
  dedupe_go (l1 ++ l2) seen
  = dedupe_go l1 seen ++ dedupe_go l2 (seen ∪ list_to_set (contentHash <$> l1)).
Proof.
  revert seen. induction l1 as [|x r IH]; intros seen; cbn [app dedupe_go].
  - rewrite fmap_nil, list_to_set_nil.
    replace (seen ∪ ∅) with seen; [reflexivity|].
    apply set_eq. intros h. unfold_members. tauto.
  - rewrite fmap_cons, list_to_set_cons.
    destruct (decide (contentHash x ∈ seen)) as [Hin|Hout]; rewrite IH.
    + f_equal. f_equal. apply set_eq. intros h. unfold_members.
      intuition congruence.
    + rewrite <- app_comm_cons. f_equal. f_equal. f_equal.
      apply set_eq. intros h. unfold_members. tauto.
Qed.

Lemma dedupe_go_id l seen :
  NoDup (contentHash <$> l) ->
  (forall x, x ∈ l -> contentHash x ∉ seen) ->
  dedupe_go l seen = l.
Proof.
  revert seen. induction l as [|x r IH]; intros seen Hnd Hfresh; cbn [dedupe_go].
  - reflexivity.
  - rewrite fmap_cons in Hnd. apply NoDup_cons in Hnd as [Hx Hnd].
    destruct (decide (contentHash x ∈ seen)) as [Hin|Hout].
    + exfalso. apply (Hfresh x); [by left|exact Hin].
    + f_equal. apply IH; [exact Hnd|].
      intros y Hy. unfold_members. intros [Heq|Hin].
      * apply Hx. rewrite <- Heq. apply list_elem_of_fmap. eauto.
      * apply (Hfresh y); [by right|exact Hin].
Qed.

Lemma dedupe_app_NoDup l1 l2 :
  NoDup (contentHash <$> l1) ->
  dedupe (l1 ++ l2) = l1 ++ dedupe_go l2 (list_to_set (contentHash <$> l1)).
Proof.
  intros Hnd. unfold dedupe. rewrite dedupe_go_app.
  rewrite dedupe_go_id; [|exact Hnd|intros; apply not_elem_of_empty].
  f_equal. f_equal. apply set_eq. intros h. unfold_members. tauto.
Qed.

(** What [research] returns, as the later stages use it. *)
Lemma research_sources_shape hostname intents opts env r :
  research hostname intents opts env = Some (Ok r) ->
  exists raw, res_sources r = JS.slice_list (dedupe raw) 0 (maxSources opts).
Proof.
  unfold research. intros H.
  destruct (fetch_phase hostname intents opts env) as [[p|e]|]; try discriminate.
  injection H as <-. eauto.
Qed.

Lemma research_sources_NoDup hostname intents opts env r :
  research hostname intents opts env = Some (Ok r) ->
  NoDup (contentHash <$> res_sources r).
Proof.
  intros H. destruct (research_sources_shape _ _ _ _ _ H) as [raw ->].
  apply (NoDup_fmap_sublist _ _ (dedupe raw)); [|apply dedupe_NoDup].
  apply slice_list_sublist.
Qed.

(** C7: in reliability mode, when the first [research] call returns fewer
    than 3 sources and the second call returns, the stage has made exactly
    two calls, the second one with the first intents followed by
    "<message> definition" and "<message> authoritative source", and it
    goes on with the first 6 sources of the two result lists concatenated
    (first pass first) and deduplicated by content hash, first occurrence
    kept. *)
Theorem widened_second_pass
    (hostname : string -> Exn string) (message : string) (intents : list string)
    (env1 env2 : Env) (r1 r2 : ResearchResult) :
  research hostname intents (chat_opts reliability) env1 = Some (Ok r1) ->
  Z.of_nat (length (res_sources r1)) < 3 ->
  research hostname
    (intents ++ [message +:+ " definition"; message +:+ " authoritative source"])
    (chat_opts reliability) env2 = Some (Ok r2) ->
  exists out,
    retrieval_stage hostname reliability message intents env1 env2 = Some (Ok out)
    /\ ret_calls out =
         [(intents, chat_opts reliability);
          (intents ++ [message +:+ " definition"; message +:+ " authoritative source"],
           chat_opts reliability)]
    /\ ret_sources out = take 6 (dedupe (res_sources r1 ++ res_sources r2))
    /\ NoDup (contentHash <$> ret_sources out)
    /\ (length (ret_sources out) <= 6)%nat
    /\ res_sources r1 `prefix_of` ret_sources out.
Proof.
  intros H1 Hfew H2. unfold retrieval_stage. rewrite H1.
  cbn [requiredSources]. apply Z.ltb_lt in Hfew. rewrite Hfew.
  unfold extraIntents. rewrite H2. eexists. split; [reflexivity|].
  cbn [ret_calls ret_sources]. split; [reflexivity|].
  rewrite mergeSourcesByHash_take by lia. change (Z.to_nat 6) with 6%nat.
  split; [reflexivity|]. split; [|split].
  - apply (NoDup_fmap_sublist _ _ (dedupe (res_sources r1 ++ res_sources r2)));
      [apply sublist_take|apply dedupe_NoDup].
  - rewrite length_take. lia.
  - rewrite dedupe_app_NoDup by (eapply research_sources_NoDup; exact H1).
    apply Z.ltb_lt in Hfew.
    rewrite take_app_ge by lia.
    by apply prefix_app_r.
Qed.

(** A first pass with one source, a second pass with two: the stage goes
    on with the first-pass source, then the new one. *)
Lemma widened_second_pass_witness :
  exists out,
    retrieval_stage url_hostname reliability "q" ["q"] env_one_page env_wider = Some (Ok out)
    /\ ret_sources out = [source_a; source_b].
Proof.
  assert (H1 : research url_hostname ["q"] (chat_opts reliability) env_one_page
               = Some (Ok {| res_trace :=
                               [TrSearch "q" 1;
                                TrSelect [{| sel_url := "https://www.a.com/x"; reason := select_reason |}];
                                TrFetch "https://www.a.com/x" 200; TrTiming 300];
                             res_sources := [source_a] |}))
    by (vm_compute; reflexivity).
  assert (H2 : research url_hostname
                 (["q"] ++ ["q" +:+ " definition"; "q" +:+ " authoritative source"])
                 (chat_opts reliability) env_wider
               = Some (Ok {| res_trace :=
                               [TrSearch "q" 1;
                                TrSelect [{| sel_url := "https://www.a.com/x"; reason := select_reason |}];
                                TrSearch "q definition" 1;
                                TrSelect [{| sel_url := "http://b.org/def"; reason := select_reason |}];
                                TrSearch "q authoritative source" 0;
                                TrSelect [];
                                TrFetch "https://www.a.com/x" 200;
                                TrFetch "http://b.org/def" 200; TrTiming 400];
                             res_sources := [source_b; source_a] |}))
    by (vm_compute; reflexivity).
  destruct (widened_second_pass url_hostname "q" ["q"] env_one_page env_wider _ _
              H1 ltac:(cbn; lia) H2) as (out & Hout & _ & Hsrc & _).
  exists out. split; [exact Hout|]. rewrite Hsrc. vm_compute. reflexivity.
Defined.

(** ** C8: the recovery of JSON from a completion *)

Lemma indexOf_from_spec c s i :
  (JS.indexOf_from c s i = -1 /\ forall k, String.get k s <> Some c)
  \/ (exists n, JS.indexOf_from c s i = i + Z.of_nat n
               /\ String.get n s = Some c
               /\ forall k, (k < n)%nat -> String.get k s <> Some c).
Proof.
  revert i. induction s as [|d r IH]; intros i; cbn [JS.indexOf_from].
  - left. split; [reflexivity|]. intros k. destruct k; discriminate.
  - destruct (Ascii.eqb d c) eqn:E.
    + apply Ascii.eqb_eq in E as ->. right. exists 0%nat.
      split; [lia|]. split; [reflexivity|]. intros k Hk. lia.
    + apply Ascii.eqb_neq in E.
      destruct (IH (i + 1)) as [[H1 H2]|(n & H1 & H2 & H3)].
      * left. split; [exact H1|]. intros [|k]; cbn; [congruence|apply H2].
      * right. exists (S n). split; [lia|]. split; [exact H2|].
        intros [|k] Hk; cbn; [congruence|apply H3; lia].
Qed.

Lemma lastIndexOf_from_spec c s i found :
  (JS.lastIndexOf_from c s i found = found /\ forall k, String.get k s <> Some c)
  \/ (exists n, JS.lastIndexOf_from c s i found = i + Z.of_nat n
               /\ String.get n s = Some c
               /\ forall k, (n < k)%nat -> String.get k s <> Some c).
Proof.
  revert i found. induction s as [|d r IH]; intros i found; cbn [JS.lastIndexOf_from].
  - left. split; [reflexivity|]. intros k. destruct k; discriminate.
  - destruct (IH (i + 1) (if Ascii.eqb d c then i else found))
      as [[H1 H2]|(n & H1 & H2 & H3)].
    + destruct (Ascii.eqb d c) eqn:E.
      * apply Ascii.eqb_eq in E as ->. right. exists 0%nat.
        split; [lia|]. split; [reflexivity|].
        intros [|k] Hk; [lia|]. cbn. apply H2.
      * apply Ascii.eqb_neq in E. left. split; [exact H1|].
        intros [|k]; cbn; [congruence|apply H2].
    + right. exists (S n). split; [lia|]. split; [exact H2|].
      intros [|k] Hk; [lia|]. cbn. apply H3. lia.
Qed.

Lemma get_Some_lt k t c : String.get k t = Some c -> (k < String.length t)%nat.
Proof.
  revert k. induction t as [|d r IH]; intros [|k] H; cbn in *; try discriminate; try lia.
  apply IH in H. lia.
Qed.

Lemma is_opener_cases c : is_opener c = true <-> c = "{"%char \/ c = "["%char.
Proof.
  unfold is_opener. rewrite orb_true_iff, !Ascii.eqb_eq. reflexivity.
Qed.

Lemma is_closer_cases c : is_closer c = true <-> c = "}"%char \/ c = "]"%char.
Proof.
  unfold is_closer. rewrite orb_true_iff, !Ascii.eqb_eq. reflexivity.
Qed.

Lemma first_opener_spec t :
  (first_opener t = -1 /\ none_at is_opener t)
  \/ (exists n, first_opener t = Z.of_nat n /\ first_at is_opener t n).
Proof.
  unfold first_opener, JS.indexOf.
  destruct (indexOf_from_spec "{" t 0) as [[Ho Hno]|(no & Ho & Hgo & Hbo)];
    destruct (indexOf_from_spec "[" t 0) as [[Ha Hna]|(na & Ha & Hga & Hba)];
    rewrite Ho, Ha.
  - left. split; [reflexivity|].
    intros k (c & Hget & Hc). apply is_opener_cases in Hc as [->| ->];
      [exact (Hno k Hget)|exact (Hna k Hget)].
  - right. exists na. rewrite Z.eqb_refl. split; [lia|]. split.
    + exists "["%char. split; [exact Hga|reflexivity].
    + intros k Hk (c & Hget & Hc). apply is_opener_cases in Hc as [->| ->];
        [exact (Hno k Hget)|exact (Hba k Hk Hget)].
  - right. exists no.
    replace (0 + Z.of_nat no =? -1) with false by (symmetry; apply Z.eqb_neq; lia).
    rewrite Z.eqb_refl. split; [lia|]. split.
    + exists "{"%char. split; [exact Hgo|reflexivity].
    + intros k Hk (c & Hget & Hc). apply is_opener_cases in Hc as [->| ->];
        [exact (Hbo k Hk Hget)|exact (Hna k Hget)].
  - right.
    replace (0 + Z.of_nat no =? -1) with false by (symmetry; apply Z.eqb_neq; lia).
    replace (0 + Z.of_nat na =? -1) with false by (symmetry; apply Z.eqb_neq; lia).
    destruct (Nat.le_gt_cases no na) as [Hle|Hgt].
    + exists no. split; [lia|]. split.
      * exists "{"%char. split; [exact Hgo|reflexivity].
      * intros k Hk (c & Hget & Hc). apply is_opener_cases in Hc as [->| ->];
          [exact (Hbo k Hk Hget)|apply (Hba k); [lia|exact Hget]].
    + exists na. split; [lia|]. split.
      * exists "["%char. split; [exact Hga|reflexivity].
      * intros k Hk (c & Hget & Hc). apply is_opener_cases in Hc as [->| ->];
          [apply (Hbo k); [lia|exact Hget]|exact (Hba k Hk Hget)].
Qed.

Lemma last_closer_spec t :
  (last_closer t = -1 /\ none_at is_closer t)
  \/ (exists n, last_closer t = Z.of_nat n /\ last_at is_closer t n).
Proof.
  unfold last_closer, JS.lastIndexOf.
  destruct (lastIndexOf_from_spec "}" t 0 (-1)) as [[Ho Hno]|(no & Ho & Hgo & Hbo)];
    destruct (lastIndexOf_from_spec "]" t 0 (-1)) as [[Ha Hna]|(na & Ha & Hga & Hba)];
    rewrite Ho, Ha.
  - left. split; [reflexivity|].
    intros k (c & Hget & Hc). apply is_closer_cases in Hc as [->| ->];
      [exact (Hno k Hget)|exact (Hna k Hget)].
  - right. exists na. split; [lia|]. split.
    + exists "]"%char. split; [exact Hga|reflexivity].
    + intros k Hk (c & Hget & Hc). apply is_closer_cases in Hc as [->| ->];
        [exact (Hno k Hget)|exact (Hba k Hk Hget)].
  - right. exists no. split; [lia|]. split.
    + exists "}"%char. split; [exact Hgo|reflexivity].
    + intros k Hk (c & Hget & Hc). apply is_closer_cases in Hc as [->| ->];
        [exact (Hbo k Hk Hget)|exact (Hna k Hget)].
  - right. destruct (Nat.le_gt_cases no na) as [Hle|Hgt].
    + exists na. split; [lia|]. split.
      * exists "]"%char. split; [exact Hga|reflexivity].
      * intros k Hk (c & Hget & Hc). apply is_closer_cases in Hc as [->| ->];
          [apply (Hbo k); [lia|exact Hget]|exact (Hba k Hk Hget)].
    + exists no. split; [lia|]. split.
      * exists "}"%char. split; [exact Hgo|reflexivity].
      * intros k Hk (c & Hget & Hc). apply is_closer_cases in Hc as [->| ->];
          [exact (Hbo k Hk Hget)|apply (Hba k); [lia|exact Hget]].
Qed.

Lemma first_at_unique p t n m : first_at p t n -> first_at p t m -> n = m.
Proof.
  intros [Hn Hbn] [Hm Hbm]. destruct (Nat.lt_trichotomy n m) as [H|[H|H]].
  - exfalso. exact (Hbm n H Hn).
  - exact H.
  - exfalso. exact (Hbn m H Hm).
Qed.

Lemma char_at_lt p t k : char_at p t k -> (k < String.length t)%nat.
Proof. intros (c & Hget & _). eapply get_Some_lt, Hget. Qed.

Lemma slice_substring t (i j : nat) :
  (i < j)%nat -> (j < String.length t)%nat ->
  JS.slice t (Z.of_nat i) (Z.of_nat j + 1) = String.substring i (j - i + 1) t.
Proof.
  intros Hij Hj. unfold JS.slice, JS.clamp_index, JS.len.
  replace (Z.of_nat i <? 0) with false by (symmetry; apply Z.ltb_ge; lia).
  replace (Z.of_nat j + 1 <? 0) with false by (symmetry; apply Z.ltb_ge; lia).
  rewrite !Z.min_l by lia. rewrite Nat2Z.id. f_equal. lia.
Qed.

(** C8, as amended: when the whole trimmed text parses, [safeJsonParse]
    returns its value; when it does not, [safeJsonParse] raises
    "Model did not return JSON." if the text holds no opening brace or
    bracket, raises "Model returned malformed JSON." if no closing brace or
    bracket follows the first opening one, and otherwise returns or raises
    what JSON.parse does on the text from the first opening brace or bracket
    to the last closing brace or bracket. *)
Theorem safeJsonParse_first_opener_to_last_closer
    (JSON_parse : string -> Exn Json) (text : string) :
  (exists v, JSON_parse (JS.trim text) = Ok v
             /\ safeJsonParse JSON_parse text = Ok v)
  \/ (exists e, JSON_parse (JS.trim text) = Throw e
                /\ recovers JSON_parse (JS.trim text) (safeJsonParse JSON_parse text)).
Proof.
  unfold safeJsonParse. set (t := JS.trim text).
  destruct (JSON_parse t) as [v|e] eqn:Hparse; cbn [try_catch].
  - left. eauto.
  - right. exists e. split; [reflexivity|].
    destruct (first_opener_spec t) as [[Hs Hnone]|(i & Hs & Hfirst)]; rewrite Hs.
    + rewrite Z.eqb_refl. by apply recovers_no_opener.
    + replace (Z.of_nat i =? -1) with false by (symmetry; apply Z.eqb_neq; lia).
      destruct (last_closer_spec t) as [[He Hnoc]|(j & He & Hlast)]; rewrite He.
      * replace (-1 <=? Z.of_nat i) with true by (symmetry; apply Z.leb_le; lia).
        apply (recovers_no_closer_after _ _ i Hfirst). intros k _. apply Hnoc.
      * destruct (Z.of_nat j <=? Z.of_nat i) eqn:Hji.
        -- apply Z.leb_le in Hji.
           apply (recovers_no_closer_after _ _ i Hfirst).
           intros k Hk. apply (proj2 Hlast). lia.
        -- apply Z.leb_gt in Hji.
           rewrite slice_substring; [|lia|exact (char_at_lt _ _ _ (proj1 Hlast))].
           apply recovers_span; [exact Hfirst|exact Hlast|lia].
Qed.

(** The completion holds a balanced object that parses, and the text is
    not JSON as a whole; [safeJsonParse] reads from the first brace to the
    last one, which is not JSON either, and raises. *)
Lemma safeJsonParse_balanced_counterexample :
  JsonText.parse (JS.trim reply_with_note) = Throw SyntaxError
  /\ spec_first_balanced (JS.trim reply_with_note) = Some plan_text
  /\ JsonText.parse plan_text = Ok plan_json
  /\ spec_safeJsonParse JsonText.parse reply_with_note = Ok plan_json
  /\ safeJsonParse JsonText.parse reply_with_note = Throw SyntaxError.
Proof. repeat split; vm_compute; reflexivity. Qed.

(** A completion wrapped in prose, with one object: recovered. *)
Example safeJsonParse_wrapped :
  safeJsonParse JsonText.parse ("Here is the plan: " +:+ plan_text +:+ " Good luck.")
  = Ok plan_json.
Proof. vm_compute. reflexivity. Qed.

(** ** C3: the planner never raises *)

Lemma chat_json_fails JSON_parse completion :
  generation_fails JSON_parse completion ->
  exists e, chat_json JSON_parse completion PlanSchema_parse = Throw e.
Proof.
  intros [e|text e H|text raw e H1 H2]; unfold chat_json; cbn [bindE].
  - eauto.
  - rewrite H. cbn [bindE]. eauto.
  - rewrite H1. cbn [bindE]. rewrite H2. cbn [bindE]. eauto.
Qed.

Lemma fallback_plan_intents q :
  fallback_plan q = spec_fallback_plan q.
Proof. reflexivity. Qed.

(** C3, as amended: for every provider and every question, planQuery
    returns a plan and never raises; whenever the provider does not return
    a parsed plan (it throws, or returns no json), and in particular when
    the generation call fails or times out, when its text holds no JSON
    the recovery can parse, or when the JSON violates the Plan schema,
    planQuery returns exactly the plan with the 3 intents
    [q, "q primary source", "q overview"], must_include = [] and
    time_sensitivity = "none", where q is the question with the white space
    at both ends removed. *)
Theorem planQuery_never_raises_trimmed_fallback
    (llm : LLMChat RawPlan) (userQuestion : string) :
  (exists plan, planQuery llm userQuestion = Ok plan)
  /\ ((forall text json, llm PlanSchema_parse <> Ok (text, Some json)) ->
      planQuery llm userQuestion = Ok (spec_fallback_plan (JS.trim userQuestion)))
  /\ (forall JSON_parse completion,
        generation_fails JSON_parse completion ->
        planQuery (chat_json JSON_parse completion) userQuestion
        = Ok (spec_fallback_plan (JS.trim userQuestion))).
Proof.
  split; [|split].
  - unfold planQuery. destruct (llm PlanSchema_parse) as [[text [json|]]|e];
      cbn [bindE try_catch snd]; eauto.
  - intros Hno. unfold planQuery.
    destruct (llm PlanSchema_parse) as [[text [json|]]|e] eqn:E;
      cbn [bindE try_catch snd]; try reflexivity.
    exfalso. exact (Hno text json eq_refl).
  - intros JSON_parse completion Hfail.
    destruct (chat_json_fails _ _ Hfail) as [e He].
    unfold planQuery. rewrite He. reflexivity.
Qed.

(** The question " Who? " gives the fallback intents "Who?", ..., not
    " Who? ", ...: the fallback is built from the trimmed question. *)
Lemma planQuery_fallback_counterexample :
  planQuery llm_down " Who? "
  = Ok {| plan_intents := ["Who?"; "Who? primary source"; "Who? overview"];
          must_include := []; time_sensitivity := ts_none |}
  /\ planQuery llm_down " Who? " <> Ok (spec_fallback_plan " Who? ").
Proof. split; [vm_compute; reflexivity|vm_compute; discriminate]. Qed.

Example planQuery_valid_plan :
  planQuery (chat_json JsonText.parse (Ok ("Sure: " +:+ plan_text))) "solar power"
  = Ok {| plan_intents := ["solar power basics"; "solar power history"];
          must_include := []; time_sensitivity := ts_none |}.
Proof. vm_compute. reflexivity. Qed.

Example planQuery_schema_violation :
  planQuery (chat_json JsonText.parse (Ok ("{" +:+ quoted "intents" +:+ ":[" +:+ quoted "one" +:+ "]}")))
    "solar power"
  = Ok (spec_fallback_plan "solar power").
Proof. vm_compute. reflexivity. Qed.

(** ** The verifier: numbers *)

Lemma to_double_nonneg q : (0 <= q)%Q -> (0 <= to_double q)%Q.
Proof.
  intros Hq. unfold to_double.
  destruct (Z.abs (Qnum q) =? 0) eqn:Ha; [apply Qle_refl|].
  apply Z.eqb_neq in Ha.
  assert (Hnum : 0 < Qnum q).
  { unfold Qle in Hq. cbn in Hq. lia. }
  rewrite Qred_correct.
  set (a := Z.abs (Qnum q)). set (b := Zpos (Qden q)).
  set (k := if 0 <=? Z.log2 a - Z.log2 b
            then (if b * 2 ^ (Z.log2 a - Z.log2 b) <=? a
                  then Z.log2 a - Z.log2 b else Z.log2 a - Z.log2 b - 1)
            else (if b <=? a * 2 ^ (- (Z.log2 a - Z.log2 b))
                  then Z.log2 a - Z.log2 b else Z.log2 a - Z.log2 b - 1)).
  set (s := 52 - k).
  set (N := if 0 <=? s then a * 2 ^ s else a).
  set (D := if 0 <=? s then b else b * 2 ^ (- s)).
  assert (HN : 0 <= N).
  { unfold N. destruct (0 <=? s) eqn:Hs; [|lia].
    apply Z.leb_le in Hs. apply Z.mul_nonneg_nonneg; [lia|].
    apply Z.pow_nonneg. lia. }
  assert (HD : 0 < D).
  { unfold D. destruct (0 <=? s) eqn:Hs; [reflexivity|].
    apply Z.leb_gt in Hs. apply Z.mul_pos_pos; [reflexivity|].
    apply Z.pow_pos_nonneg; lia. }
  assert (Hm0 : 0 <= N / D) by (apply Z.div_pos; assumption).
  set (m := if (D <? 2 * (N mod D)) || ((2 * (N mod D) =? D) && Z.odd (N / D))
            then N / D + 1 else N / D).
  assert (Hm : 0 <= m) by (unfold m; destruct (_ || _); lia).
  assert (Hc : 0 < (if 0 <=? s then 1 else 2 ^ (- s))).
  { destruct (0 <=? s) eqn:Hs; [reflexivity|].
    apply Z.leb_gt in Hs. apply Z.pow_pos_nonneg; lia. }
  unfold Qle. cbn [Qnum Qden]. rewrite Z.sgn_pos by exact Hnum.
  rewrite Z.mul_1_l. cbn [Z.mul]. nia.
Qed.

Lemma min_one_le x : (min_one x <= 1)%Q.
Proof.
  unfold min_one. destruct (Qle_bool 1 x) eqn:E; [apply Qle_refl|].
  destruct (Qlt_le_dec x 1) as [H|H]; [by apply Qlt_le_weak|].
  apply Qle_bool_iff in H. congruence.
Qed.

Lemma min_one_nonneg x : (0 <= x)%Q -> (0 <= min_one x)%Q.
Proof.
  intros H. unfold min_one. destruct (Qle_bool 1 x); [discriminate|exact H].
Qed.

Lemma count_hits_ge ct dt hit : hit <= count_hits ct dt hit.
Proof.
  revert hit. induction dt as [|w r IH]; intros hit; cbn [count_hits]; [lia|].
  destruct (decide (w ∈ ct)); [etrans; [|apply IH]; lia|apply IH].
Qed.

(** The loop counts every occurrence in the chunk of a token of the claim. *)
Lemma count_hits_filter ct dt hit :
  count_hits ct dt hit = hit + Z.of_nat (length (filter (fun w => w ∈ ct) dt)).
Proof.
  revert hit. induction dt as [|w r IH]; intros hit; cbn [count_hits].
  - cbn. lia.
  - rewrite IH, filter_cons.
    destruct (decide (w ∈ ct)); cbn [length]; lia.
Qed.

Lemma div_counts_nonneg a b : 0 <= a -> (0 <= div_counts a b)%Q.
Proof.
  intros Ha. apply to_double_nonneg. unfold Qle. cbn. lia.
Qed.

Lemma overlapScore_range claim chunk :
  (0 <= overlapScore claim chunk <= 1)%Q.
Proof.
  unfold overlapScore.
  destruct ((size (list_to_set (normalizeTokens claim) : gset string) =? 0)%nat
            || (length (normalizeTokens chunk) =? 0)%nat).
  - split; [apply Qle_refl|discriminate].
  - split; [|apply min_one_le].
    apply min_one_nonneg, div_counts_nonneg.
    pose proof (count_hits_ge (list_to_set (normalizeTokens claim))
                  (normalizeTokens chunk) 0). lia.
Qed.

Lemma toFixed2_range x : (0 <= x <= 1)%Q -> (0 <= toFixed2 x <= 1)%Q.
Proof.
  intros [H0 H1]. unfold toFixed2.
  assert (Hd : 0 <= toFixed2_digits x <= 100).
  { unfold toFixed2_digits.
    assert (Hlo : Qfloor 0 <= Qfloor (x * 100 + (1 # 2)))
      by (apply Qfloor_resp_le; lra).
    assert (Hhi : Qfloor (x * 100 + (1 # 2)) <= Qfloor (100 + (1 # 2)))
      by (apply Qfloor_resp_le; lra).
    change (Qfloor 0) with 0 in Hlo.
    change (Qfloor (100 + (1 # 2))) with 100 in Hhi. lia. }
  set (n := toFixed2_digits x) in *.
  assert (Hall : forallb (fun n => Qle_bool 0 (to_double (n # 100))
                                   && Qle_bool (to_double (n # 100)) 1)
                         (seqZ 0 101) = true) by (vm_compute; reflexivity).
  rewrite forallb_forall in Hall.
  assert (Hin : In n (seqZ 0 101)).
  { apply list_elem_of_In, elem_of_seqZ. lia. }
  apply Hall, andb_true_iff in Hin as [Ha Hb].
  split; by apply Qle_bool_iff.
Qed.

(** ** The verifier: the best score *)

Lemma best_chunk_max claim chunks b :
  is_max (best_score (best_chunk claim chunks b))
         (best_score b :: (overlapScore claim <$> chunks)).
Proof.
  revert b. induction chunks as [|chunk rest IH]; intros b; cbn [best_chunk fmap list_fmap].
  - split; [by left|]. apply Forall_singleton, Qle_refl.
  - set (sc := overlapScore claim chunk).
    set (b' := if negb (Qle_bool sc (best_score b))
               then {| best_snippet := JS.slice chunk 0 280; best_score := sc |}
               else b).
    destruct (IH b') as [Hin Hall].
    apply Forall_cons in Hall as [Hb' Hall].
    assert (Hb : (best_score b <= best_score b')%Q /\ (sc <= best_score b')%Q
                 /\ (best_score b' = best_score b \/ best_score b' = sc)).
    { unfold b'. destruct (Qle_bool sc (best_score b)) eqn:E; cbn [negb best_score].
      - apply Qle_bool_iff in E. repeat split; [apply Qle_refl|exact E|by left].
      - repeat split; [|apply Qle_refl|by right].
        destruct (Qlt_le_dec (best_score b) sc) as [H|H]; [by apply Qlt_le_weak|].
        apply Qle_bool_iff in H. congruence. }
    destruct Hb as (Hb1 & Hb2 & Hb3). split.
    + apply elem_of_cons in Hin as [Hin|Hin].
      * rewrite Hin. destruct Hb3 as [-> | ->]; [by left|right; by left].
      * right. by right.
    + repeat apply Forall_cons_2; try exact Hall.
      * eapply Qle_trans; [exact Hb1|exact Hb'].
      * eapply Qle_trans; [exact Hb2|exact Hb'].
Qed.

Lemma source_best_max claim chunks :
  is_max (source_best claim chunks) (0%Q :: (overlapScore claim <$> chunks)).
Proof. apply (best_chunk_max claim chunks {| best_snippet := EmptyString; best_score := 0 |}). Qed.

Lemma source_best_range claim chunks :
  (0 <= source_best claim chunks <= 1)%Q.
Proof.
  destruct (source_best_max claim chunks) as [Hin Hall].
  apply Forall_cons in Hall as [H0 _]. split; [exact H0|].
  apply elem_of_cons in Hin as [-> |Hin]; [discriminate|].
  apply list_elem_of_fmap in Hin as (chunk & -> & _).
  apply overlapScore_range.
Qed.

Lemma score_sources_scores claim scs acc :
  ev_score <$> score_sources claim scs acc
  = (ev_score <$> acc)
    ++ filter (fun b => positive b = true) ((fun sc => source_best claim sc.2) <$> scs).
Proof.
  revert acc. induction scs as [|[u chunks] rest IH]; intros acc; cbn [score_sources].
  - rewrite fmap_nil, filter_nil, app_nil_r. reflexivity.
  - rewrite IH, fmap_cons, filter_cons. cbn [snd].
    fold (source_best claim chunks). fold (positive (source_best claim chunks)).
    destruct (positive (source_best claim chunks)) eqn:E.
    + rewrite decide_True by reflexivity.
      rewrite fmap_app, <- app_assoc. reflexivity.
    + rewrite decide_False by discriminate. reflexivity.
Qed.

Lemma insert_desc_elem x l y : y ∈ insert_desc x l <-> y = x \/ y ∈ l.
Proof.
  induction l as [|z r IH]; cbn [insert_desc].
  - rewrite list_elem_of_singleton, elem_of_nil. tauto.
  - destruct (Qle_bool (ev_score z) (ev_score x)).
    + rewrite elem_of_cons. tauto.
    + rewrite !elem_of_cons, IH. tauto.
Qed.

Lemma insert_desc_head_max x l : head_max l -> head_max (insert_desc x l).
Proof.
  destruct l as [|z r]; cbn [insert_desc head_max]; [constructor|].
  intros Hr. destruct (Qle_bool (ev_score z) (ev_score x)) eqn:E.
  - apply Qle_bool_iff in E. cbn [head_max]. apply Forall_cons. split; [exact E|].
    eapply Forall_impl; [exact Hr|]. intros y Hy. cbn in Hy. eapply Qle_trans; eassumption.
  - cbn [head_max]. apply Forall_forall. intros y Hy.
    apply insert_desc_elem in Hy as [-> |Hy].
    + destruct (Qlt_le_dec (ev_score x) (ev_score z)) as [H|H]; [by apply Qlt_le_weak|].
      apply Qle_bool_iff in H. congruence.
    + rewrite Forall_forall in Hr. by apply Hr.
Qed.

Lemma sort_desc_elem l y : y ∈ sort_desc l <-> y ∈ l.
Proof.
  induction l as [|x r IH]; cbn [sort_desc foldr]; [reflexivity|].
  fold (sort_desc r). rewrite insert_desc_elem, IH, elem_of_cons. reflexivity.
Qed.

Lemma sort_desc_head_max l : head_max (sort_desc l).
Proof.
  induction l as [|x r IH]; cbn [sort_desc foldr]; [exact I|].
  by apply insert_desc_head_max.
Qed.

Lemma positive_false b : positive b = false -> (b <= 0)%Q.
Proof.
  unfold positive. intros H. apply negb_false_iff in H. by apply Qle_bool_iff.
Qed.

Lemma positive_true b : positive b = true -> (0 < b)%Q.
Proof.
  unfold positive. intros H. apply negb_true_iff in H.
  destruct (Qlt_le_dec 0 b) as [Hlt|Hle]; [exact Hlt|].
  apply Qle_bool_iff in Hle. congruence.
Qed.

(** The score [verifyClaims] rounds and labels is the greatest of the
    per-source best scores, or 0. *)
Lemma top_score_max claim (scs : list (string * list string)) :
  let evidenceScored := sort_desc (score_sources claim scs []) in
  let top := JS.slice_list evidenceScored 0 3 in
  let maxScore := match top with e :: _ => ev_score e | [] => 0%Q end in
  is_max maxScore (0%Q :: ((fun sc => source_best claim sc.2) <$> scs))
  /\ (length top <= 3)%nat.
Proof.
  cbn zeta. rewrite slice_list_prefix by lia. change (Z.to_nat 3) with 3%nat.
  set (bests := (fun sc => source_best claim sc.2) <$> scs).
  pose proof (score_sources_scores claim scs []) as Hsc.
  rewrite fmap_nil, app_nil_l in Hsc. fold bests in Hsc.
  pose proof (sort_desc_head_max (score_sources claim scs [])) as Hhead.
  assert (Hmem : forall y, y ∈ sort_desc (score_sources claim scs [])
                           -> ev_score y ∈ filter (fun b => positive b = true) bests).
  { intros y Hy. apply (proj1 (sort_desc_elem _ _)) in Hy. rewrite <- Hsc.
    apply list_elem_of_fmap. exists y. split; [reflexivity|exact Hy]. }
  assert (Hbests : Forall (fun b => (0 <= b)%Q) bests).
  { apply Forall_forall. intros b Hb. apply list_elem_of_fmap in Hb as ([u ch] & -> & _).
    apply source_best_range. }
  split; [|rewrite length_take; lia].
  destruct (sort_desc (score_sources claim scs [])) as [|e r] eqn:Hsorted; cbn [take].
  - (* no source scored: every best is 0 or less *)
    split; [by left|]. apply Forall_cons. split; [apply Qle_refl|].
    apply Forall_forall. intros b Hb.
    destruct (positive b) eqn:E; [|by apply positive_false].
    exfalso.
    assert (Hin : b ∈ ev_score <$> score_sources claim scs []).
    { rewrite Hsc. apply list_elem_of_filter. split; [exact E|exact Hb]. }
    apply list_elem_of_fmap in Hin as (y & _ & Hy).
    apply (proj2 (sort_desc_elem _ _)) in Hy. rewrite Hsorted in Hy.
    by apply elem_of_nil in Hy.
  - pose proof (Hmem e ltac:(by left)) as He.
    apply list_elem_of_filter in He as [Hpos He]. apply positive_true in Hpos.
    split; [by right|]. apply Forall_cons. split; [by apply Qlt_le_weak|].
    apply Forall_forall. intros b Hb.
    destruct (positive b) eqn:E.
    + assert (Hin : b ∈ ev_score <$> score_sources claim scs []).
      { rewrite Hsc. apply list_elem_of_filter. split; [exact E|exact Hb]. }
      apply list_elem_of_fmap in Hin as (y & -> & Hy).
      apply (proj2 (sort_desc_elem _ _)) in Hy. rewrite Hsorted in Hy.
      apply elem_of_cons in Hy as [-> |Hy]; [apply Qle_refl|].
      cbn [head_max] in Hhead. rewrite Forall_forall in Hhead. by apply Hhead.
    + apply positive_false in E. eapply Qle_trans; [exact E|by apply Qlt_le_weak].
Qed.

Lemma is_max_range m L :
  is_max m L -> Forall (fun x => (0 <= x <= 1)%Q) L -> (0 <= m <= 1)%Q.
Proof.
  intros [Hin _] Hall. rewrite Forall_forall in Hall. by apply Hall.
Qed.

Lemma per_source_best_range claim sources :
  Forall (fun x => (0 <= x <= 1)%Q) (0%Q :: per_source_best claim sources).
Proof.
  apply Forall_cons. split; [split; [apply Qle_refl|discriminate]|].
  apply Forall_forall. intros b Hb. apply list_elem_of_fmap in Hb as (s & -> & _).
  apply source_best_range.
Qed.

(** Each record of [verifyClaims]: its claim, and the score it rounds and
    labels. *)
Lemma verifyClaims_records createId claims sources :
  Forall (fun r =>
            exists m, is_max m (0%Q :: per_source_best (claim r) sources)
                      /\ score r = toFixed2 m
                      /\ label r = labelFromScore m
                      /\ (length (evidence r) <= 3)%nat)
         (verifyClaims createId claims sources).
Proof.
  apply Forall_forall. intros r Hr. unfold verifyClaims in Hr.
  apply elem_of_lookup_imap in Hr as (k & c & -> & _).
  destruct (top_score_max c ((fun s => (url s, chunkText (text s))) <$> sources))
    as [Hmax Hlen].
  cbn zeta in Hmax, Hlen. eexists. split; [|split; [reflexivity|split; [reflexivity|]]].
  - cbn [claim verify_one]. unfold per_source_best.
    rewrite <- list_fmap_compose in Hmax. exact Hmax.
  - cbn [evidence verify_one]. rewrite length_fmap. exact Hlen.
Qed.

(** ** C4: the overlap score *)

Lemma string_all_app p s1 s2 :
  string_all p s1 -> string_all p s2 -> string_all p (s1 +:+ s2).
Proof.
  unfold string_all. induction s1 as [|c r IH]; cbn; [tauto|].
  intros H1 H2. apply Forall_cons in H1 as [Hc Hr].
  apply Forall_cons. split; [exact Hc|by apply IH].
Qed.

Lemma split_ws_go_pieces p s cur in_sep :
  string_all (fun c => p c || JS.is_space c) s ->
  string_all p cur ->
  Forall (string_all p) (JS.split_ws_go s cur in_sep).
Proof.
  revert cur in_sep. induction s as [|c r IH]; intros cur in_sep Hs Hcur; cbn [JS.split_ws_go].
  - by apply Forall_singleton.
  - unfold string_all in Hs. cbn in Hs. apply Forall_cons in Hs as [Hc Hr].
    destruct (JS.is_space c) eqn:Esp.
    + destruct in_sep.
      * by apply IH.
      * apply Forall_cons. split; [exact Hcur|]. apply IH; [exact Hr|constructor].
    + apply IH; [exact Hr|]. apply string_all_app; [exact Hcur|].
      apply Forall_singleton. rewrite orb_false_r in Hc. exact Hc.
Qed.

Lemma replace_non_token_chars s :
  string_all (fun c => JS.is_alnum_lower c || JS.is_space c) (JS.replace_non_token s).
Proof.
  unfold string_all. induction s as [|c r IH]; cbn; [constructor|].
  apply Forall_cons. split; [|exact IH].
  destruct (JS.is_alnum_lower c || JS.is_space c) eqn:E; [exact E|reflexivity].
Qed.

(** Every token has 4 characters or more, all of them in [a-z0-9]. *)
Lemma normalizeTokens_tokens s :
  Forall (fun t => 4 <= JS.len t /\ string_all JS.is_alnum_lower t) (normalizeTokens s).
Proof.
  unfold normalizeTokens. apply Forall_forall. intros t Ht.
  apply list_elem_of_filter in Ht as [Hlen Ht]. split; [exact Hlen|].
  pose proof (split_ws_go_pieces JS.is_alnum_lower
                (JS.replace_non_token (JS.toLowerCase s)) EmptyString false
                (replace_non_token_chars _) ltac:(constructor)) as H.
  rewrite Forall_forall in H. by apply H.
Qed.

Lemma div_counts_zero n : div_counts 0 n = 0%Q.
Proof. reflexivity. Qed.

(** C4, as amended: for every claim string and chunk string, the overlap
    score is hits / max(8, |claim_token_set|) clamped to 1, where hits is
    the number of tokens of the chunk, each occurrence counted, that belong
    to the set of claim tokens, and where tokenization lower-cases the text,
    replaces every character outside [a-z0-9] and white space by a space,
    splits on white space and discards the tokens shorter than 4 characters
    (so every token has 4 characters or more, all in [a-z0-9]); repeated
    occurrences of a claim token in a chunk do increase the score. *)
Theorem overlapScore_counts_occurrences (claim chunk : string) :
  overlapScore claim chunk
  = min_one (div_counts
               (Z.of_nat (length (filter
                  (fun w => w ∈ (list_to_set (normalizeTokens claim) : gset string))
                  (normalizeTokens chunk))))
               (Z.max 8 (Z.of_nat (size (list_to_set (normalizeTokens claim) : gset string)))))
  /\ Forall (fun t => 4 <= JS.len t /\ string_all JS.is_alnum_lower t)
            (normalizeTokens claim ++ normalizeTokens chunk)
  /\ (0 <= overlapScore claim chunk <= 1)%Q.
Proof.
  split; [|split].
  - unfold overlapScore.
    set (ct := list_to_set (normalizeTokens claim) : gset string).
    set (dt := normalizeTokens chunk).
    destruct (size ct =? 0)%nat eqn:Hct; cbn [orb].
    + apply Nat.eqb_eq in Hct. apply size_empty_inv in Hct.
      assert (Hnone : filter (fun w => w ∈ ct) dt = []).
      { clearbody dt. induction dt as [|w r IHr]; [reflexivity|].
        rewrite filter_cons. destruct (decide (w ∈ ct)) as [Hin|_]; [|exact IHr].
        exfalso. rewrite (Hct w) in Hin. by apply elem_of_empty in Hin. }
      rewrite Hnone. reflexivity.
    + destruct (length dt =? 0)%nat eqn:Hdt.
      * apply Nat.eqb_eq, nil_length_inv in Hdt. rewrite Hdt. reflexivity.
      * rewrite count_hits_filter. reflexivity.
  - apply Forall_app. split; apply normalizeTokens_tokens.
  - apply overlapScore_range.
Qed.

(** The claim's three tokens are a set of size 3; the chunk repeats one of
    them three times: the code scores 3/8, the intersection of sets 1/8. *)
Lemma overlapScore_repeats_counterexample :
  overlapScore "solar panel efficiency" "Solar, solar, SOLAR!" = (3 # 8)%Q
  /\ overlapScore "solar panel efficiency" "Solar." = (1 # 8)%Q
  /\ spec_overlapScore "solar panel efficiency" "Solar, solar, SOLAR!" = (1 # 8)%Q.
Proof. repeat split; vm_compute; reflexivity. Qed.

(** ** C5 and C10: score and label of a record *)

Lemma Qle_bool_false a b : Qle_bool a b = false -> (b < a)%Q.
Proof.
  intros H. destruct (Qlt_le_dec b a) as [Hlt|Hle]; [exact Hlt|].
  apply Qle_bool_iff in Hle. congruence.
Qed.

(** The three bands of [labelFromScore], lower bounds included. *)
Lemma labelFromScore_bands m :
  match labelFromScore m with
  | supported => (lit_075 <= m)%Q
  | weak => (lit_045 <= m)%Q /\ (m < lit_075)%Q
  | unsupported => (m < lit_045)%Q
  end.
Proof.
  unfold labelFromScore.
  destruct (Qle_bool lit_075 m) eqn:E1.
  - by apply Qle_bool_iff.
  - apply Qle_bool_false in E1.
    destruct (Qle_bool lit_045 m) eqn:E2.
    + split; [by apply Qle_bool_iff|exact E1].
    + by apply Qle_bool_false.
Qed.

Lemma lit_045_lt_075 : (lit_045 < lit_075)%Q.
Proof. reflexivity. Qed.

Lemma labelFromScore_iff m :
  (labelFromScore m = supported <-> (lit_075 <= m)%Q)
  /\ (labelFromScore m = weak <-> (lit_045 <= m)%Q /\ (m < lit_075)%Q)
  /\ (labelFromScore m = unsupported <-> (m < lit_045)%Q).
Proof.
  pose proof (labelFromScore_bands m) as H.
  pose proof lit_045_lt_075 as Hlt.
  revert H Hlt. generalize (labelFromScore m) as l.
  generalize lit_045 as a, lit_075 as b. intros a b l H Hlt.
  destruct l; repeat split; intros; try discriminate;
    try tauto; exfalso; lra.
Qed.

(** C5, as amended: for every claim record returned by verifyClaims, its
    score lies in [0,1] and is the unrounded best score m (the maximum of
    the per-source best overlaps, 0 when there is none, itself in [0,1])
    rounded to two decimals; its label is determined by m, not by the
    rounded score, with inclusive lower bounds: m >= 0.75 yields
    "supported", 0.45 <= m < 0.75 yields "weak" and m < 0.45 yields
    "unsupported". *)
Theorem verifyClaims_score_range_and_label
    (createId : nat -> string) (claims : list string) (sources : list EvidenceSource) :
  Forall (fun r =>
            (0 <= score r <= 1)%Q
            /\ exists m,
                 is_max m (0%Q :: per_source_best (claim r) sources)
                 /\ (0 <= m <= 1)%Q
                 /\ score r = toFixed2 m
                 /\ (label r = supported <-> (lit_075 <= m)%Q)
                 /\ (label r = weak <-> (lit_045 <= m)%Q /\ (m < lit_075)%Q)
                 /\ (label r = unsupported <-> (m < lit_045)%Q))
         (verifyClaims createId claims sources).
Proof.
  eapply Forall_impl; [apply verifyClaims_records|].
  intros r (m & Hmax & Hscore & Hlabel & _). cbn beta.
  assert (Hm : (0 <= m <= 1)%Q)
    by (eapply is_max_range; [exact Hmax|apply per_source_best_range]).
  split.
  - rewrite Hscore. by apply toFixed2_range.
  - exists m. rewrite Hlabel.
    destruct (labelFromScore_iff m) as (H1 & H2 & H3).
    split; [exact Hmax|]. split; [exact Hm|]. split; [exact Hscore|].
    split; [exact H1|]. split; [exact H2|exact H3].
Qed.

(** A claim of 51 tokens and a source with 38 of them: the best score is
    38/51 = 0.745..., below 0.75, so the label is "weak"; the record
    reports the score 0.75, which [labelFromScore] calls "supported". *)
Lemma verifyClaims_label_counterexample :
  verifyClaims ids [toks 51] [source_with (toks 38)]
  = [{| id := "id0"; claim := toks 51; label := weak; score := lit_075;
        evidence := [("https://a.com/x", toks 38)] |}]
  /\ per_source_best (toks 51) [source_with (toks 38)] = [div_counts 38 51]
  /\ (div_counts 38 51 < lit_075)%Q
  /\ labelFromScore lit_075 = supported.
Proof.
  split; [vm_compute; reflexivity|].
  split; [vm_compute; reflexivity|].
  split; vm_compute; reflexivity.
Qed.

(** C10: for every claim record returned by verifyClaims, the reported
    score is the unrounded maximum of the per-source best overlaps (0 when
    there is none) rounded to two decimals, and the label is computed from
    the unrounded maximum; there are inputs where the reported score and the
    reported label fall in different bands: an unrounded maximum of
    13/29 = 0.448... gives the score 0.45 with the label "unsupported",
    although 0.45 itself is labelled "weak". *)
Theorem verifyClaims_rounds_score_labels_unrounded
    (createId : nat -> string) (claims : list string) (sources : list EvidenceSource) :
  Forall (fun r =>
            exists m,
              is_max m (0%Q :: per_source_best (claim r) sources)
              /\ score r = toFixed2 m
              /\ label r = labelFromScore m)
         (verifyClaims createId claims sources)
  /\ (exists claim0 source0 r,
        verifyClaims createId [claim0] [source0] = [r]
        /\ per_source_best claim0 [source0] = [div_counts 13 29]
        /\ (div_counts 13 29 < lit_045)%Q
        /\ score r = lit_045
        /\ label r = unsupported
        /\ labelFromScore (score r) = weak).
Proof.
  split.
  - eapply Forall_impl; [apply verifyClaims_records|].
    intros r (m & Hmax & Hscore & Hlabel & _). eauto.
  - exists (toks 29), (source_with (toks 13)),
      {| id := createId 0%nat; claim := toks 29; label := unsupported;
         score := lit_045;
         evidence := [("https://a.com/x", JS.slice (toks 13) 0 280)] |}.
    split; [vm_compute; reflexivity|].
    split; [vm_compute; reflexivity|].
    split; [vm_compute; reflexivity|].
    split; [reflexivity|].
    split; [reflexivity|].
    vm_compute; reflexivity.
Qed.

(** ** C6: stop conditions and tasks in flight *)

Lemma total_chars_from (l : list EvidenceSource) (a : Z) :
  foldl (fun a s => a + JS.len (text s)) a l = a + total_chars l.
Proof.
  unfold total_chars. revert a. induction l as [|s r IH]; intros a; cbn [foldl]; [lia|].
  rewrite (IH (a + _)), (IH (0 + _)). lia.
Qed.

Lemma total_chars_app l k : total_chars (l ++ k) = total_chars l + total_chars k.
Proof.
  unfold total_chars at 1. rewrite foldl_app. fold (total_chars l).
  apply total_chars_from.
Qed.

Lemma total_chars_nonneg l : 0 <= total_chars l.
Proof.
  induction l as [|s r IH] using rev_ind; [reflexivity|].
  rewrite total_chars_app. unfold total_chars at 2. cbn [foldl]. unfold JS.len. lia.
Qed.

(** The sufficiency predicate stays true when evidence is appended. *)
Lemma enoughEvidence_mono opts l k :
  enoughEvidence opts l = true -> enoughEvidence opts (l ++ k) = true.
Proof.
  unfold enoughEvidence. rewrite length_app, total_chars_app.
  pose proof (total_chars_nonneg k).
  destruct (maxSources opts <=? Z.of_nat (length l)) eqn:E1.
  - intros _. apply Z.leb_le in E1.
    replace (maxSources opts <=? Z.of_nat (length l + length k)) with true
      by (symmetry; apply Z.leb_le; lia). reflexivity.
  - intros H2. apply andb_true_iff in H2 as [Ha Hb].
    apply Z.leb_le in Ha, Hb.
    destruct (maxSources opts <=? Z.of_nat (length l + length k)); [reflexivity|].
    apply andb_true_iff. split; apply Z.leb_le; lia.
Qed.

Section PoolInvariants.

Variable hostname : string -> Exn string.
Variable tasks : list Selected.
Variable opts : ResearchOptions.
Variable deadline : Z.

Lemma stopped_extend p l :
  stopped opts deadline p ->
  forall p', clock p <= clock p' -> sources p' = sources p ++ l ->
  stopped opts deadline p'.
Proof.
  intros [Hd|He] p' Hc Hs; [left; lia|right].
  rewrite Hs. by apply enoughEvidence_mono.
Qed.

Lemma extends_refl p : extends opts deadline p p.
Proof.
  repeat split; try reflexivity; tauto.
Qed.

Lemma extends_trans p q r : extends opts deadline p q -> extends opts deadline q r -> extends opts deadline p r.
Proof.
  intros (H1 & H2 & H3 & H4 & H5) (K1 & K2 & K3 & K4 & K5).
  split; [lia|]. split; [by etrans|]. split; [by etrans|]. split; [lia|].
  intros Hs. destruct (H5 Hs) as [Hi Hs']. destruct (K5 Hs') as [Ki Hs''].
  split; [congruence|exact Hs''].
Qed.

Lemma exec_extends ev p p' :
  exec hostname tasks opts deadline ev p = Some p' -> extends opts deadline p p'.
Proof.
  unfold exec. destruct (event_time ev <? clock p) eqn:Hclock; [discriminate|].
  apply Z.ltb_ge in Hclock.
  assert (Hstop : forall q l tr,
            clock q = event_time ev -> sources q = sources p ++ l ->
            trace q = trace p ++ tr -> idx q = idx p -> extends opts deadline p q).
  { intros q l tr Hc Hs Ht Hi. split; [lia|]. split; [by exists l|].
    split; [by exists tr|]. split; [lia|]. intros Hst.
    split; [exact Hi|]. eapply stopped_extend; [exact Hst|lia|exact Hs]. }
  destruct ev as [w now|w page now|w doc now]; cbn [event_time] in *;
    cbn [tick workers]; destruct (workers p !! w) as [[|cur|cur|]|]; try discriminate;
    intros H; injection H as <-.
  - (* the loop head *)
    unfold run_head. cbn [idx sources tick].
    destruct (tasks !! idx p) as [cur|];
      [|by apply (Hstop _ [] []); cbn; rewrite ?app_nil_r].
    destruct (deadline <? now) eqn:Hd;
      [by apply (Hstop _ [] []); cbn; rewrite ?app_nil_r|].
    destruct (enoughEvidence opts (sources p)) eqn:He;
      [by apply (Hstop _ [] []); cbn; rewrite ?app_nil_r|].
    apply Z.ltb_ge in Hd.
    split; [cbn; lia|]. split; [reflexivity|]. split; [reflexivity|].
    split; [cbn; lia|]. intros [Hst|Hst]; [lia|congruence].
  - (* the page *)
    unfold run_fetched. cbn [idx sources trace clock workers tick].
    repeat match goal with
           | |- context [if ?b then _ else _] => destruct b
           end;
      by apply (Hstop _ [] [TrFetch (sel_url cur) (status page)]); cbn; rewrite ?app_nil_r.
  - (* the document *)
    unfold run_extracted. destruct doc as [d|e];
      [|by apply (Hstop _ [] []); cbn; rewrite ?app_nil_r].
    destruct ((doc_text d =? "")%string || (JS.len (doc_text d) <? 300));
      [by apply (Hstop _ [] []); cbn; rewrite ?app_nil_r|].
    destruct (domainOf hostname (sel_url cur)) as [dom|e];
      [|by apply (Hstop _ [] []); cbn; rewrite ?app_nil_r].
    eapply (Hstop _ [_] []); cbn; rewrite ?app_nil_r; reflexivity.
Qed.

Lemma run_events_extends evs p p' :
  run_events hostname tasks opts deadline evs p = Some p' -> extends opts deadline p p'.
Proof.
  revert p. induction evs as [|ev evs IH]; intros p; cbn [run_events].
  - intros H. injection H as <-. apply extends_refl.
  - destruct (exec hostname tasks opts deadline ev p) as [q|] eqn:Hq; [|discriminate].
    intros H. eapply extends_trans; [eapply exec_extends, Hq|by apply IH].
Qed.

End PoolInvariants.

Lemma lookup_set_worker w st p old :
  workers p !! w = Some old -> workers (set_worker w st p) !! w = Some st.
Proof.
  intros H. cbn [set_worker workers]. apply list_lookup_insert_eq.
  eapply lookup_lt_Some, H.
Qed.

(** A worker that reaches the loop head when the clock is past the
    deadline, or when the evidence is sufficient, takes no task and
    returns. *)
Lemma head_when_stopped hostname tasks opts deadline p w now q :
  deadline < now \/ enoughEvidence opts (sources p) = true ->
  exec hostname tasks opts deadline (EvHead w now) p = Some q ->
  idx q = idx p /\ sources q = sources p /\ workers q !! w = Some Returned.
Proof.
  intros Hstop. unfold exec. cbn [event_time].
  destruct (now <? clock p); [discriminate|]. cbn [tick workers].
  destruct (workers p !! w) as [[| | |]|] eqn:Hw; try discriminate.
  intros H. injection H as <-. unfold run_head. cbn [idx sources tick].
  assert (Hret : forall p0, workers p0 = workers p ->
            workers (set_worker w Returned p0) !! w = Some Returned).
  { intros p0 Hp0. eapply lookup_set_worker. rewrite Hp0. exact Hw. }
  destruct (tasks !! idx p) as [cur|]; [|by repeat split; apply Hret].
  destruct (deadline <? now) eqn:Hd; [by repeat split; apply Hret|].
  destruct (enoughEvidence opts (sources p)) eqn:He; [by repeat split; apply Hret|].
  apply Z.ltb_ge in Hd. destruct Hstop as [Hs|Hs]; [lia|discriminate].
Qed.

(** A fetch in flight is never cancelled: whenever it resolves, the event
    is taken and traced.  The page is dropped when the clock has passed the
    deadline by then; otherwise a usable page goes on to extraction. *)
Lemma fetch_in_flight_resolves hostname tasks opts deadline p w cur page now :
  workers p !! w = Some (AwaitFetch cur) ->
  clock p <= now ->
  exists q,
    exec hostname tasks opts deadline (EvFetched w page now) p = Some q
    /\ trace q = trace p ++ [TrFetch (sel_url cur) (status page)]
    /\ sources q = sources p
    /\ workers q !! w =
         Some (if deadline <? now then Returned
               else if page_usable page then AwaitExtract cur else AtHead).
Proof.
  intros Hw Hnow. unfold exec. cbn [event_time].
  replace (now <? clock p) with false by (symmetry; apply Z.ltb_ge; lia).
  cbn [tick workers]. rewrite Hw. eexists. split; [reflexivity|].
  unfold run_fetched, page_usable. cbn [idx sources trace clock workers].
  destruct (deadline <? now);
    [repeat split; eapply lookup_set_worker; cbn; exact Hw|].
  destruct ((status page <? 200) || (300 <=? status page)); cbn [negb andb];
    [repeat split; eapply lookup_set_worker; cbn; exact Hw|].
  destruct (JS.includes (JS.toLowerCase (contentType page)) "text/html"); cbn [negb andb];
    [|repeat split; eapply lookup_set_worker; cbn; exact Hw].
  destruct (html page =? "")%string; cbn [negb];
    repeat split; eapply lookup_set_worker; cbn; exact Hw.
Qed.

(** An extraction in flight is never cancelled either: a usable document
    is appended to the collection, whatever the clock and the collection
    are by then. *)
Lemma extraction_in_flight_appends hostname tasks opts deadline p w cur d dom now :
  workers p !! w = Some (AwaitExtract cur) ->
  clock p <= now ->
  doc_usable d = true ->
  domainOf hostname (sel_url cur) = Ok dom ->
  exists q,
    exec hostname tasks opts deadline (EvExtracted w (Ok d) now) p = Some q
    /\ sources q = sources p ++ [source_of cur d dom]
    /\ workers q !! w = Some AtHead.
Proof.
  intros Hw Hnow Hd Hdom. unfold exec. cbn [event_time].
  replace (now <? clock p) with false by (symmetry; apply Z.ltb_ge; lia).
  cbn [tick workers]. rewrite Hw. eexists. split; [reflexivity|].
  unfold run_extracted, doc_usable in *. apply negb_true_iff in Hd. rewrite Hd, Hdom.
  split; [reflexivity|]. eapply lookup_set_worker. cbn. exact Hw.
Qed.

(** C6, as amended: in the fetch phase, once a reading of the clock has
    passed the deadline (start + budgetMs) or the sufficiency predicate
    holds, no worker takes a new task (a worker that reaches the loop head
    returns), and the stop condition keeps holding; what was collected
    before stays in the collection, in order;
    a task taken before is not cancelled: its fetch resolves and is traced,
    its page is dropped only if the clock has passed the deadline when the
    fetch resolves, and a usable document that its extraction delivers is
    appended to the collection even though a stop condition holds.  (The
    result is that collection deduplicated and cut to maxSources.) *)
Theorem stop_ends_dispatch_in_flight_tasks_finish
    (hostname : string -> Exn string) (tasks : list Selected)
    (opts : ResearchOptions) (deadline : Z) (p p' : Pool) (evs : list Event) :
  run_events hostname tasks opts deadline evs p = Some p' ->
  stopped opts deadline p ->
  idx p' = idx p
  /\ stopped opts deadline p'
  /\ sources p `prefix_of` sources p'
  /\ (forall w now q,
        exec hostname tasks opts deadline (EvHead w now) p' = Some q ->
        idx q = idx p' /\ sources q = sources p' /\ workers q !! w = Some Returned)
  /\ (forall w cur page now,
        workers p' !! w = Some (AwaitFetch cur) -> clock p' <= now ->
        exists q,
          exec hostname tasks opts deadline (EvFetched w page now) p' = Some q
          /\ trace q = trace p' ++ [TrFetch (sel_url cur) (status page)]
          /\ sources q = sources p'
          /\ workers q !! w =
               Some (if deadline <? now then Returned
                     else if page_usable page then AwaitExtract cur else AtHead))
  /\ (forall w cur d dom now,
        workers p' !! w = Some (AwaitExtract cur) -> clock p' <= now ->
        doc_usable d = true -> domainOf hostname (sel_url cur) = Ok dom ->
        exists q,
          exec hostname tasks opts deadline (EvExtracted w (Ok d) now) p' = Some q
          /\ sources q = sources p' ++ [source_of cur d dom]
          /\ workers q !! w = Some AtHead).
Proof.
  intros Hrun Hstop.
  destruct (run_events_extends _ _ _ _ _ _ _ Hrun) as (_ & Hsrc & _ & _ & Hidx).
  destruct (Hidx Hstop) as [Hi Hs].
  split; [exact Hi|]. split; [exact Hs|]. split; [exact Hsrc|]. split; [|split].
  - intros w now q Hq.
    assert (Hnow : clock p' <= now).
    { unfold exec in Hq. cbn [event_time] in Hq.
      destruct (now <? clock p') eqn:E; [discriminate|]. by apply Z.ltb_ge in E. }
    eapply head_when_stopped; [|exact Hq].
    destruct Hs as [Hd|He]; [left; lia|by right].
  - intros w cur page now. apply fetch_in_flight_resolves.
  - intros w cur d dom now. apply extraction_in_flight_appends.
Qed.

(** Three tasks and two workers: the third task is never taken once the
    first source has made the evidence sufficient, and the second source
    is appended after that. *)
Lemma stop_ends_dispatch_in_flight_tasks_finish_witness :
  idx pool_drained = idx pool_sufficient
  /\ sources pool_sufficient `prefix_of` sources pool_drained.
Proof.
  assert (Hrun : run_events url_hostname three_tasks opts_one_source 7000
                   events_after_sufficient pool_sufficient = Some pool_drained)
    by (vm_compute; reflexivity).
  assert (Hstop : stopped opts_one_source 7000 pool_sufficient)
    by (right; vm_compute; reflexivity).
  destruct (stop_ends_dispatch_in_flight_tasks_finish url_hostname three_tasks
              opts_one_source 7000 pool_sufficient pool_drained
              events_after_sufficient Hrun Hstop) as (Hi & _ & Hsrc & _).
  split; [exact Hi|exact Hsrc].
Defined.

(** A task taken before the deadline whose fetch resolves after it is
    dropped after the fetch: it is traced and leaves no evidence, although
    the same page leaves a source when the fetch resolves in time.  And a
    task taken before the evidence was sufficient collects a source that the
    cut to maxSources removes from the result. *)
Lemma in_flight_evidence_counterexample :
  research url_hostname ["q"] opts_default env_fetch_late
  = Some (Ok {| res_trace :=
                  [TrSearch "q" 1;
                   TrSelect [{| sel_url := "https://www.a.com/x"; reason := select_reason |}];
                   TrFetch "https://www.a.com/x" 200; TrTiming 7001];
                res_sources := [] |})
  /\ (exists tr, research url_hostname ["q"] opts_default env_extract_late
                 = Some (Ok {| res_trace := tr; res_sources := [source_a] |}))
  /\ (exists tr p,
        fetch_phase url_hostname ["q"] opts_one_source env_two_in_flight = Some (Ok p)
        /\ sources p = [source_a; source_b]
        /\ research url_hostname ["q"] opts_one_source env_two_in_flight
           = Some (Ok {| res_trace := tr; res_sources := [source_a] |})).
Proof.
  split; [vm_compute; reflexivity|]. split.
  - eexists. vm_compute. reflexivity.
  - do 2 eexists. split; [vm_compute; reflexivity|].
    split; [reflexivity|]. vm_compute. reflexivity.
Qed.

(** ** C9: the artifact cache *)

Lemma substring_zero_length n s : String.substring n 0 s = EmptyString.
Proof.
  revert n. induction s as [|c r IH]; intros [|n]; cbn; try reflexivity. apply IH.
Qed.

Lemma substring_empty n m : String.substring n m EmptyString = EmptyString.
Proof. destruct n, m; reflexivity. Qed.

Lemma substring_add n a b s :
  String.substring n (a + b) s
  = String.substring n a s +:+ String.substring (n + a) b s.
Proof.
  revert n a. induction s as [|c r IH]; intros n a.
  - rewrite !substring_empty. reflexivity.
  - destruct n as [|n].
    + destruct a as [|a].
      * cbn [Nat.add]. rewrite substring_zero_length. reflexivity.
      * cbn [Nat.add String.substring]. rewrite (IH 0%nat a). reflexivity.
    + cbn [Nat.add String.substring]. apply IH.
Qed.

Lemma substring_whole s : String.substring 0 (String.length s) s = s.
Proof. induction s as [|c r IH]; cbn; [reflexivity|by rewrite IH]. Qed.

Lemma slice_chunk text (i : nat) :
  (i < String.length text)%nat ->
  JS.slice text (Z.of_nat i) (Z.of_nat i + 140)
  = String.substring i (Nat.min 140 (String.length text - i)) text.
Proof.
  intros Hi. unfold JS.slice, JS.clamp_index, JS.len.
  replace (Z.of_nat i <? 0) with false by (symmetry; apply Z.ltb_ge; lia).
  replace (Z.of_nat i + 140 <? 0) with false by (symmetry; apply Z.ltb_ge; lia).
  f_equal; lia.
Qed.

Lemma streamTextQuick_from_suffix text fuel (i : nat) :
  (String.length text - i <= fuel)%nat ->
  concat_strings (streamTextQuick_from fuel text (Z.of_nat i))
  = String.substring i (String.length text - i) text.
Proof.
  revert i. induction fuel as [|fuel IH]; intros i Hfuel; cbn [streamTextQuick_from].
  - replace (String.length text - i)%nat with 0%nat by lia.
    rewrite substring_zero_length. reflexivity.
  - unfold JS.len. destruct (Z.of_nat i <? Z.of_nat (String.length text)) eqn:Hlt.
    + apply Z.ltb_lt in Hlt.
      cbn [concat_strings foldr]. fold (concat_strings (streamTextQuick_from fuel text (Z.of_nat i + 140))).
      replace (Z.of_nat i + 140) with (Z.of_nat (i + 140)) at 2 by lia.
      rewrite IH by lia. rewrite slice_chunk by lia.
      set (k := Nat.min 140 (String.length text - i)).
      assert (Hsplit : String.substring i (String.length text - i) text
                       = String.substring i k text
                         +:+ String.substring (i + k) (String.length text - i - k) text).
      { rewrite <- substring_add. f_equal. unfold k. lia. }
      rewrite Hsplit. f_equal.
      destruct (Nat.le_gt_cases 140 (String.length text - i)) as [Hle|Hgt].
      * unfold k. rewrite Nat.min_l by exact Hle. f_equal. lia.
      * replace (String.length text - (i + 140))%nat with 0%nat by lia.
        replace (String.length text - i - k)%nat with 0%nat by (unfold k; lia).
        rewrite !substring_zero_length. reflexivity.
    + apply Z.ltb_ge in Hlt.
      replace (String.length text - i)%nat with 0%nat by lia.
      rewrite substring_zero_length. reflexivity.
Qed.

(** The chunks sent for a text, put together, are the text. *)
Lemma streamTextQuick_concat text :
  concat_strings (streamTextQuick text) = text.
Proof.
  unfold streamTextQuick. change 0 with (Z.of_nat 0).
  rewrite (streamTextQuick_from_suffix text (String.length text) 0) by lia.
  rewrite Nat.sub_0_r. apply substring_whole.
Qed.

Lemma tokens_of_app ev1 ev2 : tokens_of (ev1 ++ ev2) = tokens_of ev1 ++ tokens_of ev2.
Proof. apply omap_app. Qed.

Lemma tokens_of_tokens l : tokens_of (SseToken <$> l) = l.
Proof. induction l as [|c r IH]; cbn; [reflexivity|]. f_equal. exact IH. Qed.

Lemma append_assoc (a b c : string) : (a +:+ b) +:+ c = a +:+ (b +:+ c).
Proof.
  induction a as [|x a IH]; [reflexivity|].
  change (String x ((a +:+ b) +:+ c) = String x (a +:+ (b +:+ c))).
  rewrite IH. reflexivity.
Qed.

Lemma concat_strings_app l k :
  concat_strings (l ++ k) = concat_strings l +:+ concat_strings k.
Proof.
  induction l as [|s r IH]; cbn [app concat_strings foldr]; [reflexivity|].
  fold (concat_strings (r ++ k)). fold (concat_strings r).
  rewrite IH, append_assoc. reflexivity.
Qed.

Section CacheHit.

Variable hostname : string -> Exn string.
Variable createId : nat -> string.
Variable JSON_stringify : CachedArtifact -> string.
Variable JSON_parse_artifact : string -> Exn CachedArtifact.

(** The hit branch: a live, parsable entry under the key of the request is
    replayed; no [research] call is made and the cache is left as it is. *)
Lemma cache_hit_replays m message env mem text expiresAt artifact :
  mem !! artifactKey (mode_name m) message = Some (text, expiresAt) ->
  run_now env <= expiresAt ->
  text <> EmptyString ->
  JSON_parse_artifact text = Ok artifact ->
  run_db env = Ok tt ->
  exists resp,
    chatHandler hostname createId JSON_stringify JSON_parse_artifact m message env mem
    = Some (resp, mem)
    /\ answer resp = Some (finalAnswer artifact)
    /\ research_calls resp = []
    /\ concat_strings (tokens_of (events resp)) = preamble +:+ finalAnswer artifact.
Proof.
  intros Hmem Hlive Htext Hparse Hdb. unfold chatHandler, Cache.cacheGet.
  rewrite Hmem.
  replace (expiresAt <? run_now env) with false by (symmetry; apply Z.ltb_ge; lia).
  assert (Hne : nonempty text = true).
  { unfold nonempty. apply negb_true_iff, String.eqb_neq. exact Htext. }
  rewrite Hne, Hparse, Hdb. eexists. split; [reflexivity|].
  cbn [answer research_calls events]. split; [reflexivity|]. split; [reflexivity|].
  rewrite !tokens_of_app, tokens_of_tokens.
  assert (Hclaims : tokens_of
            match m with
            | normal => [SseMeta m; SseStatus "Starting..." 0 4; SseToken preamble]
                          ++ [SseStatus "Cached answer" 4 4]
            | reliability =>
                match art_claims artifact with
                | [] => [SseMeta m; SseStatus "Starting..." 0 4; SseToken preamble]
                          ++ [SseStatus "Cached answer" 4 4]
                | _ :: _ => ([SseMeta m; SseStatus "Starting..." 0 4; SseToken preamble]
                               ++ [SseStatus "Cached answer" 4 4])
                            ++ [SseClaims (art_claims artifact)]
                end
            end = [preamble]).
  { destruct m; [reflexivity|]. destruct (art_claims artifact); reflexivity. }
  rewrite Hclaims. cbn [tokens_of omap app].
  rewrite app_nil_r. cbn [concat_strings foldr app].
  fold (concat_strings (streamTextQuick (finalAnswer artifact))).
  rewrite streamTextQuick_concat. reflexivity.
Qed.

(** A request that ends with a final answer leaves it in the cache under
    its key, whether it was served from the cache or computed. *)
Lemma answered_run_is_cached m message env mem resp mem' a :
  (forall art, JSON_stringify art <> EmptyString) ->
  (forall art, exists art',
      JSON_parse_artifact (JSON_stringify art) = Ok art'
      /\ finalAnswer art' = finalAnswer art) ->
  chatHandler hostname createId JSON_stringify JSON_parse_artifact m message env mem
  = Some (resp, mem') ->
  answer resp = Some a ->
  exists text expiresAt artifact,
    mem' !! artifactKey (mode_name m) message = Some (text, expiresAt)
    /\ text <> EmptyString
    /\ JSON_parse_artifact text = Ok artifact
    /\ finalAnswer artifact = a.
Proof.
  intros Hne Hround Hrun Hans. unfold chatHandler in Hrun.
  set (ck := artifactKey (mode_name m) message) in *.
  destruct (Cache.cacheGet ck (run_now env) mem) as [cached mem1] eqn:Hget.
  assert (Hfresh : forall ev,
            fresh_run hostname createId JSON_stringify m message env ev ck mem1
            = Some (resp, mem') ->
            exists text expiresAt artifact,
              mem' !! ck = Some (text, expiresAt) /\ text <> EmptyString
              /\ JSON_parse_artifact text = Ok artifact /\ finalAnswer artifact = a).
  { clear Hrun. intros ev Hrun. unfold fresh_run in Hrun.
    repeat match type of Hrun with
           | context [match ?x with _ => _ end] => destruct x eqn:?
           end;
      try discriminate;
      injection Hrun as <- <-; cbn [answer failed] in Hans; try discriminate;
      injection Hans as <-;
      match goal with
      | |- context [Cache.cacheSet ck (JSON_stringify ?art)] =>
          destruct (Hround art) as (art' & Hp & Hf);
          exists (JSON_stringify art), (run_store_now env + 2 * 60 * 60 * 1000), art';
          (split; [apply lookup_insert_eq|]); (split; [apply Hne|]);
          (split; [exact Hp|exact Hf])
      end. }
  destruct cached as [text|]; [|by eapply Hfresh].
  destruct (nonempty text) eqn:Htext; [|by eapply Hfresh].
  destruct (JSON_parse_artifact text) as [artifact|e] eqn:Hparse;
    [|injection Hrun as <- <-; discriminate].
  destruct (run_db env) as [[]|e]; [|injection Hrun as <- <-; discriminate].
  injection Hrun as <- <-. cbn [answer] in Hans. injection Hans as <-.
  unfold Cache.cacheGet in Hget.
  destruct (mem !! ck) as [[v exp]|] eqn:Hmem; [|discriminate].
  destruct (exp <? run_now env); [discriminate|]. injection Hget as -> ->.
  exists text, exp, artifact. split; [exact Hmem|]. split; [|split; [exact Hparse|reflexivity]].
  intros ->. discriminate.
Qed.

End CacheHit.

Lemma substring_length_le n m s : (String.length (String.substring n m s) <= m)%nat.
Proof.
  revert n m. induction s as [|c r IH]; intros [|n] [|m]; cbn; try lia.
  - specialize (IH 0%nat m). lia.
  - apply IH.
  - apply IH.
Qed.

Lemma normalizeQuestion_length q : JS.len (normalizeQuestion q) <= 300.
Proof.
  unfold normalizeQuestion, JS.slice, JS.len.
  set (s := JS.collapse_ws (JS.toLowerCase (JS.trim q))).
  pose proof (substring_length_le
                (Z.to_nat (JS.clamp_index (Z.of_nat (String.length s)) 0))
                (Z.to_nat (Z.max (JS.clamp_index (Z.of_nat (String.length s)) 300
                                  - JS.clamp_index (Z.of_nat (String.length s)) 0) 0)) s) as H.
  unfold JS.clamp_index in *. cbn in *. lia.
Qed.

(** C9, as amended: for every mode and question, when a request has ended
    with a final answer, a second request with the same mode and the same
    question (or any question with the same normalization), made while the
    cached artifact is live and while the run can be stored, ends with the
    byte-identical final answer, streamed from the cache after the opening
    token, without any research call (so without search or fetch), and
    leaves the cache as it is; the cache key is "artifact:v1:<mode>:"
    followed by the question trimmed, lower-cased, with white-space runs
    collapsed to single spaces and truncated to 300 characters. *)
Theorem cached_answer_is_replayed
    (hostname : string -> Exn string) (createId : nat -> string)
    (JSON_stringify : CachedArtifact -> string)
    (JSON_parse_artifact : string -> Exn CachedArtifact)
    (m : Mode) (message message' : string) (env1 env2 : RunEnv)
    (mem0 mem1 : Cache.Mem) (resp1 : Response) (a : string) :
  (forall art, JSON_stringify art <> EmptyString) ->
  (forall art, exists art',
      JSON_parse_artifact (JSON_stringify art) = Ok art'
      /\ finalAnswer art' = finalAnswer art) ->
  chatHandler hostname createId JSON_stringify JSON_parse_artifact m message env1 mem0
  = Some (resp1, mem1) ->
  answer resp1 = Some a ->
  normalizeQuestion message' = normalizeQuestion message ->
  (forall text expiresAt,
      mem1 !! artifactKey (mode_name m) message = Some (text, expiresAt) ->
      run_now env2 <= expiresAt) ->
  run_db env2 = Ok tt ->
  exists resp2,
    chatHandler hostname createId JSON_stringify JSON_parse_artifact m message' env2 mem1
    = Some (resp2, mem1)
    /\ answer resp2 = Some a
    /\ research_calls resp2 = []
    /\ concat_strings (tokens_of (events resp2)) = preamble +:+ a
    /\ artifactKey (mode_name m) message'
       = "artifact:v1:" +:+ mode_name m +:+ ":"
         +:+ JS.slice (JS.collapse_ws (JS.toLowerCase (JS.trim message))) 0 300.
Proof.
  intros Hne Hround Hrun Hans Hnorm Hlive Hdb.
  destruct (answered_run_is_cached hostname createId JSON_stringify JSON_parse_artifact
              m message env1 mem0 resp1 mem1 a Hne Hround Hrun Hans)
    as (text & exp & artifact & Hmem & Htext & Hparse & Hfinal).
  assert (Hkey : artifactKey (mode_name m) message' = artifactKey (mode_name m) message)
    by (unfold artifactKey; rewrite Hnorm; reflexivity).
  destruct (cache_hit_replays hostname createId JSON_stringify JSON_parse_artifact
              m message' env2 mem1 text exp artifact)
    as (resp2 & Hrun2 & Hans2 & Hcalls & Htokens);
    [rewrite Hkey; exact Hmem|exact (Hlive _ _ Hmem)|exact Htext|exact Hparse|exact Hdb|].
  exists resp2. rewrite Hfinal in *.
  split; [exact Hrun2|]. split; [exact Hans2|]. split; [exact Hcalls|].
  split; [exact Htokens|]. rewrite Hkey. reflexivity.
Qed.

(** A first request computes an answer and stores it; a second one, for
    the same question written with other case and spacing, replays it. *)
Lemma cached_answer_is_replayed_witness :
  exists resp1 resp2,
    chatHandler url_hostname ids answer_stringify answer_parse normal
      "solar power" run_first ∅ = Some (resp1, cache_with_answer)
    /\ chatHandler url_hostname ids answer_stringify answer_parse normal
         " Solar  POWER " (run_second (Ok tt)) cache_with_answer
       = Some (resp2, cache_with_answer)
    /\ answer resp2 = Some "Solar power is abundant.".
Proof.
  destruct (chatHandler url_hostname ids answer_stringify answer_parse normal
              "solar power" run_first ∅) as [[resp1 mem1]|] eqn:H1;
    [|vm_compute in H1; discriminate].
  assert (Hmem : mem1 = cache_with_answer)
    by (vm_compute in H1; injection H1 as _ <-; vm_compute; reflexivity).
  assert (Hans : answer resp1 = Some "Solar power is abundant.")
    by (vm_compute in H1; injection H1 as <- _; reflexivity).
  subst mem1.
  destruct (cached_answer_is_replayed url_hostname ids answer_stringify answer_parse
              normal "solar power" " Solar  POWER " run_first (run_second (Ok tt))
              ∅ cache_with_answer resp1 "Solar power is abundant.")
    as (resp2 & H2 & Hans2 & _).
  - intros art. discriminate.
  - intros art. eexists. split; reflexivity.
  - exact H1.
  - exact Hans.
  - vm_compute. reflexivity.
  - intros text exp Hl. vm_compute in Hl. injection Hl as _ <-. vm_compute. discriminate.
  - reflexivity.
  - exists resp1, resp2. split; [reflexivity|]. split; [exact H2|exact Hans2].
Defined.

(** The question " Solar  POWER " is cached under "...:solar power": the
    key is built from the trimmed question, where the normalization in the
    specification's words keeps a space at both ends.  And when the store
    is down, the second request ends with an error although the artifact
    is live. *)
Lemma cache_key_counterexample :
  spec_normalizeQuestion " Solar  POWER " = " solar power "
  /\ normalizeQuestion " Solar  POWER " = "solar power"
  /\ artifactKey "normal" " Solar  POWER " = "artifact:v1:normal:solar power"
  /\ chatHandler url_hostname ids answer_stringify answer_parse normal
       "solar power" (run_second (Throw UpstreamError)) cache_with_answer
     = Some ({| events := [SseMeta normal; SseStatus "Starting..." 0 4; SseToken preamble;
                           SseStatus "Cached answer" 4 4; SseError UpstreamError];
                answer := None; research_calls := [] |}, cache_with_answer).
Proof.
  split; [vm_compute; reflexivity|].
  split; [vm_compute; reflexivity|].
  split; vm_compute; reflexivity.
Qed.

(** * Further properties *)

(** * Further properties *)

(** ** The in-memory cache (services/cache.ts) *)

(** X1: a value written with [cacheSet] at time [t0] is what [cacheGet]
    returns for the same key up to and including the millisecond
    [t0 + ttlSeconds * 1000], the store being left as it is; a later
    [cacheGet] returns nothing and deletes the entry.  A second [cacheSet]
    on the key replaces the first. *)
Theorem cacheSet_then_cacheGet
    (key value : string) (ttlSeconds t0 t : Z) (mem : Cache.Mem) :
  Cache.cacheGet key t (Cache.cacheSet key value ttlSeconds t0 mem)
  = (if t0 + ttlSeconds * 1000 <? t
     then (None, delete key mem)
     else (Some value, Cache.cacheSet key value ttlSeconds t0 mem))
  /\ (forall value' ttl' t1,
        Cache.cacheSet key value' ttl' t1 (Cache.cacheSet key value ttlSeconds t0 mem)
        = Cache.cacheSet key value' ttl' t1 mem).
Proof.
  unfold Cache.cacheGet, Cache.cacheSet. split.
  - rewrite lookup_insert_eq.
    destruct (t0 + ttlSeconds * 1000 <? t); [|reflexivity].
    by rewrite delete_insert_eq.
  - intros. by rewrite insert_insert_eq.
Qed.

Lemma cacheGet_fst key t (mem : Cache.Mem) :
  (Cache.cacheGet key t mem).1
  = match mem !! key with
    | Some (value, expiresAt) => if expiresAt <? t then None else Some value
    | None => None
    end.
Proof.
  unfold Cache.cacheGet. destruct (mem !! key) as [[v e]|]; [|reflexivity].
  destruct (e <? t); reflexivity.
Qed.

(** X2: the keys of the cache do not interfere: neither a [cacheSet] nor a
    [cacheGet] on one key, eviction included, changes what the store holds
    or what [cacheGet] returns for another key. *)
Theorem cache_keys_independent
    (key key' value : string) (ttlSeconds t0 t : Z) (mem : Cache.Mem) :
  key <> key' ->
  Cache.cacheSet key value ttlSeconds t0 mem !! key' = mem !! key'
  /\ (Cache.cacheGet key t0 mem).2 !! key' = mem !! key'
  /\ (Cache.cacheGet key' t (Cache.cacheSet key value ttlSeconds t0 mem)).1
     = (Cache.cacheGet key' t mem).1
  /\ (Cache.cacheGet key' t (Cache.cacheGet key t0 mem).2).1
     = (Cache.cacheGet key' t mem).1.
Proof.
  intros Hne.
  assert (H1 : Cache.cacheSet key value ttlSeconds t0 mem !! key' = mem !! key')
    by (unfold Cache.cacheSet; by rewrite lookup_insert_ne).
  assert (H2 : (Cache.cacheGet key t0 mem).2 !! key' = mem !! key').
  { unfold Cache.cacheGet. destruct (mem !! key) as [[v e]|]; [|reflexivity].
    destruct (e <? t0); [|reflexivity]. cbn. by rewrite lookup_delete_ne. }
  split; [exact H1|]. split; [exact H2|].
  split.
  - by rewrite !cacheGet_fst, H1.
  - by rewrite !cacheGet_fst, H2.
Qed.

(** An entry of another key survives a write and is read back. *)
Lemma cache_keys_independent_witness :
  (Cache.cacheGet "fetch:v2:u" 50
     (Cache.cacheSet "extract:v1:u" "doc" 60 0 {[ "fetch:v2:u" := ("page", 100) ]})).1
  = Some "page".
Proof.
  pose proof (cache_keys_independent "extract:v1:u" "fetch:v2:u" "doc" 60 0 50
                {[ "fetch:v2:u" := ("page", 100) ]} ltac:(discriminate)) as (_ & _ & H & _).
  rewrite H. reflexivity.
Defined.

(** ** The rate limiter (services/rateLimit.ts) *)

Section RateLimitWindow.

Import RateLimit.

Lemma checkRateLimit_other ip ip' t m :
  ip' <> ip -> (checkRateLimit ip' t m).2 !! ip = m !! ip.
Proof.
  intros Hne. unfold checkRateLimit.
  destruct (m !! ip') as [cur|];
    [destruct (resetAt cur <? t); [|destruct (limit <=? count cur)]|];
    cbn [snd]; rewrite ?lookup_insert_ne by done; reflexivity.
Qed.

(** In a window that ends at [R] and has counted [c] requests of [ip], the
    next requests of [ip] get the verdicts of the ranks [c], [c + 1], ...,
    whatever the other addresses do, and the window stays. *)
Lemma rate_limit_run_window ip R :
  forall calls (m : MemHits) (c : nat),
    m !! ip = Some {| count := Z.of_nat c; resetAt := R |} ->
    (1 <= c)%nat ->
    (forall t, (ip, t) ∈ calls -> t <= R) ->
    verdicts_of ip (rate_limit_run calls m).1
    = imap (fun k _ => window_verdict (c + k)) (filter (fun x => x.1 = ip) calls)
    /\ exists c', (rate_limit_run calls m).2 !! ip = Some {| count := c'; resetAt := R |}.
Proof.
  induction calls as [|[ip' t] rest IH]; intros m c Hm Hc Hin; [cbn; eauto|].
  cbn [rate_limit_run].
  destruct (checkRateLimit ip' t m) as [v m'] eqn:E.
  destruct (rate_limit_run rest m') as [vs m''] eqn:E'.
  assert (Hrest : forall t0, (ip, t0) ∈ rest -> t0 <= R)
    by (intros t0 H0; apply Hin; by right).
  unfold verdicts_of. cbn [fst snd]. rewrite !filter_cons. cbn [fst].
  destruct (decide (ip' = ip)) as [->|Hne].
  - cbn [fmap list_fmap imap snd]. unfold checkRateLimit in E. rewrite Hm in E.
    cbn [resetAt count] in E.
    assert (Ht : t <= R) by (apply Hin; left).
    destruct (R <? t) eqn:Hlt; [apply Z.ltb_lt in Hlt; lia|].
    destruct (limit <=? Z.of_nat c) eqn:Hfull.
    + apply Z.leb_le in Hfull. unfold limit in Hfull.
      injection E as <- <-.
      destruct (IH m c Hm Hc Hrest) as [IH1 IH2]. rewrite E' in IH1, IH2.
      split; [|exact IH2]. f_equal.
      * unfold window_verdict. rewrite Nat.add_0_r.
        rewrite bool_decide_eq_false_2 by lia. f_equal. lia.
      * fold (verdicts_of ip vs). cbn [fst] in IH1. rewrite IH1.
        apply imap_ext. intros k x _. cbn.
        unfold window_verdict.
        rewrite !bool_decide_eq_false_2 by lia. f_equal. lia.
    + apply Z.leb_gt in Hfull. unfold limit in Hfull.
      injection E as <- <-.
      destruct (IH (<[ip:={| count := Z.of_nat c + 1; resetAt := R |}]> m) (S c))
        as [IH1 IH2]; [|lia|exact Hrest|].
      { rewrite lookup_insert_eq. do 2 f_equal. lia. }
      rewrite E' in IH1, IH2.
      split; [|exact IH2]. f_equal.
      * unfold window_verdict. rewrite Nat.add_0_r.
        rewrite bool_decide_eq_true_2 by lia. f_equal. unfold limit. lia.
      * fold (verdicts_of ip vs). cbn [fst] in IH1. rewrite IH1.
        apply imap_ext. intros k x _. cbn. f_equal. lia.
  - fold (verdicts_of ip vs).
    destruct (IH m' c) as [IH1 IH2]; [|exact Hc|exact Hrest|].
    { rewrite <- Hm. replace m' with (checkRateLimit ip' t m).2 by (by rewrite E).
      by apply checkRateLimit_other. }
    rewrite E' in IH1, IH2. split; [exact IH1|exact IH2].
Qed.

End RateLimitWindow.

(** X3: when an address has no window open at time [t0] (it is unknown, or
    its window has ended), its request at [t0] opens a window of 60 seconds
    in which, whatever the other addresses request in between, its requests
    of rank 0 to 29 are allowed with 29, 28, ..., 0 requests remaining and
    every further one is refused with 0 remaining; its first request after
    the window is allowed again, with 29 remaining. *)
Theorem checkRateLimit_window
    (ip : string) (t0 : Z) (calls : list (string * Z)) (memHits : RateLimit.MemHits) :
  (forall cur, memHits !! ip = Some cur -> RateLimit.resetAt cur < t0) ->
  (forall t, (ip, t) ∈ calls -> t <= t0 + 60000) ->
  verdicts_of ip (rate_limit_run ((ip, t0) :: calls) memHits).1
  = imap (fun k _ => window_verdict k) (filter (fun x => x.1 = ip) ((ip, t0) :: calls))
  /\ (forall t, t0 + 60000 < t ->
        (RateLimit.checkRateLimit ip t (rate_limit_run ((ip, t0) :: calls) memHits).2).1
        = {| RateLimit.allowed := true; RateLimit.remaining := 29 |}).
Proof.
  intros Hclosed Hin. cbn [rate_limit_run].
  destruct (RateLimit.checkRateLimit ip t0 memHits) as [v m'] eqn:E.
  assert (Hfirst : v = window_verdict 0
                   /\ m' = <[ip := {| RateLimit.count := 1; RateLimit.resetAt := t0 + 60000 |}]> memHits).
  { unfold RateLimit.checkRateLimit in E.
    destruct (memHits !! ip) as [cur|] eqn:Hcur.
    - specialize (Hclosed cur eq_refl). apply Z.ltb_lt in Hclosed. rewrite Hclosed in E.
      by injection E as <- <-.
    - by injection E as <- <-. }
  destruct Hfirst as [-> ->].
  destruct (rate_limit_run_window ip (t0 + 60000) calls
              (<[ip := {| RateLimit.count := 1; RateLimit.resetAt := t0 + 60000 |}]> memHits) 1)
    as [H1 [c' H2]]; [by rewrite lookup_insert_eq|lia|exact Hin|].
  destruct (rate_limit_run calls _) as [vs m''] eqn:E'.
  cbn [fst snd] in *. split.
  - unfold verdicts_of in *. rewrite !filter_cons. cbn [fst].
    rewrite !decide_True by reflexivity. cbn [fmap list_fmap imap snd].
    f_equal. rewrite H1. apply imap_ext. intros k x _. cbn. f_equal.
  - intros t Ht. unfold RateLimit.checkRateLimit. rewrite H2. cbn [RateLimit.resetAt].
    apply Z.ltb_lt in Ht. rewrite Ht. reflexivity.
Qed.

(** Thirty-one requests of one address in the same second, with a request
    of another address in between: the thirty-first is refused. *)
Lemma checkRateLimit_window_witness :
  last (verdicts_of "1.2.3.4"
          (rate_limit_run (("1.2.3.4", 0) :: ("5.6.7.8", 1) :: replicate 30 ("1.2.3.4", 500)) ∅).1)
  = Some {| RateLimit.allowed := false; RateLimit.remaining := 0 |}.
Proof.
  pose proof (checkRateLimit_window "1.2.3.4" 0
                (("5.6.7.8", 1) :: replicate 30 ("1.2.3.4", 500)) ∅) as H.
  destruct H as [H _].
  - intros cur Hcur. rewrite lookup_empty in Hcur. discriminate.
  - intros t Ht. apply elem_of_cons in Ht as [Ht|Ht]; [discriminate|].
    apply elem_of_replicate in Ht as [Ht _]. injection Ht as ->. lia.
  - rewrite H. reflexivity.
Defined.

(** ** The page fetcher (services/fetch.ts) *)

Lemma nonempty_true s : nonempty s = true <-> s <> EmptyString.
Proof.
  unfold nonempty. rewrite negb_true_iff. split.
  - intros H ->. discriminate.
  - intros H. destruct s; [contradiction|reflexivity].
Qed.

(** X4: when the cache holds no live entry for the URL, [fetchHtml] does
    not throw, whatever the network does: it returns a result for the URL
    asked, with status 0 and no content type and no HTML when the exchange
    failed; the HTML is non-empty only for a status from 200 to 299 with a
    content type that includes text/html; and the store gets a new entry,
    for six hours, exactly when the HTML is non-empty. *)
Theorem fetchHtml_on_cache_miss
    (JSON_stringify : FetchResult -> string) (JSON_parse : string -> Exn FetchResult)
    (url : string) (now store_now : Z) (request : Exn HttpReply) (mem : Cache.Mem) :
  (Cache.cacheGet (Fetch.cacheKey url) now mem).1 = None ->
  exists r,
    Fetch.fetchHtml JSON_stringify JSON_parse url now store_now request mem
    = (Ok r,
       if nonempty (html r)
       then Cache.cacheSet (Fetch.cacheKey url) (JSON_stringify r) 21600 store_now
              (Cache.cacheGet (Fetch.cacheKey url) now mem).2
       else (Cache.cacheGet (Fetch.cacheKey url) now mem).2)
    /\ fr_url r = url
    /\ (html r <> EmptyString ->
        200 <= status r < 300 /\ Fetch.isHtml (contentType r) = true)
    /\ (forall e, request = Throw e ->
        r = {| fr_url := url; status := 0; contentType := EmptyString; html := EmptyString |})
    /\ (forall res, request = Ok res ->
        status r = statusCode res /\ contentType r = header_contentType res).
Proof.
  intros Hmiss. unfold Fetch.fetchHtml.
  destruct (Cache.cacheGet (Fetch.cacheKey url) now mem) as [cached mem'].
  cbn [fst snd] in *. subst cached.
  unfold Fetch.fetch_fresh. destruct request as [res|e].
  - cbn zeta.
    set (ok := (200 <=? statusCode res) && (statusCode res <? 300)).
    set (body := if ok && Fetch.isHtml (header_contentType res)
                 then match body_text res with Ok t => t | Throw _ => EmptyString end
                 else EmptyString).
    exists {| fr_url := url; status := statusCode res;
              contentType := header_contentType res; html := body |}.
    cbn [fr_url status contentType html].
    assert (Hbody : body <> EmptyString ->
                    ok = true /\ Fetch.isHtml (header_contentType res) = true).
    { subst body. destruct ok, (Fetch.isHtml (header_contentType res)); cbn [andb];
        intros H; try contradiction. by split. }
    split; [|split; [reflexivity|split; [|split; [discriminate|]]]].
    + destruct (nonempty body) eqn:Hne.
      * apply nonempty_true in Hne. destruct (Hbody Hne) as [-> _]. reflexivity.
      * by rewrite andb_false_r.
    + intros Hne. destruct (Hbody Hne) as [Hok Hct]. split; [|exact Hct].
      subst ok. apply andb_true_iff in Hok as [H1 H2].
      apply Z.leb_le in H1. apply Z.ltb_lt in H2. lia.
    + intros res' [= <-]. by split.
  - exists {| fr_url := url; status := 0; contentType := EmptyString; html := EmptyString |}.
    cbn [fr_url status contentType html].
    split; [reflexivity|]. split; [reflexivity|]. split; [intros H; contradiction|].
    split; [intros e' _; reflexivity|discriminate].
Qed.

(** A page fetched with an empty store. *)
Lemma fetchHtml_on_cache_miss_witness :
  exists r,
    (Fetch.fetchHtml page_stringify page_parse "https://a.com/x" 0 10 (Ok reply_ok) ∅).1
    = Ok r
    /\ fr_url r = "https://a.com/x" /\ status r = 200.
Proof.
  assert (Hmiss : (Cache.cacheGet (Fetch.cacheKey "https://a.com/x") 0 ∅).1 = None)
    by reflexivity.
  destruct (fetchHtml_on_cache_miss page_stringify page_parse "https://a.com/x" 0 10
              (Ok reply_ok) ∅ Hmiss) as (r & Hr & Hurl & _ & _ & Hres).
  destruct (Hres reply_ok eq_refl) as [Hst _].
  exists r. rewrite Hr. split; [reflexivity|]. split; [exact Hurl|exact Hst].
Defined.

(** X5: a page that [fetchHtml] has fetched with non-empty HTML is served
    from the cache for the next six hours: as long as the serialization
    reads back the result it wrote, a later call for the same URL returns
    the same result whatever the network would answer, and leaves the
    store as it is. *)
Theorem fetchHtml_served_from_cache
    (JSON_stringify : FetchResult -> string) (JSON_parse : string -> Exn FetchResult)
    (url : string) (now1 t0 now2 t2 : Z) (request1 request2 : Exn HttpReply)
    (mem mem1 : Cache.Mem) (r : FetchResult) :
  (Cache.cacheGet (Fetch.cacheKey url) now1 mem).1 = None ->
  Fetch.fetchHtml JSON_stringify JSON_parse url now1 t0 request1 mem = (Ok r, mem1) ->
  html r <> EmptyString ->
  JSON_stringify r <> EmptyString ->
  JSON_parse (JSON_stringify r) = Ok r ->
  now2 <= t0 + 21600000 ->
  Fetch.fetchHtml JSON_stringify JSON_parse url now2 t2 request2 mem1 = (Ok r, mem1).
Proof.
  intros Hmiss H1 Hhtml Hne Hrt Hlive.
  assert (Hmem1 : mem1 !! Fetch.cacheKey url = Some (JSON_stringify r, t0 + 21600000)).
  { unfold Fetch.fetchHtml in H1.
    destruct (Cache.cacheGet (Fetch.cacheKey url) now1 mem) as [cached mem'].
    cbn [fst] in Hmiss. subst cached.
    unfold Fetch.fetch_fresh in H1. destruct request1 as [res|e].
    - cbn zeta in H1. injection H1 as Hr Hm. subst r. cbn [html] in Hhtml.
      apply nonempty_true in Hhtml. rewrite Hhtml in Hm.
      destruct ((200 <=? statusCode res) && (statusCode res <? 300)).
      + cbn [andb] in Hm. subst mem1. unfold Cache.cacheSet.
        rewrite lookup_insert_eq. reflexivity.
      + cbn [andb] in Hhtml. discriminate.
    - injection H1 as Hr _. subst r. contradiction. }
  unfold Fetch.fetchHtml, Cache.cacheGet. rewrite Hmem1.
  destruct (t0 + 21600000 <? now2) eqn:E; [apply Z.ltb_lt in E; lia|].
  apply nonempty_true in Hne. rewrite Hne, Hrt. reflexivity.
Qed.

(** The page of the example, asked again one hour later while the network
    is down. *)
Lemma fetchHtml_served_from_cache_witness :
  Fetch.fetchHtml page_stringify page_parse "https://a.com/x" 3600000 3600000
    (Throw UpstreamError) {[ "fetch:v2:https://a.com/x" := ("{<p>x</p>", 21600010) ]}
  = (Ok {| fr_url := "https://a.com/x"; status := 200;
           contentType := "text/html; charset=utf-8"; html := "<p>x</p>" |},
     {[ "fetch:v2:https://a.com/x" := ("{<p>x</p>", 21600010) ]}).
Proof.
  apply (fetchHtml_served_from_cache page_stringify page_parse "https://a.com/x"
           0 10 3600000 3600000 (Ok reply_ok) (Throw UpstreamError) ∅).
  - reflexivity.
  - reflexivity.
  - discriminate.
  - discriminate.
  - reflexivity.
  - lia.
Defined.

(** ** Schemas: the planner and the extraction of claims *)

Lemma zod_array_Ok {T} (item : Json -> Exn T) items vs :
  zod_array item items = Ok vs -> Forall2 (fun j v => item j = Ok v) items vs.
Proof.
  revert vs. induction items as [|j r IH]; intros vs H; cbn in H.
  - injection H as <-. constructor.
  - destruct (item j) as [v|] eqn:Hj; [|discriminate].
    destruct (zod_array item r) as [vs'|]; [|discriminate].
    injection H as <-. constructor; [exact Hj|]. by apply IH.
Qed.

Lemma zod_string_min_Ok n j s : zod_string_min n j = Ok s -> n <= JS.len s.
Proof.
  destruct j; cbn; try discriminate.
  destruct (n <=? JS.len s0) eqn:E; [|discriminate].
  intros [= <-]. by apply Z.leb_le.
Qed.

Lemma ClaimsSchema_parse_Ok raw claims :
  ClaimsSchema_parse raw = Ok claims ->
  (1 <= length claims <= 6)%nat /\ Forall (fun c => 8 <= JS.len c) claims.
Proof.
  unfold ClaimsSchema_parse. destruct raw as [| | | |items|fields]; try discriminate.
  destruct (obj_get "claims" fields) as [[| | | |items|]|]; try discriminate.
  destruct ((1 <=? Z.of_nat (length items)) && (Z.of_nat (length items) <=? 6)) eqn:Hn;
    [|discriminate].
  intros H. apply zod_array_Ok in H.
  apply andb_true_iff in Hn as [H1 H2]. apply Z.leb_le in H1, H2.
  split.
  - rewrite <- (Forall2_length _ _ _ H). lia.
  - clear H1 H2. induction H as [|j c items' claims' Hj _ IH]; constructor; [|exact IH].
    by apply zod_string_min_Ok in Hj.
Qed.

(** X6: [extractClaims] on a provider in JSON mode returns either no claim
    or from 1 to 6 claims of at least 8 code units each, in the order of
    the completion; it returns no claim whenever the call fails, the
    completion holds no JSON, or the JSON does not fit the schema. *)
Theorem extractClaims_bounds
    (JSON_parse : string -> Exn Json) (completion : Exn string) :
  let claims := extractClaims (chat_json JSON_parse completion) in
  (claims = []
   \/ ((1 <= length claims <= 6)%nat
       /\ Forall (fun c => 8 <= JS.len c) claims
       /\ exists text raw,
            completion = Ok text /\ safeJsonParse JSON_parse text = Ok raw
            /\ ClaimsSchema_parse raw = Ok claims))
  /\ ((forall text raw,
         completion = Ok text -> safeJsonParse JSON_parse text = Ok raw ->
         exists e, ClaimsSchema_parse raw = Throw e) ->
      claims = []).
Proof.
  cbn zeta. unfold extractClaims, chat_json.
  destruct completion as [text|e]; cbn [bindE]; [|split; [by left|intros _; reflexivity]].
  destruct (safeJsonParse JSON_parse text) as [raw|e] eqn:Hraw; cbn [bindE];
    [|split; [by left|intros _; reflexivity]].
  destruct (ClaimsSchema_parse raw) as [claims|e] eqn:Hparse; cbn [bindE];
    [|split; [by left|intros _; reflexivity]].
  destruct (ClaimsSchema_parse_Ok _ _ Hparse) as [Hlen Hall].
  assert (Hfilter : filter (fun c => nonempty c = true) claims = claims).
  { clear Hlen Hparse. induction Hall as [|c r Hc _ IH]; [reflexivity|].
    rewrite filter_cons, IH. destruct c; [unfold JS.len in Hc; cbn in Hc; lia|].
    by rewrite decide_True. }
  rewrite Hfilter. split.
  - right. split; [exact Hlen|]. split; [exact Hall|]. by exists text, raw.
  - intros H. destruct (H text raw eq_refl Hraw) as [e He]. congruence.
Qed.

Lemma IntentSchema_parse_Ok j i :
  IntentSchema_parse j = Ok i ->
  3 <= JS.len (match i with IntentString s => s | IntentObject q _ => q end).
Proof.
  unfold IntentSchema_parse. destruct j as [| | |s|items|fields]; try discriminate.
  - destruct (3 <=? JS.len s) eqn:E; [|discriminate].
    intros [= <-]. by apply Z.leb_le.
  - destruct (obj_get "query" fields) as [q|]; [|discriminate].
    destruct (zod_string_min 3 q) as [query|] eqn:Hq; [|discriminate]. cbn [bindE].
    destruct (zod_string_optional (obj_get "rationale" fields)); [|discriminate].
    cbn [bindE]. intros [= <-]. by apply zod_string_min_Ok in Hq.
Qed.

Lemma PlanSchema_parse_Ok raw p :
  PlanSchema_parse raw = Ok p ->
  (2 <= length (raw_intents p) <= 6)%nat
  /\ Forall (fun i => 3 <= JS.len i) (plan_intents (normalizePlan p)).
Proof.
  unfold PlanSchema_parse. destruct raw as [| | | |items|fields]; try discriminate.
  destruct (obj_get "intents" fields) as [[| | | |items|]|]; try discriminate.
  destruct ((2 <=? Z.of_nat (length items)) && (Z.of_nat (length items) <=? 6)) eqn:Hn;
    [|discriminate].
  destruct (zod_array IntentSchema_parse items) as [intents|] eqn:Hi; [|discriminate].
  cbn [bindE].
  match goal with |- bindE ?m _ = _ -> _ => destruct m as [must|]; [|discriminate] end.
  cbn [bindE].
  match goal with |- bindE ?m _ = _ -> _ => destruct m as [ts|]; [|discriminate] end.
  cbn [bindE]. intros [= <-]. cbn [raw_intents normalizePlan plan_intents].
  apply zod_array_Ok in Hi.
  apply andb_true_iff in Hn as [H1 H2]. apply Z.leb_le in H1, H2.
  split.
  - rewrite <- (Forall2_length _ _ _ Hi). lia.
  - clear H1 H2. induction Hi as [|j i items' intents' Hj _ IH]; cbn; constructor; [|exact IH].
    by apply IntentSchema_parse_Ok in Hj.
Qed.

(** X7: on a provider in JSON mode [planQuery] always returns a plan of 2
    to 6 intents: either the fallback plan of the trimmed question, or the
    plan of a completion that fits the schema, every intent of which has
    at least 3 code units. *)
Theorem planQuery_intents_shape
    (JSON_parse : string -> Exn Json) (completion : Exn string) (userQuestion : string) :
  exists plan,
    planQuery (chat_json JSON_parse completion) userQuestion = Ok plan
    /\ (2 <= length (plan_intents plan) <= 6)%nat
    /\ (plan = fallback_plan (JS.trim userQuestion)
        \/ (Forall (fun i => 3 <= JS.len i) (plan_intents plan)
            /\ exists text raw p,
                 completion = Ok text /\ safeJsonParse JSON_parse text = Ok raw
                 /\ PlanSchema_parse raw = Ok p /\ plan = normalizePlan p)).
Proof.
  assert (Hfb : exists plan,
             Ok (fallback_plan (JS.trim userQuestion)) = Ok plan
             /\ (2 <= length (plan_intents plan) <= 6)%nat
             /\ (plan = fallback_plan (JS.trim userQuestion)
                 \/ (Forall (fun i => 3 <= JS.len i) (plan_intents plan)
                     /\ exists text raw p,
                          completion = Ok text /\ safeJsonParse JSON_parse text = Ok raw
                          /\ PlanSchema_parse raw = Ok p /\ plan = normalizePlan p))).
  { eexists. split; [reflexivity|]. split; [|by left].
    rewrite fallback_plan_intents. cbn. lia. }
  unfold planQuery, chat_json.
  destruct completion as [text|e]; cbn [bindE try_catch]; [|exact Hfb].
  destruct (safeJsonParse JSON_parse text) as [raw|e] eqn:Hraw; cbn [bindE try_catch];
    [|exact Hfb].
  destruct (PlanSchema_parse raw) as [p|e] eqn:Hp; cbn [bindE try_catch snd]; [|exact Hfb].
  destruct (PlanSchema_parse_Ok _ _ Hp) as [Hlen Hall].
  exists (normalizePlan p). split; [reflexivity|]. split.
  - unfold normalizePlan. cbn [plan_intents]. by rewrite length_fmap.
  - right. split; [exact Hall|]. by exists text, raw, p.
Qed.

(** ** The verifier: chunks *)

Lemma chunkText_paragraphs text :
  chunkText text = JS.slice_list (chunkText_loop (paragraphs text) 900 EmptyString []) 0 40.
Proof. reflexivity. Qed.

Lemma paragraphs_nonempty text : Forall (fun p => p <> EmptyString) (paragraphs text).
Proof.
  unfold paragraphs. apply Forall_forall. intros p Hp.
  apply list_elem_of_filter in Hp as [Hp _]. by apply nonempty_true.
Qed.

Lemma len_nonneg s : 0 <= JS.len s.
Proof. unfold JS.len. lia. Qed.

(** What the loop keeps: every chunk is non-empty, and is one paragraph or
    has at most [maxLen] code units; so is the buffer when it is not
    empty. *)
Lemma chunkText_loop_chunks (all : list string) (maxLen : Z) :
  let good c := c <> EmptyString /\ (JS.len c <= maxLen \/ c ∈ all) in
  forall paras buf chunks,
    paras ⊆ all ->
    Forall (fun p => p <> EmptyString) paras ->
    Forall good chunks ->
    (buf = EmptyString \/ good buf) ->
    Forall good (chunkText_loop paras maxLen buf chunks).
Proof.
  intros good. induction paras as [|p rest IH]; intros buf chunks Hsub Hne Hch Hbuf;
    cbn [chunkText_loop].
  - destruct (nonempty buf) eqn:E; [|exact Hch].
    apply Forall_app. split; [exact Hch|]. apply Forall_singleton.
    destruct Hbuf as [->|Hbuf]; [discriminate|exact Hbuf].
  - apply Forall_cons in Hne as [Hp Hne].
    assert (Hrest : rest ⊆ all) by (intros x Hx; apply Hsub; by right).
    assert (Hpin : p ∈ all) by (apply Hsub; by left).
    assert (Hch' : Forall good (if nonempty buf then chunks ++ [buf] else chunks)).
    { destruct (nonempty buf) eqn:E; [|exact Hch].
      apply Forall_app. split; [exact Hch|]. apply Forall_singleton.
      destruct Hbuf as [->|Hbuf]; [discriminate|exact Hbuf]. }
    match goal with |- context [maxLen <? JS.len ?n] => set (next := n) end.
    destruct (maxLen <? JS.len next) eqn:E.
    + apply IH; [exact Hrest|exact Hne|exact Hch'|]. right. split; [exact Hp|by right].
    + apply IH; [exact Hrest|exact Hne|exact Hch|]. right. apply Z.ltb_ge in E. split.
      * subst next. destruct (nonempty buf); [|exact Hp].
        destruct buf; [by destruct p|discriminate].
      * by left.
Qed.

(** X8: [chunkText] returns at most 40 chunks; none is empty; and a chunk
    has more than 900 code units only when it is one single paragraph of
    the text. *)
Theorem chunkText_chunks (text : string) :
  (length (chunkText text) <= 40)%nat
  /\ Forall (fun c => c <> EmptyString
                      /\ (JS.len c <= 900 \/ c ∈ paragraphs text))
            (chunkText text).
Proof.
  rewrite chunkText_paragraphs, slice_list_prefix by lia. split.
  - rewrite length_take. lia.
  - apply Forall_take.
    apply (chunkText_loop_chunks (paragraphs text) 900);
      [done|apply paragraphs_nonempty|constructor|by left].
Qed.

(** ** The verifier: nothing is lost by chunking *)

Lemma string_app_nil_r s : s +:+ EmptyString = s.
Proof. induction s as [|c r IH]; [reflexivity|]. change (String c (r +:+ EmptyString) = String c r). by rewrite IH. Qed.

Lemma join_with_cons sep x r :
  r <> [] -> join_with sep (x :: r) = x +:+ sep +:+ join_with sep r.
Proof.
  destruct r as [|y r']; [done|]. intros _. cbn [join_with fmap list_fmap concat_strings foldr].
  by rewrite append_assoc.
Qed.

Lemma join_with_merge sep a x y b :
  join_with sep (a ++ (x +:+ sep +:+ y) :: b) = join_with sep (a ++ x :: y :: b).
Proof.
  induction a as [|a0 a' IH].
  - cbn [app]. rewrite (join_with_cons sep x) by done.
    destruct b as [|b0 b'].
    + cbn [join_with fmap list_fmap concat_strings foldr].
      by rewrite !string_app_nil_r.
    + rewrite (join_with_cons sep _ (b0 :: b')), (join_with_cons sep y (b0 :: b')) by done.
      by rewrite !append_assoc.
  - cbn [app]. rewrite !join_with_cons by (by destruct a'). by rewrite IH.
Qed.

Lemma chunkText_loop_join maxLen :
  forall paras buf chunks,
    Forall (fun p => p <> EmptyString) paras ->
    join_with paragraph_sep (chunkText_loop paras maxLen buf chunks)
    = join_with paragraph_sep
        (chunks ++ (if nonempty buf then [buf] else []) ++ paras).
Proof.
  induction paras as [|p rest IH]; intros buf chunks Hne; cbn [chunkText_loop].
  - rewrite app_nil_r. destruct (nonempty buf); [reflexivity|by rewrite app_nil_r].
  - apply Forall_cons in Hne as [Hp Hne].
    assert (Hp' : nonempty p = true) by (by apply nonempty_true).
    destruct (maxLen <? JS.len _).
    + rewrite IH by exact Hne. rewrite Hp'.
      destruct (nonempty buf); cbn [app]; [by rewrite <- app_assoc|reflexivity].
    + rewrite IH by exact Hne.
      destruct (nonempty buf) eqn:Hbuf.
      * assert (Hn : nonempty (buf +:+ paragraph_sep +:+ p) = true)
          by (destruct buf; [discriminate|reflexivity]).
        rewrite Hn. cbn [app]. apply join_with_merge.
      * rewrite Hp'. reflexivity.
Qed.

(** X9: chunking loses no text: the chunks of [chunkText] are the first 40
    of a list of chunks which, joined with blank lines, give back the
    paragraphs of the text joined with blank lines. *)
Theorem chunkText_keeps_paragraphs (text : string) :
  exists chunks,
    chunkText text = take 40 chunks
    /\ join_with paragraph_sep chunks = join_with paragraph_sep (paragraphs text).
Proof.
  exists (chunkText_loop (paragraphs text) 900 EmptyString []). split.
  - rewrite chunkText_paragraphs. by apply slice_list_prefix.
  - rewrite chunkText_loop_join by apply paragraphs_nonempty. reflexivity.
Qed.

(** ** The verifier: the records *)

Lemma best_chunk_origin claim chunks b :
  best_chunk claim chunks b = b
  \/ exists chunk,
       chunk ∈ chunks
       /\ best_chunk claim chunks b
          = {| best_snippet := JS.slice chunk 0 280;
               best_score := overlapScore claim chunk |}
       /\ (best_score b < overlapScore claim chunk)%Q.
Proof.
  revert b. induction chunks as [|c rest IH]; intros b; cbn [best_chunk]; [by left|].
  destruct (Qle_bool (overlapScore claim c) (best_score b)) eqn:E; cbn [negb].
  - destruct (IH b) as [->|(chunk & Hin & -> & Hlt)]; [by left|].
    right. exists chunk. split; [by right|]. by split.
  - apply Qle_bool_false in E.
    destruct (IH {| best_snippet := JS.slice c 0 280; best_score := overlapScore claim c |})
      as [->|(chunk & Hin & -> & Hlt)].
    + right. exists c. split; [by left|]. by split.
    + right. exists chunk. split; [by right|]. split; [reflexivity|].
      cbn [best_score] in Hlt. eapply Qlt_trans; eassumption.
Qed.

Lemma score_sources_origin claim scs acc e :
  e ∈ score_sources claim scs acc ->
  e ∈ acc
  \/ exists u chunks chunk,
       (u, chunks) ∈ scs /\ chunk ∈ chunks
       /\ sourceUrl e = u /\ ev_snippet e = JS.slice chunk 0 280
       /\ ev_score e = overlapScore claim chunk
       /\ (0 < overlapScore claim chunk)%Q.
Proof.
  revert acc. induction scs as [|[u chunks] rest IH]; intros acc; cbn [score_sources];
    [by left|].
  intros H. apply IH in H as [H|(u' & chunks' & chunk & Hin & Hrest)].
  - destruct (Qle_bool _ 0) eqn:E; cbn [negb] in H; [by left|].
    apply elem_of_app in H as [H|H]; [by left|]. apply list_elem_of_singleton in H. subst e.
    cbn [sourceUrl ev_snippet ev_score]. right.
    destruct (best_chunk_origin claim chunks {| best_snippet := EmptyString; best_score := 0 |})
      as [Hb|(chunk & Hin & Hb & Hlt)].
    + rewrite Hb in E. discriminate.
    + exists u, chunks, chunk. rewrite Hb. cbn [best_snippet best_score] in *.
      split; [by left|]. by repeat split.
  - right. exists u', chunks', chunk. split; [by right|exact Hrest].
Qed.

(** X10: [verifyClaims] returns one record per claim, in the order of the
    claims and with the text of each; a record cites at most 3 pieces of
    evidence, and each of them is the first 280 code units of a chunk of
    the source whose URL it carries, a chunk that shares a token with the
    claim. *)
Theorem verifyClaims_records_cite_sources
    (createId : nat -> string) (claims : list string) (sources : list EvidenceSource) :
  claim <$> verifyClaims createId claims sources = claims
  /\ Forall (fun r => (length (evidence r) <= 3)%nat
                      /\ Forall (cites (claim r) sources) (evidence r))
            (verifyClaims createId claims sources).
Proof.
  unfold verifyClaims. split.
  - rewrite fmap_imap. apply list_eq. intros i.
    rewrite list_lookup_imap. by destruct (claims !! i).
  - apply Forall_forall. intros r Hr.
    apply elem_of_lookup_imap_1 in Hr as (k & c & -> & _).
    unfold verify_one. cbn [evidence claim].
    set (scs := (fun s => (url s, chunkText (text s))) <$> sources).
    split.
    + rewrite length_fmap, slice_list_prefix by lia. rewrite length_take. lia.
    + apply Forall_forall. intros e He.
      apply list_elem_of_fmap in He as (se & -> & Hse).
      assert (Hin : se ∈ score_sources c scs []).
      { apply (proj1 (sort_desc_elem _ _)).
        eapply elem_of_sublist; [exact Hse|apply slice_list_sublist]. }
      apply score_sources_origin in Hin
        as [Hin|(u & chunks & chunk & Hsc & Hch & Hu & Hsn & _ & Hpos)];
        [by apply elem_of_nil in Hin|].
      apply list_elem_of_fmap in Hsc as (s & [= -> ->] & Hs).
      exists s, chunk. cbn [fst snd]. by repeat split.
Qed.

(** ** The verifier: how many hits a label needs *)

(** A quotient of counts that is at most [c / 8] is still at most [c / 8]
    once rounded to a double: [c / 8] is a double itself. *)
Lemma to_double_le_eighths (a : Z) (b : BinNums.positive) (c : Z) :
  0 < a -> 0 < c < 8 -> a * 8 <= c * Zpos b -> (to_double (a # b) <= c # 8)%Q.
Proof.
  intros Ha Hc Hab. unfold to_double. cbn [Qnum Qden].
  rewrite (Z.abs_eq a) by lia.
  destruct (a =? 0) eqn:Ha0; [apply Z.eqb_eq in Ha0; lia|].
  rewrite Qred_correct.
  assert (Hlt : a < Zpos b) by nia.
  assert (Hlog : Z.log2 a <= Z.log2 (Zpos b)) by (apply Z.log2_le_mono; lia).
  set (k0 := Z.log2 a - Z.log2 (Zpos b)) in *.
  set (k := if 0 <=? k0
            then (if Zpos b * 2 ^ k0 <=? a then k0 else k0 - 1)
            else (if Zpos b <=? a * 2 ^ (- k0) then k0 else k0 - 1)).
  assert (Hk : k <= -1).
  { unfold k. destruct (0 <=? k0) eqn:E.
    - apply Z.leb_le in E. assert (k0 = 0) by lia.
      replace k0 with 0 by lia. change (2 ^ 0) with 1.
      destruct (Zpos b * 1 <=? a) eqn:E'; [apply Z.leb_le in E'; lia|lia].
    - apply Z.leb_gt in E. destruct (_ <=? _); lia. }
  set (s := 52 - k).
  assert (Hs : 53 <= s) by (unfold s; lia).
  destruct (0 <=? s) eqn:Hs0; [|apply Z.leb_gt in Hs0; lia].
  assert (Hpow : 2 ^ s = 8 * 2 ^ (s - 3)).
  { replace s with (3 + (s - 3)) at 1 by lia. rewrite Z.pow_add_r by lia. reflexivity. }
  assert (HP : 0 < 2 ^ (s - 3)) by (apply Z.pow_pos_nonneg; lia).
  set (P := 2 ^ (s - 3)) in *.
  set (N := a * 2 ^ s). set (D := Zpos b).
  assert (HD : 0 < D) by reflexivity.
  pose proof (Z.div_mod N D ltac:(lia)) as Hdm.
  pose proof (Z.mod_pos_bound N D HD) as Hr.
  assert (HN : N <= c * P * D) by (unfold N, D; rewrite Hpow; nia).
  set (m := if (D <? 2 * (N mod D)) || ((2 * (N mod D) =? D) && Z.odd (N / D))
            then N / D + 1 else N / D).
  assert (Hm : m <= c * P).
  { assert (Hm0 : N / D <= c * P) by (apply Z.div_le_upper_bound; [lia|nia]).
    unfold m. destruct (_ || _) eqn:E; [|exact Hm0].
    destruct (Z.eq_dec (N / D) (c * P)) as [Heq|Hne]; [|lia].
    exfalso. assert (Hr0 : N mod D = 0) by nia.
    rewrite Hr0 in E. cbn in E.
    destruct (D <? 0) eqn:E1; [apply Z.ltb_lt in E1; lia|].
    destruct (0 =? D) eqn:E2; [apply Z.eqb_eq in E2; lia|]. discriminate. }
  unfold Qle. cbn [Qnum Qden]. rewrite Z.sgn_pos by exact Ha.
  rewrite Z2Pos.id by (rewrite Hpow; lia). rewrite Hpow. fold P. nia.
Qed.

Lemma div_counts_le_eighths hit d c :
  0 <= hit -> 8 <= d -> 0 < c < 8 -> hit <= c -> (div_counts hit d <= c # 8)%Q.
Proof.
  intros Hhit Hd Hc Hle.
  destruct (Z.eq_dec hit 0) as [->|Hne].
  - rewrite div_counts_zero. unfold Qle. cbn [Qnum Qden]. lia.
  - unfold div_counts. apply to_double_le_eighths; [lia|exact Hc|].
    rewrite Z2Pos.id by lia. nia.
Qed.

(** X11: a chunk is scored "supported" for a claim only when at least 6 of
    its tokens, every occurrence counted, are tokens of the claim, and it
    is scored above "unsupported" only when at least 4 are: the divisor of
    the score is never less than 8. *)
Theorem overlapScore_label_needs_hits (claim chunk : string) :
  let hits :=
    length (filter (fun w => w ∈ (list_to_set (normalizeTokens claim) : gset string))
                   (normalizeTokens chunk)) in
  (labelFromScore (overlapScore claim chunk) = supported -> (6 <= hits)%nat)
  /\ (labelFromScore (overlapScore claim chunk) <> unsupported -> (4 <= hits)%nat).
Proof.
  cbn zeta.
  set (ct := list_to_set (normalizeTokens claim) : gset string).
  set (hits := length (filter (fun w => w ∈ ct) (normalizeTokens chunk))).
  assert (Hscore : forall c, 0 < c < 8 -> (hits <= Z.to_nat c)%nat ->
                             (overlapScore claim chunk <= c # 8)%Q).
  { intros c Hc Hle. unfold overlapScore. fold ct.
    destruct ((size ct =? 0)%nat || (length (normalizeTokens chunk) =? 0)%nat).
    - unfold Qle. cbn. lia.
    - rewrite count_hits_filter. fold hits. unfold min_one.
      destruct (Qle_bool 1 _) eqn:E.
      + apply Qle_bool_iff in E.
        assert (H : (div_counts (0 + Z.of_nat hits) (Z.max 8 (Z.of_nat (size ct))) <= c # 8)%Q)
          by (apply div_counts_le_eighths; lia).
        exfalso. assert (Hlt : (c # 8 < 1)%Q) by (unfold Qlt; cbn; lia).
        apply (Qlt_irrefl 1). eapply Qle_lt_trans; [exact E|].
        eapply Qle_lt_trans; [exact H|exact Hlt].
      + apply div_counts_le_eighths; lia. }
  pose proof (labelFromScore_bands (overlapScore claim chunk)) as Hband.
  split.
  - intros Hl. rewrite Hl in Hband.
    destruct (le_lt_dec 6 hits) as [H|H]; [exact H|exfalso].
    assert (Hle : (overlapScore claim chunk <= 5 # 8)%Q) by (apply Hscore; lia).
    assert (Hlit : (5 # 8 < lit_075)%Q) by reflexivity.
    apply (Qlt_irrefl lit_075). eapply Qle_lt_trans; [exact Hband|].
    eapply Qle_lt_trans; [exact Hle|exact Hlit].
  - intros Hl.
    destruct (le_lt_dec 4 hits) as [H|H]; [exact H|exfalso].
    assert (Hle : (overlapScore claim chunk <= 3 # 8)%Q) by (apply Hscore; lia).
    assert (Hlit : (3 # 8 < lit_045)%Q) by reflexivity.
    assert (Hlit' : (lit_045 <= lit_075)%Q) by (apply Qlt_le_weak, lit_045_lt_075).
    destruct (labelFromScore (overlapScore claim chunk)); [| |congruence].
    + apply (Qlt_irrefl lit_045). eapply Qle_lt_trans; [exact Hlit'|].
      eapply Qle_lt_trans; [exact Hband|]. eapply Qle_lt_trans; [exact Hle|exact Hlit].
    + destruct Hband as [Hband _].
      apply (Qlt_irrefl lit_045). eapply Qle_lt_trans; [exact Hband|].
      eapply Qle_lt_trans; [exact Hle|exact Hlit].
Qed.

(** ** The verifier: records without evidence *)

Lemma overlapScore_no_tokens claim chunk :
  normalizeTokens claim = [] -> overlapScore claim chunk = 0%Q.
Proof.
  intros H. unfold overlapScore. rewrite H, list_to_set_nil, size_empty. reflexivity.
Qed.

(** X12: a record that cites no evidence has score 0 and label
    "unsupported"; and a record cites no evidence when there is no source,
    or when its claim has no token, that is no run of 4 or more letters
    and digits. *)
Theorem verifyClaims_without_evidence
    (createId : nat -> string) (claims : list string) (sources : list EvidenceSource) :
  Forall (fun r =>
            (evidence r = [] -> score r = 0%Q /\ label r = unsupported)
            /\ (sources = [] \/ normalizeTokens (claim r) = [] -> evidence r = []))
         (verifyClaims createId claims sources).
Proof.
  unfold verifyClaims. apply Forall_forall. intros r Hr.
  apply elem_of_lookup_imap_1 in Hr as (k & c & -> & _).
  unfold verify_one. cbn [evidence claim score label].
  set (scs := (fun s => (url s, chunkText (text s))) <$> sources).
  split.
  - intros H. apply fmap_nil_inv in H. rewrite H. split; reflexivity.
  - intros H.
    assert (Hnone : score_sources c scs [] = []).
    { destruct (score_sources c scs []) as [|e l] eqn:E; [reflexivity|exfalso].
      assert (Hin : e ∈ score_sources c scs []) by (rewrite E; by left).
      apply score_sources_origin in Hin
        as [Hin|(u & chunks & chunk & Hsc & _ & _ & _ & _ & Hpos)];
        [by apply elem_of_nil in Hin|].
      destruct H as [->|H].
      - by apply elem_of_nil in Hsc.
      - rewrite (overlapScore_no_tokens _ _ H) in Hpos. by apply Qlt_irrefl in Hpos. }
    rewrite Hnone. reflexivity.
Qed.

(** ** The retriever: what a selection round keeps *)

Section SelectUrlsComplete.

Variable hostname : string -> Exn string.

Lemma selectUrls_loop_order max :
  forall results seen selected,
    exists picked,
      selectUrls_loop hostname results max seen selected = selected ++ picked
      /\ sel_url <$> picked `sublist_of` link <$> results.
Proof.
  induction results as [|r rest IH]; intros seen selected; cbn [selectUrls_loop].
  - exists []. by rewrite app_nil_r.
  - assert (Hskip : exists picked,
               selectUrls_loop hostname rest max seen selected = selected ++ picked
               /\ sel_url <$> picked `sublist_of` link <$> r :: rest).
    { destruct (IH seen selected) as (picked & -> & Hsub).
      exists picked. split; [reflexivity|]. rewrite fmap_cons. by apply sublist_cons. }
    destruct (domainOf hostname (link r)) as [d|e]; [|exact Hskip].
    destruct (decide (d ∈ seen)); [exact Hskip|].
    destruct (snippet_too_short r); [exact Hskip|]. cbn zeta.
    set (new := {| sel_url := link r; reason := select_reason |}).
    destruct (max <=? _).
    + exists [new]. split; [reflexivity|]. rewrite fmap_cons. cbn [fmap list_fmap sel_url].
      apply sublist_skip, sublist_nil_l.
    + destruct (IH ({[d]} ∪ seen) (selected ++ [new])) as (picked & -> & Hsub).
      exists (new :: picked). rewrite <- app_assoc. split; [reflexivity|].
      rewrite !fmap_cons. by apply sublist_skip.
Qed.

Lemma selectUrls_loop_complete max :
  forall results seen selected,
    (forall d, d ∈ seen ->
       exists s, s ∈ selected /\ domainOf hostname (sel_url s) = Ok d) ->
    let out := selectUrls_loop hostname results max seen selected in
    Z.of_nat (length out) < max ->
    forall r d, r ∈ results -> eligible hostname r d ->
      exists s, s ∈ out /\ domainOf hostname (sel_url s) = Ok d.
Proof.
  induction results as [|r rest IH]; intros seen selected Hseen; cbn zeta.
  - intros _ r d Hr. by apply elem_of_nil in Hr.
  - cbn [selectUrls_loop].
    assert (Hpre : forall s, s ∈ selected ->
                     s ∈ selectUrls_loop hostname rest max seen selected).
    { intros s Hs. destruct (selectUrls_loop_order max rest seen selected) as (picked & -> & _).
      apply elem_of_app. by left. }
    destruct (domainOf hostname (link r)) as [d|e] eqn:Hd.
    2:{ intros Hlen r' d' Hr' [Hd' Hsn'].
        apply elem_of_cons in Hr' as [->|Hr']; [congruence|].
        by apply (IH seen selected Hseen Hlen r' d' Hr'). }
    destruct (decide (d ∈ seen)) as [Hin|Hout].
    { intros Hlen r' d' Hr' [Hd' Hsn'].
      apply elem_of_cons in Hr' as [->|Hr'].
      - rewrite Hd in Hd'. injection Hd' as <-.
        destruct (Hseen d Hin) as (s & Hs & Hsd). exists s. split; [by apply Hpre|exact Hsd].
      - by apply (IH seen selected Hseen Hlen r' d' Hr'). }
    destruct (snippet_too_short r) eqn:Hsn.
    { intros Hlen r' d' Hr' [Hd' Hsn'].
      apply elem_of_cons in Hr' as [->|Hr']; [congruence|].
      by apply (IH seen selected Hseen Hlen r' d' Hr'). }
    cbn zeta. set (new := {| sel_url := link r; reason := select_reason |}).
    destruct (max <=? Z.of_nat (length (selected ++ [new]))) eqn:Hmax.
    { apply Z.leb_le in Hmax. intros Hlen. lia. }
    assert (Hseen' : forall d0, d0 ∈ {[d]} ∪ seen ->
               exists s, s ∈ selected ++ [new] /\ domainOf hostname (sel_url s) = Ok d0).
    { intros d0 Hd0. apply elem_of_union in Hd0 as [Hd0|Hd0].
      - apply elem_of_singleton in Hd0 as ->. exists new. split; [|exact Hd].
        apply elem_of_app. right. by left.
      - destruct (Hseen d0 Hd0) as (s & Hs & Hsd). exists s. split; [|exact Hsd].
        apply elem_of_app. by left. }
    intros Hlen r' d' Hr' [Hd' Hsn'].
    apply elem_of_cons in Hr' as [->|Hr'].
    + rewrite Hd in Hd'. injection Hd' as <-. exists new. split; [|exact Hd].
      destruct (selectUrls_loop_order max rest ({[d]} ∪ seen) (selected ++ [new]))
        as (picked & -> & _).
      apply elem_of_app. left. apply elem_of_app. right. by left.
    + by apply (IH _ _ Hseen' Hlen r' d' Hr').
Qed.

End SelectUrlsComplete.

(** X13: a selection round keeps the order of the search results: the
    selected URLs are links of the results, in the order of the results;
    and as long as fewer than [max] URLs are selected, no domain is passed
    over: every result whose link has a hostname and whose snippet has 30
    code units or more has its normalized domain among those of the
    selected URLs. *)
Theorem selectUrls_in_order_and_complete
    (hostname : string -> Exn string) (results : list SearchResult) (max : Z) :
  let out := selectUrls hostname results max in
  sel_url <$> out `sublist_of` link <$> results
  /\ (Z.of_nat (length out) < max ->
      forall r d, r ∈ results -> eligible hostname r d ->
        exists s, s ∈ out /\ domainOf hostname (sel_url s) = Ok d).
Proof.
  cbn zeta. unfold selectUrls. split.
  - destruct (selectUrls_loop_order hostname max results ∅ []) as (picked & -> & Hsub).
    exact Hsub.
  - apply selectUrls_loop_complete. intros d Hd. by apply elem_of_empty in Hd.
Qed.

(** ** The retriever: failures *)

Lemma select_phase_throws hostname opts e :
  forall intents replies tr tasks,
    select_phase hostname intents replies opts tr tasks = Some (Throw e)
    <-> exists k, (k < length intents)%nat
                  /\ replies !! k = Some (Throw e)
                  /\ forall j, (j < k)%nat -> exists rs, replies !! j = Some (Ok rs).
Proof.
  induction intents as [|q intents' IH]; intros replies tr tasks; cbn [select_phase].
  - split; [discriminate|]. intros (k & Hk & _). cbn in Hk. lia.
  - destruct replies as [|[results|e'] replies'].
    + split; [discriminate|]. intros (k & _ & Hk & _). discriminate.
    + rewrite IH. split.
      * intros (k & Hk & Hth & Hok). exists (S k). cbn [length]. split; [lia|].
        split; [exact Hth|]. intros [|j] Hj; [by exists results|].
        apply Hok. lia.
      * intros (k & Hk & Hth & Hok). destruct k as [|k]; [discriminate|].
        exists k. cbn [length] in Hk. split; [lia|]. split; [exact Hth|].
        intros j Hj. apply (Hok (S j)). lia.
    + split.
      * intros [= ->]. exists 0%nat. cbn [length]. split; [lia|]. split; [reflexivity|].
        intros j Hj. lia.
      * intros (k & Hk & Hth & Hok). destruct k as [|k].
        -- cbn in Hth. congruence.
        -- destruct (Hok 0%nat ltac:(lia)) as [rs Hrs]. discriminate.
Qed.

(** X14: a failing search makes [research] fail: when the search of an
    intent throws, the searches of the intents before it having succeeded,
    [research] throws that error, whatever the options and whatever the
    fetches would have given. *)
Theorem research_search_error_propagates
    (hostname : string -> Exn string) (intents : list string)
    (opts : ResearchOptions) (env : Env) (e : Error) (k : nat) :
  (k < length intents)%nat ->
  searchReplies env !! k = Some (Throw e) ->
  (forall j, (j < k)%nat -> exists rs, searchReplies env !! j = Some (Ok rs)) ->
  research hostname intents opts env = Some (Throw e).
Proof.
  intros Hk Hth Hok.
  assert (Hsel : select_phase hostname intents (searchReplies env) opts [] []
                 = Some (Throw e)).
  { apply select_phase_throws. exists k. by repeat split. }
  unfold research, fetch_phase. by rewrite Hsel.
Qed.

(** The second of two searches fails: no page is fetched, although the
    schedule has a page ready. *)
Lemma research_search_error_propagates_witness :
  research url_hostname ["solar power"; "solar power history"] opts_default
    env_second_search_fails
  = Some (Throw UpstreamError).
Proof.
  apply (research_search_error_propagates _ _ _ _ _ 1%nat).
  - cbn. lia.
  - reflexivity.
  - intros [|j] Hj; [|lia]. by eexists.
Defined.

(** ** The retriever: what the workers keep *)

Lemma pending_fetch_insert (l : list WorkerState) w old new :
  l !! w = Some old ->
  (<[w := new]> l ≫= pending_fetch) ++ pending_fetch old
  ≡ₚ (l ≫= pending_fetch) ++ pending_fetch new.
Proof.
  intros H. rewrite insert_take_drop by (eapply lookup_lt_Some; exact H).
  rewrite <- (take_drop_middle l w old H) at 3.
  rewrite !bind_app, !bind_cons. solve_Permutation.
Qed.

Section PoolTasks.

Variable hostname : string -> Exn string.
Variable tasks : list Selected.
Variable opts : ResearchOptions.
Variable deadline : Z.
Variable tr0 : list TraceEvent.

Lemma pool_inv_set_worker w st p old :
  workers p !! w = Some old ->
  pending_fetch old = [] -> pending_fetch st = [] -> holds_task_of tasks st ->
  pool_inv hostname tasks tr0 p -> pool_inv hostname tasks tr0 (set_worker w st p).
Proof.
  intros Hw Hold Hst Hholds (Hidx & (fetched & Htr & Hperm) & Hws & Hsrc).
  unfold pool_inv, set_worker. cbn [idx trace workers sources].
  split; [exact Hidx|]. split; [|split; [by apply Forall_insert|exact Hsrc]].
  exists fetched. split; [exact Htr|].
  pose proof (pending_fetch_insert (workers p) w old st Hw) as H.
  rewrite Hold, Hst, !app_nil_r in H. by rewrite H.
Qed.

Lemma pool_inv_tick now p : pool_inv hostname tasks tr0 p -> pool_inv hostname tasks tr0 (tick now p).
Proof. intros H. exact H. Qed.

Lemma exec_pool_inv ev p p' :
  exec hostname tasks opts deadline ev p = Some p' -> pool_inv hostname tasks tr0 p -> pool_inv hostname tasks tr0 p'.
Proof.
  unfold exec. destruct (event_time ev <? clock p); [discriminate|].
  intros H Hinv. apply (pool_inv_tick (event_time ev)) in Hinv.
  set (q := tick (event_time ev) p) in *. clearbody q.
  destruct ev as [w now|w page now|w doc now].
  - destruct (workers q !! w) as [[| | |]|] eqn:Hw; try discriminate.
    injection H as <-. unfold run_head.
    destruct (tasks !! idx q) as [cur|] eqn:Hcur;
      [|by apply (pool_inv_set_worker w Returned q AtHead)].
    destruct (deadline <? now); [by apply (pool_inv_set_worker w Returned q AtHead)|].
    destruct (enoughEvidence opts (sources q));
      [by apply (pool_inv_set_worker w Returned q AtHead)|].
    destruct Hinv as (Hidx & (fetched & Htr & Hperm) & Hws & Hsrc).
    unfold pool_inv. cbn [idx trace workers sources].
    split; [apply lookup_lt_Some in Hcur; lia|].
    split; [|split; [|exact Hsrc]].
    + exists fetched. split; [exact Htr|].
      rewrite (take_S_r _ _ _ Hcur), fmap_app. cbn [fmap list_fmap].
      pose proof (pending_fetch_insert (workers q) w AtHead (AwaitFetch cur) Hw) as H.
      cbn [pending_fetch] in H. rewrite app_nil_r in H. rewrite H.
      rewrite app_assoc. by rewrite Hperm.
    + apply Forall_insert; [exact Hws|]. cbn. eapply list_elem_of_lookup_2, Hcur.
  - destruct (workers q !! w) as [[|cur| |]|] eqn:Hw; try discriminate.
    injection H as <-. unfold run_fetched.
    destruct Hinv as (Hidx & (fetched & Htr & Hperm) & Hws & Hsrc).
    assert (Hcur : cur ∈ tasks).
    { rewrite Forall_forall in Hws. apply (Hws (AwaitFetch cur)).
      eapply list_elem_of_lookup_2, Hw. }
    set (q' := {| idx := idx q; sources := sources q;
                  trace := trace q ++ [TrFetch (sel_url cur) (status page)];
                  clock := clock q; workers := workers q |}).
    assert (Hany : forall st, pending_fetch st = [] -> holds_task_of tasks st ->
                              pool_inv hostname tasks tr0 (set_worker w st q')).
    { intros st Hst Hholds. subst q'. unfold pool_inv, set_worker.
      cbn [idx trace workers sources].
      split; [exact Hidx|]. split; [|split; [by apply Forall_insert|exact Hsrc]].
      exists (fetched ++ [(sel_url cur, status page)]). split.
      - rewrite Htr, fmap_app, app_assoc. reflexivity.
      - rewrite fmap_app. cbn [fmap list_fmap fst].
        pose proof (pending_fetch_insert (workers q) w (AwaitFetch cur) st Hw) as H.
        rewrite Hst, app_nil_r in H. cbn [pending_fetch] in H.
        rewrite <- Hperm, <- H. solve_Permutation. }
    destruct (deadline <? now); [by apply Hany|].
    destruct (_ || _); [by apply Hany|].
    destruct (negb _); [by apply Hany|].
    destruct (html page =? "")%string; by apply Hany.
  - destruct (workers q !! w) as [[| |cur|]|] eqn:Hw; try discriminate.
    injection H as <-. unfold run_extracted.
    assert (Hcur : cur ∈ tasks).
    { destruct Hinv as (_ & _ & Hws & _). rewrite Forall_forall in Hws.
      apply (Hws (AwaitExtract cur)). eapply list_elem_of_lookup_2, Hw. }
    destruct doc as [d|e]; [|by apply (pool_inv_set_worker w AtHead q (AwaitExtract cur))].
    destruct ((doc_text d =? "")%string || (JS.len (doc_text d) <? 300)) eqn:Hd;
      [by apply (pool_inv_set_worker w AtHead q (AwaitExtract cur))|].
    destruct (domainOf hostname (sel_url cur)) as [dom|e] eqn:Hdom;
      [|by apply (pool_inv_set_worker w AtHead q (AwaitExtract cur))].
    apply (pool_inv_set_worker w AtHead _ (AwaitExtract cur)); [exact Hw|done|done|done|].
    destruct Hinv as (Hidx & Hfetched & Hws & Hsrc).
    unfold pool_inv. cbn [idx trace workers sources].
    split; [exact Hidx|]. split; [exact Hfetched|]. split; [exact Hws|].
    apply Forall_app. split; [exact Hsrc|]. apply Forall_singleton.
    unfold source_from. cbn [text url domain].
    apply orb_false_iff in Hd as [_ Hd]. apply Z.ltb_ge in Hd.
    split; [exact Hd|]. split; [|exact Hdom].
    apply list_elem_of_fmap. by exists cur.
Qed.

Lemma run_events_pool_inv evs p p' :
  run_events hostname tasks opts deadline evs p = Some p' -> pool_inv hostname tasks tr0 p -> pool_inv hostname tasks tr0 p'.
Proof.
  revert p. induction evs as [|ev evs IH]; intros p; cbn [run_events].
  - by intros [= <-].
  - destruct (exec hostname tasks opts deadline ev p) as [q|] eqn:E; [|discriminate].
    intros H Hinv. apply (IH q H). by apply (exec_pool_inv ev p).
Qed.

End PoolTasks.

Lemma select_phase_trace hostname opts :
  forall intents replies tr tasks tr' tasks',
    select_phase hostname intents replies opts tr tasks = Some (Ok (tr', tasks')) ->
    searched_queries tr' = searched_queries tr ++ intents
    /\ fetched_urls tr' = fetched_urls tr.
Proof.
  induction intents as [|q intents' IH]; intros replies tr tasks tr' tasks';
    cbn [select_phase].
  - intros [= <- <-]. by rewrite app_nil_r.
  - destruct replies as [|[results|e] replies']; try discriminate.
    intros H. apply IH in H as (Hs & Hf).
    unfold searched_queries, fetched_urls in *. rewrite omap_app in Hs, Hf.
    cbn in Hs, Hf. rewrite app_nil_r in Hf. rewrite <- app_assoc in Hs.
    by split.
Qed.

Lemma select_phase_tasks hostname opts all :
  forall intents replies tr tasks tr' tasks',
    replies ⊆ all ->
    select_phase hostname intents replies opts tr tasks = Some (Ok (tr', tasks')) ->
    Forall (found_by all) tasks -> Forall (found_by all) tasks'.
Proof.
  induction intents as [|q intents' IH]; intros replies tr tasks tr' tasks' Hsub;
    cbn [select_phase].
  - by intros [= <- <-].
  - destruct replies as [|[results|e] replies']; try discriminate.
    intros H Hall. eapply IH; [|exact H|].
    + intros x Hx. apply Hsub. by right.
    + apply Forall_app. split; [exact Hall|].
      pose proof (selectUrls_spec hostname results (perIntentUrls opts))
        as (_ & _ & Hinf & _). cbn zeta in Hinf.
      eapply Forall_impl; [exact Hinf|]. intros s Hs. exists results.
      split; [|exact Hs]. apply Hsub. by left.
Qed.

Lemma replicate_pending n : replicate n AtHead ≫= pending_fetch = [].
Proof. induction n as [|n IH]; [reflexivity|]. cbn. exact IH. Qed.

Lemma all_returned_pending p : all_returned p = true -> workers p ≫= pending_fetch = [].
Proof.
  unfold all_returned. induction (workers p) as [|st l IH]; [reflexivity|].
  cbn [forallb]. intros H. apply andb_true_iff in H as [Hst Hl].
  destruct st; try discriminate. rewrite bind_cons. cbn [pending_fetch app]. by apply IH.
Qed.

(** What a complete call leaves, in terms of its tasks. *)
Lemma research_pool hostname intents opts env r :
  research hostname intents opts env = Some (Ok r) ->
  exists tr p,
    select_phase hostname intents (searchReplies env) opts [] []
    = Some (Ok (tr, research_tasks hostname intents opts env))
    /\ pool_inv hostname (research_tasks hostname intents opts env) tr p
    /\ workers p ≫= pending_fetch = []
    /\ res_trace r = trace p ++ [TrTiming (finishMs env - startMs env)]
    /\ res_sources r = JS.slice_list (dedupe (sources p)) 0 (maxSources opts).
Proof.
  unfold research, fetch_phase, research_tasks.
  destruct (select_phase hostname intents (searchReplies env) opts [] [])
    as [[[tr tasks]|e]|] eqn:Hsel; try discriminate.
  destruct (run_events _ _ _ _ _ _) as [p|] eqn:Hrun; [|discriminate].
  destruct (finishMs env <? clock p); [discriminate|].
  destruct (all_returned p) eqn:Hret; [|discriminate].
  intros [= <-]. exists tr, p. cbn [res_trace res_sources].
  split; [reflexivity|]. split; [|split; [by apply all_returned_pending|by split]].
  eapply run_events_pool_inv; [exact Hrun|].
  unfold pool_inv, initial_pool. cbn [idx trace workers sources].
  split; [lia|]. split; [|split; [|constructor]].
  - exists []. cbn. split; [by rewrite app_nil_r|]. by rewrite replicate_pending.
  - apply Forall_replicate. exact I.
Qed.

(** X15: in the trace of a [research] call that returns, the search events
    are those of the intents, in order; the URLs of the fetch events are,
    up to their order, those of the first [n] tasks for some [n]: the tasks
    are taken in order and each is fetched once; and the trace ends with
    the timing event of the call. *)
Theorem research_trace_fetches_tasks_once
    (hostname : string -> Exn string) (intents : list string)
    (opts : ResearchOptions) (env : Env) (r : ResearchResult) :
  research hostname intents opts env = Some (Ok r) ->
  searched_queries (res_trace r) = intents
  /\ (exists n, (n <= length (research_tasks hostname intents opts env))%nat
                /\ fetched_urls (res_trace r)
                   ≡ₚ sel_url <$> take n (research_tasks hostname intents opts env))
  /\ last (res_trace r) = Some (TrTiming (finishMs env - startMs env)).
Proof.
  intros H. destruct (research_pool _ _ _ _ _ H)
    as (tr & p & Hsel & (Hidx & (fetched & Htr & Hperm) & _ & _) & Hpend & Hres & _).
  destruct (select_phase_trace _ _ _ _ _ _ _ _ Hsel) as [Hq Hf].
  rewrite Hres, Htr.
  assert (Hsf : searched_queries ((fun x => TrFetch x.1 x.2) <$> fetched) = []).
  { clear. induction fetched as [|x l IH]; [reflexivity|exact IH]. }
  assert (Hff : fetched_urls ((fun x => TrFetch x.1 x.2) <$> fetched) = fetched.*1).
  { clear. induction fetched as [|x l IH]; [reflexivity|]. cbn. f_equal. exact IH. }
  unfold searched_queries, fetched_urls in *. rewrite !omap_app.
  rewrite Hq, Hf, Hsf, Hff. cbn [omap list_omap app]. rewrite !app_nil_r.
  split; [reflexivity|]. split; [|by rewrite last_snoc].
  exists (idx p). split; [exact Hidx|].
  rewrite Hpend, app_nil_r in Hperm. exact Hperm.
Qed.

(** One call with two tasks, fetched in the reverse order. *)
Lemma research_trace_fetches_tasks_once_witness :
  exists r,
    research url_hostname ["q"] opts_default env_two_equal_pages = Some (Ok r)
    /\ searched_queries (res_trace r) = ["q"]
    /\ fetched_urls (res_trace r) = ["http://b.org"; "https://www.a.com/x"].
Proof.
  eexists. split; [vm_compute; reflexivity|].
  split; [|vm_compute; reflexivity].
  match goal with
  | |- searched_queries (res_trace ?r) = _ =>
      exact (proj1 (research_trace_fetches_tasks_once url_hostname ["q"] opts_default
                      env_two_equal_pages r ltac:(vm_compute; reflexivity)))
  end.
Defined.

(** X16: every source [research] returns was built from a selected URL:
    its URL is the link of a search result of the call whose snippet has 30
    code units or more, its domain is the normalized hostname of that URL,
    and its text has 300 code units or more. *)
Theorem research_sources_come_from_search
    (hostname : string -> Exn string) (intents : list string)
    (opts : ResearchOptions) (env : Env) (r : ResearchResult) :
  research hostname intents opts env = Some (Ok r) ->
  Forall (fun s =>
            300 <= JS.len (text s)
            /\ domainOf hostname (url s) = Ok (domain s)
            /\ exists t, t ∈ research_tasks hostname intents opts env
                         /\ url s = sel_url t
                         /\ found_by (searchReplies env) t)
         (res_sources r).
Proof.
  intros H. destruct (research_pool _ _ _ _ _ H)
    as (tr & p & Hsel & (_ & _ & _ & Hsrc) & _ & _ & Hres).
  assert (Htasks : Forall (found_by (searchReplies env))
                     (research_tasks hostname intents opts env)).
  { eapply select_phase_tasks; [|exact Hsel|constructor]. done. }
  rewrite Hres. apply Forall_forall. intros s Hs.
  assert (Hin : s ∈ sources p).
  { eapply elem_of_sublist; [|apply dedupe_go_sublist].
    eapply elem_of_sublist; [exact Hs|apply slice_list_sublist]. }
  rewrite Forall_forall in Hsrc. destruct (Hsrc s Hin) as (Hlen & Hurl & Hdom).
  split; [exact Hlen|]. split; [exact Hdom|].
  apply list_elem_of_fmap in Hurl as (t & Ht & Hin').
  exists t. split; [exact Hin'|]. split; [exact Ht|].
  rewrite Forall_forall in Htasks. by apply Htasks.
Qed.

(** The call of the example returns the page of b.org. *)
Lemma research_sources_come_from_search_witness :
  exists r s,
    research url_hostname ["q"] opts_default env_two_equal_pages = Some (Ok r)
    /\ res_sources r = [s]
    /\ domainOf url_hostname (url s) = Ok (domain s).
Proof.
  eexists. eexists. split; [vm_compute; reflexivity|]. split; [reflexivity|].
  match goal with
  | |- domainOf _ (url ?s) = _ =>
      pose proof (research_sources_come_from_search url_hostname ["q"] opts_default
                    env_two_equal_pages _ ltac:(vm_compute; reflexivity)) as H
  end.
  cbn [res_sources] in H. apply Forall_cons in H as [(_ & H & _) _]. exact H.
Defined.

Lemma run_events_no_worker hostname tasks opts deadline evs p p' :
  workers p = [] ->
  run_events hostname tasks opts deadline evs p = Some p' -> p' = p.
Proof.
  intros Hw. destruct evs as [|ev evs]; cbn [run_events]; [by intros [= <-]|].
  unfold exec. destruct (event_time ev <? clock p); [discriminate|].
  destruct ev; cbn [tick workers]; rewrite Hw; discriminate.
Qed.

(** X17: with a concurrency of 0 or less, or when no URL was selected, no
    worker is started: a [research] call that returns has fetched nothing
    and returns no source, whatever the budget. *)
Theorem research_without_workers
    (hostname : string -> Exn string) (intents : list string)
    (opts : ResearchOptions) (env : Env) (r : ResearchResult) :
  research hostname intents opts env = Some (Ok r) ->
  concurrency opts <= 0 \/ research_tasks hostname intents opts env = [] ->
  res_sources r = [] /\ fetched_urls (res_trace r) = [].
Proof.
  unfold research, fetch_phase, research_tasks.
  destruct (select_phase hostname intents (searchReplies env) opts [] [])
    as [[[tr tasks]|e]|] eqn:Hsel; try discriminate.
  destruct (run_events _ _ _ _ _ _) as [p|] eqn:Hrun; [|discriminate].
  destruct (finishMs env <? clock p); [discriminate|].
  destruct (all_returned p); [|discriminate].
  intros [= <-] Hnone. cbn [res_sources res_trace].
  assert (Hcount : worker_count opts tasks = 0%nat).
  { unfold worker_count. destruct Hnone as [Hc| ->]; [lia|]. cbn [length]. lia. }
  rewrite Hcount in Hrun. apply run_events_no_worker in Hrun; [|reflexivity].
  subst p. cbn [initial_pool sources trace]. split.
  { unfold JS.slice_list. cbn [dedupe dedupe_go]. by rewrite drop_nil, take_nil. }
  destruct (select_phase_trace _ _ _ _ _ _ _ _ Hsel) as [_ Hf].
  unfold fetched_urls in *. rewrite omap_app, Hf. reflexivity.
Qed.

(** A call with a concurrency of 0. *)
Lemma research_without_workers_witness :
  research url_hostname ["q"]
    {| budgetMs := 7000; perIntentUrls := 2; concurrency := 0;
       maxSources := 6; minSources := 2 |}
    {| searchReplies := [Ok [result_at "https://a.com/x"]]; startMs := 0;
       schedule := []; finishMs := 1 |}
  = Some (Ok {| res_trace :=
                  [TrSearch "q" 1;
                   TrSelect [{| sel_url := "https://a.com/x"; reason := select_reason |}];
                   TrTiming 1];
                res_sources := [] |})
  /\ fetched_urls
       [TrSearch "q" 1;
        TrSelect [{| sel_url := "https://a.com/x"; reason := select_reason |}];
        TrTiming 1] = [].
Proof.
  assert (E : research url_hostname ["q"]
    {| budgetMs := 7000; perIntentUrls := 2; concurrency := 0;
       maxSources := 6; minSources := 2 |}
    {| searchReplies := [Ok [result_at "https://a.com/x"]]; startMs := 0;
       schedule := []; finishMs := 1 |}
  = Some (Ok {| res_trace :=
                  [TrSearch "q" 1;
                   TrSelect [{| sel_url := "https://a.com/x"; reason := select_reason |}];
                   TrTiming 1];
                res_sources := [] |})) by (vm_compute; reflexivity).
  split; [exact E|].
  exact (proj2 (research_without_workers _ _ _ _ _ E ltac:(left; cbn; lia))).
Defined.

(** ** The chat handler: the events of a response *)

Lemma final_text_tokens env :
  exists l, (final_text env).1 = SseToken <$> l.
Proof.
  unfold final_text. destruct (run_stream env) as [tokens broke].
  destruct broke as [e|]; [by exists tokens|].
  destruct (nonempty (JS.trim (concat_strings tokens))); [by exists tokens|].
  destruct (run_fallback env) as [fb|e]; [|by exists tokens].
  destruct (if nonempty (JS.trim fb) then Ok fb else run_fallback_fast env) as [fb2|e];
    [|by exists tokens].
  cbn [fst]. eexists. by rewrite <- fmap_app.
Qed.

Lemma quiet_tokens l : Forall (fun e => terminal e = false) (SseToken <$> l).
Proof. apply Forall_fmap, Forall_forall. by intros. Qed.

Lemma quiet_final_text env tok text :
  final_text env = (tok, text) -> Forall (fun e => terminal e = false) tok.
Proof.
  intros H. destruct (final_text_tokens env) as [l Hl]. rewrite H in Hl. cbn in Hl.
  subst tok. apply quiet_tokens.
Qed.

Lemma quiet_widening hostname m intents env ev :
  Forall (fun e => terminal e = false) ev ->
  Forall (fun e => terminal e = false) (announce_widening hostname m intents env ev).
Proof.
  intros H. unfold announce_widening. destruct (widens _ _ _ _); [|exact H].
  apply Forall_app. split; [exact H|]. by apply Forall_singleton.
Qed.

(** The goals on lists of events that are not terminal. *)
Ltac quiet :=
  repeat first
    [ assumption
    | apply Forall_nil_2
    | apply quiet_tokens
    | apply quiet_widening
    | eapply quiet_final_text; eassumption
    | apply Forall_app; split
    | apply Forall_cons_2; [reflexivity|] ].

Lemma starts_initial m :
  starts m [SseMeta m; SseStatus "Starting..." 0 4; SseToken preamble].
Proof. split; [cbn; lia|]. split; [reflexivity|quiet]. Qed.

Lemma starts_app m ev l :
  starts m ev -> Forall (fun e => terminal e = false) l -> starts m (ev ++ l).
Proof.
  intros (Hlen & Hpre & Hq) Hl. split; [rewrite length_app; lia|].
  split; [by rewrite take_app_le by lia|quiet].
Qed.

Lemma starts_widening hostname m m' intents env ev :
  starts m ev -> starts m (announce_widening hostname m' intents env ev).
Proof.
  intros H. unfold announce_widening. destruct (widens _ _ _ _); [|exact H].
  apply starts_app; [exact H|quiet].
Qed.

Lemma well_formed_failed m ev e calls :
  starts m ev -> well_formed m (failed ev e calls).
Proof.
  intros (Hlen & Hpre & Hq). unfold well_formed, failed. cbn [events answer]. split.
  - by rewrite take_app_le by lia.
  - by exists ev, (SseError e).
Qed.

Lemma well_formed_done m body a calls :
  starts m body ->
  well_formed m {| events := body ++ [SseDone]; answer := Some a; research_calls := calls |}.
Proof.
  intros (Hlen & Hpre & Hq). unfold well_formed. cbn [events answer]. split.
  - by rewrite take_app_le by lia.
  - exists body, SseDone. split; [reflexivity|]. split; [exact Hq|]. by exists a.
Qed.

(** The goals [starts m ev] on the events the handler has written. *)
Ltac starts :=
  repeat first
    [ assumption
    | apply starts_initial
    | apply starts_widening
    | apply starts_app; [|by quiet]
    | split; [cbn [length]; lia|split; [reflexivity|by quiet]] ].

(** The next storage calls of the goal: they succeed or one of them
    fails. *)
Ltac storage_cases H :=
  match goal with
  | |- context [Request.storage_calls ?s ?from ?n] =>
      destruct (Request.storage_calls s from n) as [?k|?e] eqn:H
  end.

(** The outcomes of [Request.finish]: the generation fails, a storage call
    fails, or the answer is cached. *)
Ltac finish_cases :=
  unfold Request.finish;
  destruct (final_text _) as [?tok ?ftext] eqn:?Hft; cbn zeta;
  destruct ftext as [?a|?e];
    [let H := fresh "Hlast" in storage_cases H|];
  intros [= <- <-].

(** The paths of [Request.fresh_run], each with the response it returns. *)
Ltac request_cases :=
  unfold Request.fresh_run;
  (let H := fresh "Hfirst" in storage_cases H); [|intros [= <- <-]];
  [ destruct (planQuery _ _) as [?plan|?e]; [|intros [= <- <-]];
    [ destruct (retrieval_stage _ _ _ _ _ _) as [[?ret|?e]|];
      [|intros [= <- <-]|discriminate];
      [ cbn zeta;
        (let H := fresh "Hrun" in storage_cases H); [|intros [= <- <-]];
        [ destruct (Request.mode _) eqn:?Hmode;
          [ finish_cases
          | destruct (run_draft _) as [?d|?e]; [|intros [= <- <-]];
            [ destruct (JS.slice_list _ 0 4) as [|?c0 ?cs] eqn:?Hsafe;
              [ finish_cases
              | (let H := fresh "Hclaims" in storage_cases H);
                  [finish_cases|intros [= <- <-]] ]
            | ] ]
        | ]
      | ]
    | ]
  | ].

Section RequestProtocol.

Variable hostname : string -> Exn string.
Variable createId : nat -> string.
Variable JSON_stringify : CachedArtifact -> string.
Variable JSON_parse_artifact : string -> Exn CachedArtifact.

Lemma fresh_run_well_formed b env storage research_store ev ck mem resp mem' :
  Request.fresh_run hostname createId JSON_stringify b env storage research_store ev ck mem
  = Some (resp, mem') ->
  starts (Request.mode b) ev ->
  well_formed (Request.mode b) resp.
Proof.
  request_cases; intros Hev.
  all: first
    [ apply well_formed_failed; starts
    | change [SseStatus "Done" 4 4; SseDone] with ([SseStatus "Done" 4 4] ++ [SseDone]);
      rewrite (app_assoc _ [SseStatus "Done" 4 4] [SseDone]);
      apply well_formed_done; starts ].
Qed.

End RequestProtocol.

(** X18: a request whose body the schema refuses is answered by the event
    [error] alone, and the store is not read.  Every other response starts
    with the meta event of the mode asked, the status "Starting..." and the
    preamble token, and holds exactly one terminal event, which is its
    last: [done] when the run ends with an answer, [error] when it ends
    without one, whichever of the storage calls, of the generations or of
    the searches fails. *)
Theorem chatHandler_response_well_formed
    (hostname : string -> Exn string) (createId : nat -> string)
    (JSON_stringify : CachedArtifact -> string)
    (JSON_parse_artifact : string -> Exn CachedArtifact)
    (req_body : JsValue) (env : RunEnv) (storage : nat -> Exn unit)
    (research_store : Cache.Mem -> Cache.Mem) (mem mem' : Cache.Mem)
    (resp : Response) :
  Request.chatHandler hostname createId JSON_stringify JSON_parse_artifact
    req_body env storage research_store mem = Some (resp, mem') ->
  match Request.ChatReqSchema_parse req_body with
  | Throw e => events resp = [SseError e] /\ answer resp = None /\ mem' = mem
  | Ok b => well_formed (Request.mode b) resp
  end.
Proof.
  unfold Request.chatHandler.
  destruct (Request.ChatReqSchema_parse req_body) as [b|e];
    [|by intros [= <- <-]].
  destruct (Cache.cacheGet _ _ _) as [cached mem1].
  assert (Hfresh :
    Request.fresh_run hostname createId JSON_stringify b env storage research_store
      [SseMeta (Request.mode b); SseStatus "Starting..." 0 4; SseToken preamble]
      (artifactKey (mode_name (Request.mode b)) (Request.message b)) mem1
    = Some (resp, mem') ->
    well_formed (Request.mode b) resp).
  { intros H. eapply fresh_run_well_formed; [exact H|starts]. }
  destruct cached as [text|]; [|exact Hfresh].
  destruct (nonempty text); [|exact Hfresh].
  destruct (JSON_parse_artifact text) as [artifact|e].
  2:{ intros [= <- <-]. apply well_formed_failed. starts. }
  destruct (Request.persistRunFromArtifact storage artifact) as [k|e].
  2:{ intros [= <- <-]. apply well_formed_failed. starts. }
  intros [= <- <-].
  rewrite app_assoc. apply well_formed_done.
  destruct (Request.mode b); [|destruct (art_claims artifact)]; starts.
Qed.

(** A request in normal mode whose answer is generated and streamed, and
    whose storage fails when the message of the assistant is stored: the
    response ends with the event [error], after the tokens. *)
Lemma chatHandler_response_well_formed_witness :
  exists resp mem',
    Request.chatHandler url_hostname ids answer_stringify answer_parse
      (body_of normal "solar power") run_first (storage_down_from 4) store_page ∅
    = Some (resp, mem')
    /\ events resp
       = [SseMeta normal; SseStatus "Starting..." 0 4; SseToken preamble;
          SseStatus "Planning searches..." 1 4;
          SseStatus "Searching & fetching sources..." 2 4;
          SseStatus "Writing answer..." 3 4;
          SseToken "Solar power "; SseToken "is abundant.";
          SseError UpstreamError]
    /\ well_formed normal resp.
Proof.
  assert (Hev : option_map (fun x => events x.1)
                  (Request.chatHandler url_hostname ids answer_stringify answer_parse
                     (body_of normal "solar power") run_first (storage_down_from 4)
                     store_page ∅)
                = Some [SseMeta normal; SseStatus "Starting..." 0 4; SseToken preamble;
                        SseStatus "Planning searches..." 1 4;
                        SseStatus "Searching & fetching sources..." 2 4;
                        SseStatus "Writing answer..." 3 4;
                        SseToken "Solar power "; SseToken "is abundant.";
                        SseError UpstreamError])
    by (vm_compute; reflexivity).
  destruct (Request.chatHandler url_hostname ids answer_stringify answer_parse
              (body_of normal "solar power") run_first (storage_down_from 4) store_page ∅)
    as [[resp mem']|] eqn:E; [|discriminate Hev].
  exists resp, mem'. split; [reflexivity|]. split; [by injection Hev|].
  exact (chatHandler_response_well_formed _ _ _ _ _ _ _ _ _ _ _ E).
Defined.

(** A body with an empty message: the schema refuses it. *)
Example chatHandler_refuses_empty_message :
  Request.chatHandler url_hostname ids answer_stringify answer_parse
    (Some (JObj [("message", JStr EmptyString)])) run_first (storage_down_from 4)
    store_page cache_with_q
  = Some ({| events := [SseError ZodError]; answer := None; research_calls := [] |},
          cache_with_q).
Proof. reflexivity. Qed.

(** ** Trimming *)

Lemma trimStart_head s :
  JS.trimStart s = EmptyString
  \/ exists c r, JS.trimStart s = String c r /\ JS.is_space c = false.
Proof.
  induction s as [|c r IH]; [by left|]. cbn [JS.trimStart].
  destruct (JS.is_space c) eqn:E; [exact IH|]. right. by exists c, r.
Qed.

Lemma trimEnd_head c r :
  JS.is_space c = false -> exists r', JS.trimEnd (String c r) = String c r'.
Proof.
  intros Hc. cbn [JS.trimEnd]. destruct (JS.trimEnd r) as [|d r'] eqn:E.
  - rewrite Hc. by exists EmptyString.
  - by exists (String d r').
Qed.

Lemma trimEnd_idem s : JS.trimEnd (JS.trimEnd s) = JS.trimEnd s.
Proof.
  induction s as [|c r IH]; [reflexivity|]. cbn [JS.trimEnd].
  destruct (JS.trimEnd r) as [|d r'] eqn:E.
  - destruct (JS.is_space c) eqn:Hc; [reflexivity|]. cbn [JS.trimEnd]. by rewrite Hc.
  - cbn [JS.trimEnd] in *. rewrite IH. reflexivity.
Qed.

Lemma trim_idem s : JS.trim (JS.trim s) = JS.trim s.
Proof.
  unfold JS.trim. destruct (trimStart_head s) as [->|(c & r & -> & Hc)]; [reflexivity|].
  destruct (trimEnd_head c r Hc) as [r' Hr']. rewrite Hr'.
  cbn [JS.trimStart]. rewrite Hc, <- Hr'. apply trimEnd_idem.
Qed.

Lemma nonempty_false s : nonempty s = false <-> s = EmptyString.
Proof.
  unfold nonempty. rewrite negb_false_iff. split.
  - destruct s; [reflexivity|discriminate].
  - by intros ->.
Qed.

(** ** The chat handler: the text of the answer *)

Lemma final_text_answer env tok a :
  final_text env = (tok, Ok a) ->
  JS.trim a <> EmptyString
  /\ exists w, concat_strings (tokens_of tok) = w +:+ a /\ JS.trim w = EmptyString.
Proof.
  unfold final_text. destruct (run_stream env) as [tokens broke].
  destruct broke as [e|]; [discriminate|].
  destruct (nonempty (JS.trim (concat_strings tokens))) eqn:Hne.
  - intros [= <- <-]. split; [by apply nonempty_true|].
    exists EmptyString. by rewrite tokens_of_tokens.
  - destruct (run_fallback env) as [fb|e]; [|discriminate].
    destruct (if nonempty (JS.trim fb) then Ok fb else run_fallback_fast env) as [fb2|e];
      [|discriminate].
    intros [= <- <-]. split.
    + destruct (nonempty (JS.trim fb2)) eqn:E; [|discriminate].
      rewrite trim_idem. by apply nonempty_true.
    + exists (concat_strings tokens).
      rewrite tokens_of_app, !tokens_of_tokens, concat_strings_app, streamTextQuick_concat.
      split; [reflexivity|]. by apply nonempty_false.
Qed.

(** ** The chat handler: the claims and the tokens of a response *)

Lemma claims_of_app ev1 ev2 : claims_of (ev1 ++ ev2) = claims_of ev1 ++ claims_of ev2.
Proof. apply omap_app. Qed.

Lemma claims_of_cons e ev :
  claims_of (e :: ev)
  = match e with SseClaims c => [c] | _ => [] end ++ claims_of ev.
Proof. by destruct e. Qed.

Lemma tokens_of_cons e ev :
  tokens_of (e :: ev)
  = match e with SseToken c => [c] | _ => [] end ++ tokens_of ev.
Proof. by destruct e. Qed.

(** The claims and the tokens of a list of events built by the handler. *)
Ltac events_simpl :=
  repeat first
    [ rewrite claims_of_app | rewrite claims_of_cons
    | rewrite tokens_of_app | rewrite tokens_of_cons ];
  change (claims_of []) with (@nil (list ClaimRecord));
  change (tokens_of []) with (@nil string);
  cbn [app]; rewrite ?app_nil_r.

Lemma claims_of_tokens l : claims_of (SseToken <$> l) = [].
Proof. induction l as [|c r IH]; [reflexivity|exact IH]. Qed.

Lemma claims_of_final_text env tok text :
  final_text env = (tok, text) -> claims_of tok = [].
Proof.
  intros H. destruct (final_text_tokens env) as [l Hl]. rewrite H in Hl. cbn in Hl.
  subst tok. apply claims_of_tokens.
Qed.

Lemma claims_of_widening hostname m intents env ev :
  claims_of (announce_widening hostname m intents env ev) = claims_of ev.
Proof.
  unfold announce_widening. destruct (widens _ _ _ _); [|reflexivity].
  by events_simpl.
Qed.

Lemma tokens_of_widening hostname m intents env ev :
  tokens_of (announce_widening hostname m intents env ev) = tokens_of ev.
Proof.
  unfold announce_widening. destruct (widens _ _ _ _); [|reflexivity].
  by events_simpl.
Qed.

Lemma verifyClaims_length createId claims sources :
  length (verifyClaims createId claims sources) = length claims.
Proof. unfold verifyClaims. apply length_imap. Qed.

Lemma slice_list_4_length {A} (l : list A) : (length (JS.slice_list l 0 4) <= 4)%nat.
Proof. rewrite slice_list_prefix by lia. rewrite length_take. lia. Qed.

(** The paths of [fresh_run], each with the response it returns. *)
Ltac fresh_run_cases :=
  unfold fresh_run;
  destruct (run_db _) as [[]|?e]; [|intros [= <- <-]];
  [ destruct (planQuery _ _) as [?plan|?e]; [|intros [= <- <-]];
    [ destruct (retrieval_stage _ _ _ _ _ _) as [[?ret|?e]|];
      [|intros [= <- <-]|discriminate];
      [ cbn zeta; destruct (final_text _) as [?tok ?ftext] eqn:?Hft;
        match goal with
        | |- context [match ?m with normal => _ | reliability => _ end] => destruct m
        end;
        [ destruct ftext as [?a|?e]; intros [= <- <-]
        | destruct (run_draft _) as [?d|?e]; [|intros [= <- <-]];
          [ destruct (JS.slice_list _ 0 4) as [|?c0 ?cs] eqn:?Hsafe;
            destruct ftext as [?a|?e]; intros [= <- <-]
          | ] ]
      | ]
    | ]
  | ].

Section ChatFacts.

Variable hostname : string -> Exn string.
Variable createId : nat -> string.
Variable JSON_stringify : CachedArtifact -> string.
Variable JSON_parse_artifact : string -> Exn CachedArtifact.

Lemma fresh_run_tokens m message env ev ck mem resp mem' a :
  fresh_run hostname createId JSON_stringify m message env ev ck mem = Some (resp, mem') ->
  answer resp = Some a ->
  JS.trim a <> EmptyString
  /\ exists w, concat_strings (tokens_of (events resp))
               = concat_strings (tokens_of ev) +:+ w +:+ a
               /\ JS.trim w = EmptyString.
Proof.
  fresh_run_cases; cbn [answer events failed]; try discriminate.
  all: intros [= <-]; destruct (final_text_answer _ _ _ Hft) as (Hne & w & Hw & Htrim);
    (split; [exact Hne|]); exists w; (split; [|exact Htrim]);
    events_simpl; rewrite ?tokens_of_widening; events_simpl;
    by rewrite concat_strings_app, Hw.
Qed.

End ChatFacts.

(** X21: when a request ends with an answer, the tokens of the response,
    concatenated, are the preamble, then possibly white space, then the
    answer; and the answer of a fresh run is never blank: it is the
    streamed text, or the text of the fallback completion trimmed, or the
    fixed apology. *)
Theorem chatHandler_tokens_spell_answer
    (hostname : string -> Exn string) (createId : nat -> string)
    (JSON_stringify : CachedArtifact -> string)
    (JSON_parse_artifact : string -> Exn CachedArtifact)
    (m : Mode) (message : string) (env : RunEnv) (mem mem' : Cache.Mem)
    (resp : Response) (a : string) :
  chatHandler hostname createId JSON_stringify JSON_parse_artifact m message env mem
  = Some (resp, mem') ->
  answer resp = Some a ->
  (exists w, concat_strings (tokens_of (events resp)) = preamble +:+ w +:+ a
             /\ JS.trim w = EmptyString)
  /\ (research_calls resp <> [] -> JS.trim a <> EmptyString).
Proof.
  unfold chatHandler.
  destruct (Cache.cacheGet _ _ _) as [cached mem1].
  assert (Hfresh :
    fresh_run hostname createId JSON_stringify m message env
      [SseMeta m; SseStatus "Starting..." 0 4; SseToken preamble]
      (artifactKey (mode_name m) message) mem1 = Some (resp, mem') ->
    answer resp = Some a ->
    (exists w, concat_strings (tokens_of (events resp)) = preamble +:+ w +:+ a
               /\ JS.trim w = EmptyString)
    /\ (research_calls resp <> [] -> JS.trim a <> EmptyString)).
  { intros H Ha. destruct (fresh_run_tokens _ _ _ _ _ _ _ _ _ _ _ _ H Ha)
      as (Hne & w & Hw & Htrim).
    split; [|by intros _]. exists w. split; [|exact Htrim]. rewrite Hw.
    cbn [tokens_of omap list_omap concat_strings foldr]. by rewrite string_app_nil_r. }
  destruct cached as [text|]; [|exact Hfresh].
  destruct (nonempty text); [|exact Hfresh].
  destruct (JSON_parse_artifact text) as [artifact|e]; [|intros [= <- <-]; discriminate].
  destruct (run_db env) as [[]|e]; [|intros [= <- <-]; discriminate].
  intros [= <- <-] [= <-]. cbn [events research_calls]. split; [|done].
  exists EmptyString. split; [|reflexivity].
  destruct m; [|destruct (art_claims artifact)];
    events_simpl; rewrite tokens_of_tokens, ?app_nil_r;
    cbn [concat_strings foldr]; by rewrite streamTextQuick_concat.
Qed.

(** A request answered from the cache: its tokens are the preamble and
    the answer. *)
Lemma chatHandler_tokens_spell_answer_witness :
  exists w, (preamble +:+ "A." = preamble +:+ w +:+ "A.") /\ JS.trim w = EmptyString.
Proof.
  assert (E : chatHandler url_hostname ids answer_stringify answer_parse normal
                "q" (run_second (Ok tt)) cache_with_q
              = Some ({| events :=
                           [SseMeta normal; SseStatus "Starting..." 0 4; SseToken preamble;
                            SseStatus "Cached answer" 4 4; SseToken "A."; SseDone];
                         answer := Some "A."; research_calls := [] |}, cache_with_q))
    by reflexivity.
  destruct (chatHandler_tokens_spell_answer _ _ _ _ _ _ _ _ _ _ _ E eq_refl)
    as [(w & Hw & Htrim) _].
  exists w. split; [|exact Htrim]. rewrite <- Hw. reflexivity.
Defined.

(** ** The chat handler: the store and the claims of a request *)

Lemma verifyClaims_claims createId claims sources :
  claim <$> verifyClaims createId claims sources = claims.
Proof.
  unfold verifyClaims. rewrite fmap_imap. apply list_eq. intros i.
  rewrite list_lookup_imap. by destruct (claims !! i).
Qed.

Lemma prefix_app s t : String.prefix s (s +:+ t) = true.
Proof.
  unfold String.app. induction s as [|a s IH]; cbn [String.append String.prefix].
  - by destruct t.
  - by destruct (ascii_dec a a).
Qed.

Lemma is_artifact_key_artifactKey mode q : is_artifact_key (artifactKey mode q) = true.
Proof. apply prefix_app. Qed.

Section RequestFacts.

Variable hostname : string -> Exn string.
Variable createId : nat -> string.
Variable JSON_stringify : CachedArtifact -> string.
Variable JSON_parse_artifact : string -> Exn CachedArtifact.

Lemma fresh_run_store b env storage research_store ev ck mem resp mem' :
  Request.fresh_run hostname createId JSON_stringify b env storage research_store ev ck mem
  = Some (resp, mem') ->
  (answer resp = None -> mem' = mem \/ mem' = research_store mem)
  /\ (forall a, answer resp = Some a ->
        exists artifact,
          finalAnswer artifact = a
          /\ mem' = Cache.cacheSet ck (JSON_stringify artifact) 7200 (run_store_now env)
                      (research_store mem)).
Proof.
  request_cases; cbn [answer failed];
    (split; [intros Hn; first [by left|by right|discriminate Hn]
            |intros a' Ha'; try discriminate]).
  all: injection Ha' as <-; eexists; split; [|reflexivity]; reflexivity.
Qed.

Lemma fresh_run_claims b env storage research_store ev ck mem resp mem' :
  Request.fresh_run hostname createId JSON_stringify b env storage research_store ev ck mem
  = Some (resp, mem') ->
  let safe := JS.slice_list (filter (fun c => nonempty c = true) (run_claims env)) 0 4 in
  exists X,
    claims_of (events resp) = claims_of ev ++ X
    /\ (X = [] \/ (Request.mode b = reliability
                   /\ exists cs, X = [cs] /\ cs <> [] /\ (length cs <= 4)%nat
                                 /\ claim <$> cs = safe))
    /\ (forall a, answer resp = Some a -> Request.mode b = reliability -> safe <> [] ->
        X <> []).
Proof.
  request_cases; cbn zeta; cbn [events answer failed]; events_simpl;
    rewrite ?claims_of_widening, ?(claims_of_final_text _ _ _ Hft); events_simpl.
  all: first
    [ by (exists []; rewrite ?app_nil_r; split; [reflexivity|]; split; [by left|];
          intros ? ? ? ?; congruence)
    | eexists; split; [reflexivity|]; split;
        [ right; split; [reflexivity|]; eexists; split; [reflexivity|];
          pose proof (slice_list_4_length
                        (filter (fun c => nonempty c = true) (run_claims env))) as Hlen;
          rewrite Hsafe in Hlen;
          split; [intros H; apply (f_equal length) in H;
                  rewrite verifyClaims_length in H; discriminate|];
          split; [by rewrite verifyClaims_length|apply verifyClaims_claims]
        | intros; discriminate ] ].
Qed.

End RequestFacts.

(** X19: on a valid request, [chatHandler] writes an artifact only at the
    end of a fresh run that produced an answer, the [research] calls
    leaving the entries of the artifacts alone.  A request that ends with
    an error leaves every artifact entry as the lookup left it; a request
    answered from the cache leaves the whole store so; a request answered
    by a fresh run stores one artifact, with that answer, under the key of
    the request, for two hours, and changes no other artifact entry. *)
Theorem chatHandler_caches_answers_only
    (hostname : string -> Exn string) (createId : nat -> string)
    (JSON_stringify : CachedArtifact -> string)
    (JSON_parse_artifact : string -> Exn CachedArtifact)
    (req_body : JsValue) (env : RunEnv) (storage : nat -> Exn unit)
    (research_store : Cache.Mem -> Cache.Mem) (mem mem' : Cache.Mem)
    (resp : Response) (b : Request.ChatBody) :
  Request.chatHandler hostname createId JSON_stringify JSON_parse_artifact
    req_body env storage research_store mem = Some (resp, mem') ->
  Request.ChatReqSchema_parse req_body = Ok b ->
  keeps_artifacts research_store ->
  let ck := artifactKey (mode_name (Request.mode b)) (Request.message b) in
  let mem1 := (Cache.cacheGet ck (run_now env) mem).2 in
  (answer resp = None ->
   forall k, is_artifact_key k = true -> mem' !! k = mem1 !! k)
  /\ (forall a, answer resp = Some a ->
        match cached_artifact JSON_parse_artifact ck (run_now env) mem with
        | Some artifact => a = finalAnswer artifact /\ mem' = mem1
        | None =>
            exists artifact,
              finalAnswer artifact = a
              /\ mem' !! ck
                 = Some (JSON_stringify artifact, run_store_now env + 7200 * 1000)
              /\ forall k, is_artifact_key k = true -> k <> ck -> mem' !! k = mem1 !! k
        end).
Proof.
  intros H Hb Hkeep. cbn zeta. revert H. unfold Request.chatHandler, cached_artifact.
  rewrite Hb. destruct (Cache.cacheGet _ _ _) as [cached mem1]. cbn [fst snd].
  assert (Hfresh :
    Request.fresh_run hostname createId JSON_stringify b env storage research_store
      [SseMeta (Request.mode b); SseStatus "Starting..." 0 4; SseToken preamble]
      (artifactKey (mode_name (Request.mode b)) (Request.message b)) mem1
    = Some (resp, mem') ->
    (answer resp = None ->
     forall k, is_artifact_key k = true -> mem' !! k = mem1 !! k)
    /\ (forall a, answer resp = Some a ->
          exists artifact,
            finalAnswer artifact = a
            /\ mem' !! artifactKey (mode_name (Request.mode b)) (Request.message b)
               = Some (JSON_stringify artifact, run_store_now env + 7200 * 1000)
            /\ forall k, is_artifact_key k = true ->
                 k <> artifactKey (mode_name (Request.mode b)) (Request.message b) ->
                 mem' !! k = mem1 !! k)).
  { intros H. apply fresh_run_store in H as [H1 H2]. split.
    - intros Hnone k Hk. destruct (H1 Hnone) as [->| ->]; [reflexivity|by apply Hkeep].
    - intros a Ha. destruct (H2 a Ha) as (artifact & Hfa & ->).
      exists artifact. split; [exact Hfa|]. unfold Cache.cacheSet. split.
      + by rewrite lookup_insert_eq.
      + intros k Hk Hne. rewrite lookup_insert_ne by done. by apply Hkeep. }
  destruct cached as [text|]; [|exact Hfresh].
  destruct (nonempty text); [|exact Hfresh].
  destruct (JSON_parse_artifact text) as [artifact|e].
  2:{ intros [= <- <-]. cbn [answer failed]. split; [done|discriminate]. }
  destruct (Request.persistRunFromArtifact storage artifact) as [k|e].
  2:{ intros [= <- <-]. cbn [answer failed]. split; [done|discriminate]. }
  intros [= <- <-]. cbn [answer]. split; [discriminate|].
  by intros a [= <-].
Qed.

(** X20: a response to a valid request holds at most one claims event,
    and none in normal mode; the event never carries an empty list.  When
    the request is answered from the cache the event carries the claims of
    the cached artifact; otherwise it carries one record for each of the
    first 4 non-empty claims extracted from the draft, in their order.  And
    an answered request in reliability mode does hold the event whenever
    there are such claims. *)
Theorem chatHandler_claims_event
    (hostname : string -> Exn string) (createId : nat -> string)
    (JSON_stringify : CachedArtifact -> string)
    (JSON_parse_artifact : string -> Exn CachedArtifact)
    (req_body : JsValue) (env : RunEnv) (storage : nat -> Exn unit)
    (research_store : Cache.Mem -> Cache.Mem) (mem mem' : Cache.Mem)
    (resp : Response) (b : Request.ChatBody) :
  Request.chatHandler hostname createId JSON_stringify JSON_parse_artifact
    req_body env storage research_store mem = Some (resp, mem') ->
  Request.ChatReqSchema_parse req_body = Ok b ->
  let ck := artifactKey (mode_name (Request.mode b)) (Request.message b) in
  let safe := JS.slice_list (filter (fun c => nonempty c = true) (run_claims env)) 0 4 in
  let hit := cached_artifact JSON_parse_artifact ck (run_now env) mem in
  (claims_of (events resp) = []
   \/ (Request.mode b = reliability
       /\ exists cs,
            claims_of (events resp) = [cs] /\ cs <> []
            /\ match hit with
               | Some artifact => cs = art_claims artifact
               | None => (length cs <= 4)%nat /\ claim <$> cs = safe
               end))
  /\ (forall a, answer resp = Some a -> Request.mode b = reliability ->
      match hit with
      | Some artifact => art_claims artifact <> []
      | None => safe <> []
      end ->
      claims_of (events resp) <> []).
Proof.
  intros H Hb. cbn zeta. revert H. unfold Request.chatHandler, cached_artifact.
  rewrite Hb. destruct (Cache.cacheGet _ _ _) as [cached mem1]. cbn [fst snd].
  assert (Hfresh :
    Request.fresh_run hostname createId JSON_stringify b env storage research_store
      [SseMeta (Request.mode b); SseStatus "Starting..." 0 4; SseToken preamble]
      (artifactKey (mode_name (Request.mode b)) (Request.message b)) mem1
    = Some (resp, mem') ->
    (claims_of (events resp) = []
     \/ (Request.mode b = reliability
         /\ exists cs,
              claims_of (events resp) = [cs] /\ cs <> []
              /\ (length cs <= 4)%nat
              /\ claim <$> cs
                 = JS.slice_list (filter (fun c => nonempty c = true) (run_claims env)) 0 4))
    /\ (forall a, answer resp = Some a -> Request.mode b = reliability ->
        JS.slice_list (filter (fun c => nonempty c = true) (run_claims env)) 0 4 <> [] ->
        claims_of (events resp) <> [])).
  { intros H. apply fresh_run_claims in H as (X & HX & Hshape & Hsent).
    cbn [claims_of omap list_omap app] in HX. rewrite HX. split; [|exact Hsent].
    destruct Hshape as [->|(Hm & cs & -> & Hrest)]; [by left|].
    right. split; [exact Hm|]. by exists cs. }
  destruct cached as [text|]; [|exact Hfresh].
  destruct (nonempty text); [|exact Hfresh].
  destruct (JSON_parse_artifact text) as [artifact|e] eqn:Hparse.
  2:{ intros [= <- <-]. split; [by left|]. intros a Ha. discriminate. }
  destruct (Request.persistRunFromArtifact storage artifact) as [k|e].
  2:{ intros [= <- <-]. split; [by left|]. intros a Ha. discriminate. }
  intros [= <- <-]. cbn [events answer].
  destruct (Request.mode b); [|destruct (art_claims artifact) as [|c0 cs] eqn:Hcl];
    events_simpl; rewrite claims_of_tokens; events_simpl.
  - split; [by left|]. intros a _ Hm. discriminate.
  - split; [by left|]. by intros a _ _ Hne.
  - split; [|by intros a _ _ _]. right. split; [reflexivity|].
    exists (c0 :: cs). by repeat split.
Qed.

Lemma store_page_keeps_artifacts : keeps_artifacts store_page.
Proof.
  intros mem k Hk. unfold store_page, Cache.cacheSet.
  apply lookup_insert_ne. intros <-. vm_compute in Hk. discriminate.
Qed.

(** A request in normal mode answered by a fresh run, the store holding
    the artifact of another question: the artifact of the request is
    stored, the other one stays. *)
Lemma chatHandler_caches_answers_only_witness :
  exists resp mem',
    Request.chatHandler url_hostname ids answer_stringify answer_parse
      (body_of normal "solar power") run_first (storage_down_from 6) store_page cache_with_q
    = Some (resp, mem')
    /\ answer resp = Some "Solar power is abundant."
    /\ mem' !! "artifact:v1:normal:solar power"
       = Some ("{Solar power is abundant.", 7205000)
    /\ mem' !! "artifact:v1:normal:q" = Some ("{A.", 7205000).
Proof.
  assert (Ha : option_map (fun x => answer x.1)
                 (Request.chatHandler url_hostname ids answer_stringify answer_parse
                    (body_of normal "solar power") run_first (storage_down_from 6)
                    store_page cache_with_q)
               = Some (Some "Solar power is abundant."))
    by (vm_compute; reflexivity).
  destruct (Request.chatHandler url_hostname ids answer_stringify answer_parse
              (body_of normal "solar power") run_first (storage_down_from 6) store_page
              cache_with_q)
    as [[resp mem']|] eqn:E; [|discriminate Ha].
  injection Ha as Ha. cbn [fst] in Ha.
  exists resp, mem'. split; [reflexivity|]. split; [exact Ha|].
  destruct (chatHandler_caches_answers_only _ _ _ _ _ _ _ _ _ _ _
              {| Request.conversationId := None; Request.message := "solar power";
                 Request.mode := normal |}
              E eq_refl store_page_keeps_artifacts) as [_ H].
  specialize (H _ Ha). vm_compute cached_artifact in H.
  destruct H as (artifact & Hfa & Hck & Hother). split.
  - etransitivity; [exact Hck|]. unfold answer_stringify. by rewrite Hfa.
  - etransitivity; [apply Hother; [reflexivity|discriminate]|]. reflexivity.
Defined.

(** A request in reliability mode answered by a fresh run: the one claim
    extracted from the draft is sent in the claims event. *)
Lemma chatHandler_claims_event_witness :
  exists resp mem',
    Request.chatHandler url_hostname ids answer_stringify answer_parse
      (body_of reliability "solar power") run_reliable (storage_down_from 9) store_page ∅
    = Some (resp, mem')
    /\ answer resp = Some "Solar power is abundant."
    /\ exists r, claims_of (events resp) = [[r]] /\ claim r = "Solar power is abundant.".
Proof.
  assert (Ha : option_map (fun x => answer x.1)
                 (Request.chatHandler url_hostname ids answer_stringify answer_parse
                    (body_of reliability "solar power") run_reliable (storage_down_from 9)
                    store_page ∅)
               = Some (Some "Solar power is abundant."))
    by (vm_compute; reflexivity).
  destruct (Request.chatHandler url_hostname ids answer_stringify answer_parse
              (body_of reliability "solar power") run_reliable (storage_down_from 9)
              store_page ∅)
    as [[resp mem']|] eqn:E; [|discriminate Ha].
  injection Ha as Ha. cbn [fst] in Ha.
  exists resp, mem'. split; [reflexivity|]. split; [exact Ha|].
  destruct (chatHandler_claims_event _ _ _ _ _ _ _ _ _ _ _
              {| Request.conversationId := None; Request.message := "solar power";
                 Request.mode := reliability |}
              E eq_refl) as [Hshape Hsent].
  specialize (Hsent _ Ha eq_refl). vm_compute cached_artifact in Hshape, Hsent.
  destruct Hshape as [Hnone|(_ & cs & Hcs & _ & _ & Hclaims)].
  - exfalso. apply Hsent; [discriminate|exact Hnone].
  - vm_compute in Hclaims. destruct cs as [|r [|r' cs']]; try discriminate.
    exists r. split; [exact Hcs|]. by injection Hclaims.
Defined.

(** ** The two models of the handler

    On a valid body, with a storage that answers every call alike and
    [research] calls that leave the store alone, the handler is
    [chatHandler] of the first model. *)

Lemma storage_calls_alike (r : Exn unit) k n :
  Request.storage_calls (fun _ => r) k (S n)
  = match r with Ok _ => Ok (k + S n)%nat | Throw e => Throw e end.
Proof.
  revert k. induction n as [|n IH]; intros k; cbn [Request.storage_calls].
  - destruct r; [f_equal; lia|reflexivity].
  - cbn [Request.storage_calls] in IH. rewrite IH. destruct r; [f_equal; lia|reflexivity].
Qed.

Lemma ChatReqSchema_parse_body_of m message :
  message <> EmptyString ->
  Request.ChatReqSchema_parse (body_of m message)
  = Ok {| Request.conversationId := None; Request.message := message; Request.mode := m |}.
Proof.
  intros Hne. unfold Request.ChatReqSchema_parse, body_of.
  cbn [obj_get String.eqb Ascii.eqb Bool.eqb zod_string_optional bindE zod_string_min].
  assert (Hlen : (1 <=? JS.len message) = true).
  { apply Z.leb_le. unfold JS.len. destruct message; [done|cbn [String.length]; lia]. }
  rewrite Hlen. cbn [bindE]. by destruct m.
Qed.

Lemma chatHandler_refines
    (hostname : string -> Exn string) (createId : nat -> string)
    (JSON_stringify : CachedArtifact -> string)
    (JSON_parse_artifact : string -> Exn CachedArtifact)
    (m : Mode) (message : string) (env : RunEnv) (mem : Cache.Mem) :
  message <> EmptyString ->
  Request.chatHandler hostname createId JSON_stringify JSON_parse_artifact
    (body_of m message) env (fun _ => run_db env) (fun mem => mem) mem
  = chatHandler hostname createId JSON_stringify JSON_parse_artifact m message env mem.
Proof.
  intros Hne. unfold Request.chatHandler, chatHandler.
  rewrite (ChatReqSchema_parse_body_of m message Hne).
  cbn [Request.mode Request.message].
  destruct (Cache.cacheGet _ _ _) as [cached mem1].
  assert (Hfresh : forall ev ck,
    Request.fresh_run hostname createId JSON_stringify
      {| Request.conversationId := None; Request.message := message; Request.mode := m |}
      env (fun _ => run_db env) (fun mem => mem) ev ck mem1
    = fresh_run hostname createId JSON_stringify m message env ev ck mem1).
  { intros ev ck. unfold Request.fresh_run, fresh_run, Request.finish.
    cbn [Request.mode Request.message]. rewrite !storage_calls_alike.
    destruct (run_db env) as [[]|e]; [|reflexivity].
    destruct (planQuery _ _) as [plan|e]; [|reflexivity].
    destruct (retrieval_stage _ _ _ _ _ _) as [[ret|e]|]; [|reflexivity|reflexivity].
    cbn zeta. change (1 + length (ret_sources ret))%nat with (S (length (ret_sources ret))).
    rewrite !storage_calls_alike. cbn beta iota.
    destruct (final_text env) as [tok [a|e]]; destruct m; try reflexivity.
    all: destruct (run_draft env) as [d|e']; [|reflexivity].
    all: destruct (JS.slice_list _ 0 4); reflexivity. }
  destruct cached as [text|]; [|apply Hfresh].
  destruct (nonempty text); [|apply Hfresh].
  destruct (JSON_parse_artifact text) as [artifact|e]; [|reflexivity].
  unfold Request.persistRunFromArtifact.
  change (3 + length (art_sources artifact) + 1)%nat
    with (S (2 + length (art_sources artifact) + 1)).
  rewrite storage_calls_alike. by destruct (run_db env) as [[]|e].
Qed.

(** ** Cache keys *)

Lemma string_app_inj_l (p s1 s2 : string) : p +:+ s1 = p +:+ s2 -> s1 = s2.
Proof.
  induction p as [|c p IH]; [done|]. intros H. apply IH.
  change (String c (p +:+ s1) = String c (p +:+ s2)) in H. by injection H.
Qed.

(** X22: the keys of the cache do not collide: the key of an artifact, of a
    fetched page and of an extracted document are pairwise different; two
    artifact keys are equal only for the same mode and for questions with
    the same normalization, so an answer cached in one mode is never served
    in the other; and two page keys, or two document keys, are equal only
    for the same URL. *)
Theorem cache_keys_do_not_collide (m m' : Mode) (q q' url url' : string) :
  artifactKey (mode_name m) q <> Fetch.cacheKey url
  /\ artifactKey (mode_name m) q <> extractCacheKey url
  /\ Fetch.cacheKey url <> extractCacheKey url'
  /\ (artifactKey (mode_name m) q = artifactKey (mode_name m') q' ->
      m = m' /\ normalizeQuestion q = normalizeQuestion q')
  /\ (Fetch.cacheKey url = Fetch.cacheKey url' -> url = url')
  /\ (extractCacheKey url = extractCacheKey url' -> url = url').
Proof.
  unfold artifactKey, Fetch.cacheKey, extractCacheKey.
  split; [discriminate|]. split; [discriminate|]. split; [discriminate|].
  split; [|split; apply string_app_inj_l].
  intros H. apply string_app_inj_l in H.
  destruct m, m'; try discriminate; split; try reflexivity;
    by apply string_app_inj_l in H; apply string_app_inj_l in H.
Qed.

(** ** Streaming a text in chunks *)

Section ChunkLoop.

(** A loop that cuts a text into slices of [size] code units, as the two
    streaming loops do. *)
Variable size : nat.
Variable loop : nat -> string -> Z -> list string.
Hypothesis size_pos : (0 < size)%nat.
Hypothesis loop_eq :
  forall fuel text i,
    loop fuel text i
    = match fuel with
      | O => []
      | S fuel' =>
          if i <? JS.len text
          then JS.slice text i (i + Z.of_nat size) :: loop fuel' text (i + Z.of_nat size)
          else []
      end.

Lemma slice_chunk_size text (i : nat) :
  (i < String.length text)%nat ->
  JS.slice text (Z.of_nat i) (Z.of_nat i + Z.of_nat size)
  = String.substring i (Nat.min size (String.length text - i)) text.
Proof.
  intros Hi. unfold JS.slice, JS.clamp_index, JS.len.
  replace (Z.of_nat i <? 0) with false by (symmetry; apply Z.ltb_ge; lia).
  replace (Z.of_nat i + Z.of_nat size <? 0) with false by (symmetry; apply Z.ltb_ge; lia).
  f_equal; lia.
Qed.

Lemma substring_length n m s :
  (n + m <= String.length s)%nat -> String.length (String.substring n m s) = m.
Proof.
  revert n m. induction s as [|c r IH]; intros n m H; cbn [String.length] in H.
  - assert (n = 0%nat) as -> by lia. assert (m = 0%nat) as -> by lia. reflexivity.
  - destruct n as [|n].
    + destruct m as [|m]; [reflexivity|]. cbn [String.substring String.length].
      f_equal. apply IH. lia.
    + cbn [String.substring]. apply IH. lia.
Qed.

Lemma loop_chunks text fuel (i : nat) :
  (String.length text - i <= fuel)%nat ->
  concat_strings (loop fuel text (Z.of_nat i))
  = String.substring i (String.length text - i) text
  /\ Forall (fun c => 1 <= JS.len c <= Z.of_nat size) (loop fuel text (Z.of_nat i)).
Proof.
  revert i. induction fuel as [|fuel IH]; intros i Hfuel; rewrite loop_eq.
  - replace (String.length text - i)%nat with 0%nat by lia.
    rewrite substring_zero_length. by split.
  - destruct (Z.of_nat i <? JS.len text) eqn:Hlt; unfold JS.len in Hlt.
    + apply Z.ltb_lt in Hlt.
      rewrite slice_chunk_size by lia.
      replace (Z.of_nat i + Z.of_nat size) with (Z.of_nat (i + size)) by lia.
      destruct (IH (i + size)%nat ltac:(lia)) as [IH1 IH2].
      set (k := Nat.min size (String.length text - i)).
      split.
      * cbn [concat_strings foldr]. fold (concat_strings (loop fuel text (Z.of_nat (i + size)))).
        rewrite IH1.
        assert (Hsplit : String.substring i (String.length text - i) text
                         = String.substring i k text
                           +:+ String.substring (i + k) (String.length text - i - k) text).
        { rewrite <- substring_add. f_equal. unfold k. lia. }
        rewrite Hsplit. f_equal.
        destruct (Nat.le_gt_cases size (String.length text - i)) as [Hle|Hgt].
        -- unfold k. rewrite Nat.min_l by exact Hle. f_equal. lia.
        -- replace (String.length text - (i + size))%nat with 0%nat by lia.
           replace (String.length text - i - k)%nat with 0%nat by (unfold k; lia).
           rewrite !substring_zero_length. reflexivity.
      * constructor; [|exact IH2]. unfold JS.len.
        rewrite substring_length by (unfold k; lia). unfold k. lia.
    + apply Z.ltb_ge in Hlt.
      replace (String.length text - i)%nat with 0%nat by lia.
      rewrite substring_zero_length. by split.
Qed.

Lemma loop_whole text :
  concat_strings (loop (String.length text) text 0) = text
  /\ Forall (fun c => 1 <= JS.len c <= Z.of_nat size) (loop (String.length text) text 0).
Proof.
  change 0 with (Z.of_nat 0).
  destruct (loop_chunks text (String.length text) 0 ltac:(lia)) as [H1 H2].
  split; [|exact H2]. rewrite H1, Nat.sub_0_r. apply substring_whole.
Qed.

End ChunkLoop.

(** X23: streaming in chunks loses nothing: the chunks [streamTextQuick]
    sends for a text have from 1 to 140 code units each and, put together,
    are the text; the chunks the Ollama provider hands to [onToken] have
    from 1 to 60 code units each and, put together, are the text of the
    completion; and when the completion fails the provider throws without
    handing over any chunk. *)
Theorem stream_chunks_spell_text (text : string) :
  (concat_strings (streamTextQuick text) = text
   /\ Forall (fun c => 1 <= JS.len c <= 140) (streamTextQuick text))
  /\ (exists tokens,
        Ollama.streamChat (Ok text) = (tokens, None)
        /\ concat_strings tokens = text
        /\ Forall (fun c => 1 <= JS.len c <= 60) tokens)
  /\ (forall e, Ollama.streamChat (Throw e) = ([], Some e)).
Proof.
  split; [|split; [|reflexivity]].
  - apply (loop_whole 140 streamTextQuick_from); [lia|].
    intros [|fuel] t i; reflexivity.
  - eexists. split; [reflexivity|].
    apply (loop_whole 60 Ollama.streamChat_from); [lia|].
    intros [|fuel] t i; reflexivity.
Qed.

(** ** Merging two lists of sources *)

(** X24: for every cap, [mergeSourcesByHash] returns the first
    max(1, cap) elements of the two lists concatenated and deduplicated by
    content hash, first occurrence kept: the cap is tested after the
    push, so a cap of 0 or less still lets one source through.  The result
    has no two sources with the same hash and keeps the order of the
    lists. *)
Theorem mergeSourcesByHash_every_cap (a b : list EvidenceSource) (cap : Z) :
  mergeSourcesByHash a b cap = take (Z.to_nat (Z.max 1 cap)) (dedupe (a ++ b))
  /\ NoDup (contentHash <$> mergeSourcesByHash a b cap)
  /\ mergeSourcesByHash a b cap `sublist_of` a ++ b
  /\ Z.of_nat (length (mergeSourcesByHash a b cap)) <= Z.max 1 cap.
Proof.
  assert (Heq : mergeSourcesByHash a b cap
                = take (Z.to_nat (Z.max 1 cap)) (dedupe (a ++ b))).
  { destruct (decide (1 <= cap)) as [Hcap|Hcap].
    - rewrite mergeSourcesByHash_take by exact Hcap. do 2 f_equal. lia.
    - replace (Z.max 1 cap) with 1 by lia. change (Z.to_nat 1) with 1%nat.
      unfold mergeSourcesByHash, dedupe.
      destruct (a ++ b) as [|x l]; [reflexivity|].
      cbn [mergeSourcesByHash_loop dedupe_go].
      destruct (decide (contentHash x ∈ (∅ : gset string))) as [Hin|_];
        [by apply elem_of_empty in Hin|].
      cbn [app length take]. rewrite take_0.
      destruct (cap <=? Z.of_nat 1) eqn:E; [reflexivity|]. apply Z.leb_gt in E. lia. }
  split; [exact Heq|]. rewrite Heq. split; [|split].
  - apply (NoDup_fmap_sublist _ _ (dedupe (a ++ b))); [apply sublist_take|apply dedupe_NoDup].
  - etrans; [apply sublist_take|apply dedupe_go_sublist].
  - rewrite length_take. lia.
Qed.

(** ** The recovery of JSON wrapped in prose *)

Lemma string_length_app s1 s2 :
  String.length (s1 +:+ s2) = (String.length s1 + String.length s2)%nat.
Proof.
  induction s1 as [|c r IH]; [reflexivity|].
  change (S (String.length (r +:+ s2)) = S (String.length r + String.length s2)).
  by rewrite IH.
Qed.

Lemma trimStart_app pre c s :
  JS.is_space c = false ->
  JS.trimStart (pre +:+ String c s) = JS.trimStart pre +:+ String c s.
Proof.
  intros Hc. induction pre as [|d r IH].
  - change (JS.trimStart (String c s) = String c s). cbn [JS.trimStart]. by rewrite Hc.
  - change (JS.trimStart (String d (r +:+ String c s))
            = JS.trimStart (String d r) +:+ String c s).
    cbn [JS.trimStart]. destruct (JS.is_space d); [exact IH|reflexivity].
Qed.

Lemma trimEnd_cons c s :
  JS.is_space c = false -> JS.trimEnd (String c s) = String c (JS.trimEnd s).
Proof.
  intros Hc. cbn [JS.trimEnd]. destruct (JS.trimEnd s); [by rewrite Hc|reflexivity].
Qed.

Lemma trimEnd_app u c s :
  JS.is_space c = false ->
  JS.trimEnd (u +:+ String c s) = u +:+ String c (JS.trimEnd s).
Proof.
  intros Hc. induction u as [|d r IH].
  - change (JS.trimEnd (String c s) = String c (JS.trimEnd s)). by apply trimEnd_cons.
  - change (JS.trimEnd (String d (r +:+ String c s))
            = String d (r +:+ String c (JS.trimEnd s))).
    cbn [JS.trimEnd]. rewrite IH. by destruct r.
Qed.

Lemma none_at_tail p c r : none_at p (String c r) -> none_at p r.
Proof. intros H k (x & Hget & Hx). apply (H (S k)). by exists x. Qed.

Lemma none_at_trimStart p s : none_at p s -> none_at p (JS.trimStart s).
Proof.
  induction s as [|c r IH]; intros H; [exact H|]. cbn [JS.trimStart].
  destruct (JS.is_space c); [|exact H]. apply IH. by apply none_at_tail in H.
Qed.

Lemma trimEnd_prefix s : exists v, s = JS.trimEnd s +:+ v.
Proof.
  induction s as [|c r [v IH]]; [by exists EmptyString|]. cbn [JS.trimEnd].
  destruct (JS.trimEnd r) as [|d r'] eqn:E.
  - destruct (JS.is_space c).
    + by exists (String c r).
    + exists r. reflexivity.
  - exists v. change (String c r = String c (String d r' +:+ v)). by rewrite <- IH.
Qed.

Lemma none_at_trimEnd p s : none_at p s -> none_at p (JS.trimEnd s).
Proof.
  intros H k (x & Hget & Hx). destruct (trimEnd_prefix s) as [v Hv].
  apply (H k). exists x. split; [|exact Hx]. rewrite Hv.
  rewrite <- append_correct1; [exact Hget|]. eapply get_Some_lt, Hget.
Qed.

Lemma last_at_unique p t n m : last_at p t n -> last_at p t m -> n = m.
Proof.
  intros [Hn Hbn] [Hm Hbm]. destruct (Nat.lt_trichotomy n m) as [H|[H|H]].
  - exfalso. exact (Hbn m H Hm).
  - exact H.
  - exfalso. exact (Hbm n H Hn).
Qed.

Lemma get_app_l s1 s2 k :
  (k < String.length s1)%nat -> String.get k (s1 +:+ s2) = String.get k s1.
Proof. intros H. symmetry. by apply append_correct1. Qed.

Lemma get_app_r s1 s2 k :
  String.get (String.length s1 + k) (s1 +:+ s2) = String.get k s2.
Proof. rewrite Nat.add_comm. symmetry. apply append_correct2. Qed.

Lemma substring_app_middle s1 s2 s3 :
  String.substring (String.length s1) (String.length s2) (s1 +:+ s2 +:+ s3) = s2.
Proof.
  induction s1 as [|c r IH].
  - change (String.substring 0 (String.length s2) (s2 +:+ s3) = s2).
    induction s2 as [|d r2 IH2].
    + apply substring_zero_length.
    + change (String d (String.substring 0 (String.length r2) (r2 +:+ s3)) = String d r2).
      by rewrite IH2.
  - exact IH.
Qed.

Lemma opener_not_space c : is_opener c = true -> JS.is_space c = false.
Proof. intros H. apply is_opener_cases in H as [->| ->]; reflexivity. Qed.

Lemma closer_not_space c : is_closer c = true -> JS.is_space c = false.
Proof. intros H. apply is_closer_cases in H as [->| ->]; reflexivity. Qed.

(** X25: [safeJsonParse] recovers a JSON text wrapped in prose: when a
    completion is a text that starts with a brace or a bracket and ends
    with one, preceded by a text without opening brace or bracket and
    followed by a text without closing brace or bracket, and the whole is
    not JSON, the result is what JSON.parse gives on the wrapped text. *)
Theorem safeJsonParse_recovers_wrapped
    (JSON_parse : string -> Exn Json) (pre j post : string) (e : Error) :
  none_at is_opener pre ->
  none_at is_closer post ->
  bracketed j ->
  JSON_parse (JS.trim (pre +:+ j +:+ post)) = Throw e ->
  safeJsonParse JSON_parse (pre +:+ j +:+ post) = JSON_parse j.
Proof.
  intros Hpre Hpost (o & mid & c & -> & Ho & Hc) Hfail.
  pose proof (opener_not_space o Ho) as Hos.
  pose proof (closer_not_space c Hc) as Hcs.
  set (pre' := JS.trimStart pre). set (post' := JS.trimEnd post).
  assert (Ht : JS.trim (pre +:+ String o (mid +:+ String c EmptyString) +:+ post)
               = pre' +:+ String o (mid +:+ String c EmptyString) +:+ post').
  { unfold JS.trim.
    change (String o (mid +:+ String c EmptyString) +:+ post)
      with (String o ((mid +:+ String c EmptyString) +:+ post)).
    rewrite trimStart_app by exact Hos. fold pre'.
    rewrite append_assoc.
    change (String c EmptyString +:+ post) with (String c post).
    replace (pre' +:+ String o (mid +:+ String c post))
      with ((pre' +:+ String o mid) +:+ String c post)
      by (by rewrite append_assoc).
    rewrite trimEnd_app by exact Hcs. fold post'.
    rewrite append_assoc.
    change (String o (mid +:+ String c EmptyString) +:+ post')
      with (String o ((mid +:+ String c EmptyString) +:+ post')).
    rewrite (append_assoc mid). reflexivity. }
  unfold safeJsonParse. rewrite Ht in *. rewrite Hfail. cbn [try_catch].
  set (j := String o (mid +:+ String c EmptyString)) in *.
  set (t := pre' +:+ j +:+ post').
  set (n0 := String.length pre').
  set (n1 := (String.length pre' + String.length mid + 1)%nat).
  assert (Hlenj : String.length j = (String.length mid + 2)%nat).
  { unfold j. cbn [String.length]. rewrite string_length_app. cbn [String.length]. lia. }
  assert (Hlen : String.length t = (n0 + String.length mid + 2 + String.length post')%nat).
  { unfold t. rewrite !string_length_app, Hlenj. unfold n0. lia. }
  assert (Hget0 : String.get n0 t = Some o).
  { unfold t, n0. rewrite <- (Nat.add_0_r (String.length pre')). rewrite get_app_r.
    reflexivity. }
  assert (Hget1 : String.get n1 t = Some c).
  { unfold t, n1. rewrite <- Nat.add_assoc, get_app_r.
    unfold j. change (String.get (String.length mid + 1)
                        (String o ((mid +:+ String c EmptyString) +:+ post')) = Some c).
    rewrite Nat.add_1_r. cbn [String.get].
    rewrite append_assoc. rewrite <- (Nat.add_0_r (String.length mid)), get_app_r.
    reflexivity. }
  assert (Hfirst : first_at is_opener t n0).
  { split; [by exists o|]. intros k Hk (x & Hx & Hpx).
    apply (none_at_trimStart is_opener pre Hpre k). exists x. split; [|exact Hpx].
    unfold t in Hx. by rewrite get_app_l in Hx. }
  assert (Hlast : last_at is_closer t n1).
  { split; [by exists c|]. intros k Hk (x & Hx & Hpx).
    apply (none_at_trimEnd is_closer post Hpost (k - (n0 + String.length j))%nat).
    exists x. split; [|exact Hpx].
    replace k with (String.length (pre' +:+ j) + (k - (n0 + String.length j)))%nat in Hx
      by (rewrite string_length_app, Hlenj; unfold n0, n1 in *; lia).
    unfold t in Hx. rewrite <- append_assoc in Hx. by rewrite get_app_r in Hx. }
  destruct (first_opener_spec t) as [[_ Hnone]|(n & Hn & Hfirst')].
  { exfalso. apply (Hnone n0). by exists o. }
  rewrite (first_at_unique _ _ _ _ Hfirst' Hfirst) in Hn.
  destruct (last_closer_spec t) as [[_ Hnone]|(n' & Hn' & Hlast')].
  { exfalso. apply (Hnone n1). by exists c. }
  rewrite (last_at_unique _ _ _ _ Hlast' Hlast) in Hn'.
  rewrite Hn, Hn'.
  destruct (Z.of_nat n0 =? -1) eqn:E1; [apply Z.eqb_eq in E1; lia|].
  destruct (Z.of_nat n1 <=? Z.of_nat n0) eqn:E2; [apply Z.leb_le in E2; unfold n0, n1 in *; lia|].
  rewrite slice_substring by (unfold n0, n1 in *; lia).
  f_equal. replace (n1 - n0 + 1)%nat with (String.length j) by (unfold n0, n1 in *; lia).
  unfold t, n0. apply substring_app_middle.
Qed.

(** A plan between a sentence and a closing remark. *)
Lemma safeJsonParse_recovers_wrapped_witness :
  safeJsonParse JsonText.parse ("Here is the plan: " +:+ plan_text +:+ " Good luck.")
  = JsonText.parse plan_text.
Proof.
  apply (safeJsonParse_recovers_wrapped JsonText.parse "Here is the plan: " plan_text
           " Good luck." SyntaxError).
  - intros k (x & Hx & Hpx).
    do 18 (destruct k as [|k]; [cbn in Hx; injection Hx as <-; discriminate|]).
    discriminate.
  - intros k (x & Hx & Hpx).
    do 11 (destruct k as [|k]; [cbn in Hx; injection Hx as <-; discriminate|]).
    discriminate.
  - exists "{"%char,
           (quoted "intents" +:+ ":[" +:+ quoted "solar power basics" +:+ ","
              +:+ quoted "solar power history" +:+ "]"),
           "}"%char.
    split; [|split]; reflexivity.
  - reflexivity.
Defined.

(** X26: the score and the label of a record are those of the evidence it
    cites first: when a record cites evidence, the first piece is the
    first 280 code units of a chunk whose overlap with the claim is the
    greatest of all chunks of all sources; the score of the record is that
    overlap rounded to two decimals, and its label is the label of that
    overlap. *)
Theorem verifyClaims_first_evidence_is_best
    (createId : nat -> string) (claims : list string) (sources : list EvidenceSource) :
  Forall (fun r =>
            forall u sn rest,
              evidence r = (u, sn) :: rest ->
              exists s chunk,
                s ∈ sources /\ u = url s
                /\ chunk ∈ chunkText (text s) /\ sn = JS.slice chunk 0 280
                /\ score r = toFixed2 (overlapScore (claim r) chunk)
                /\ label r = labelFromScore (overlapScore (claim r) chunk)
                /\ forall s' chunk',
                     s' ∈ sources -> chunk' ∈ chunkText (text s') ->
                     (overlapScore (claim r) chunk' <= overlapScore (claim r) chunk)%Q)
         (verifyClaims createId claims sources).
Proof.
  unfold verifyClaims. apply Forall_forall. intros r Hr.
  apply elem_of_lookup_imap_1 in Hr as (k & c & -> & _).
  unfold verify_one. cbn [evidence claim score label].
  set (scs := (fun s => (url s, chunkText (text s))) <$> sources).
  destruct (top_score_max c scs) as [[_ Hmax] _]. cbn zeta in Hmax.
  intros u sn rest Hev.
  destruct (JS.slice_list (sort_desc (score_sources c scs [])) 0 3) as [|e top] eqn:Htop;
    [discriminate|].
  cbn [fmap list_fmap] in Hev. injection Hev as <- <- _.
  assert (Hin : e ∈ score_sources c scs []).
  { apply (proj1 (sort_desc_elem _ _)).
    eapply elem_of_sublist; [|apply (slice_list_sublist _ 0 3)]. rewrite Htop. by left. }
  apply score_sources_origin in Hin
    as [Hin|(u & chunks & chunk & Hsc & Hch & Hu & Hsn & Hscore & Hpos)];
    [by apply elem_of_nil in Hin|].
  apply list_elem_of_fmap in Hsc as (s & [= -> ->] & Hs).
  exists s, chunk. rewrite Hscore in *.
  split; [exact Hs|]. split; [by rewrite Hu|]. split; [exact Hch|]. split; [exact Hsn|].
  split; [reflexivity|]. split; [reflexivity|].
  intros s' chunk' Hs' Hch'.
  apply Forall_cons in Hmax as [_ Hmax]. rewrite Forall_forall in Hmax.
  eapply Qle_trans; [|apply (Hmax (source_best c (chunkText (text s'))))].
  - pose proof (source_best_max c (chunkText (text s'))) as [_ Hall].
    apply Forall_cons in Hall as [_ Hall]. rewrite Forall_forall in Hall.
    apply Hall. apply list_elem_of_fmap. by exists chunk'.
  - apply list_elem_of_fmap. exists (url s', chunkText (text s')). split; [reflexivity|].
    apply list_elem_of_fmap. by exists s'.
Qed.

(** ** The OpenRouter provider: frames and reads *)

Section OpenRouterStream.

Import OpenRouter.

Variable JSON_parse : string -> Exn Json.
Variable number_truthy : string -> bool.

(** The complete frames of a buffer, and the text after the last
    separator. *)
Local Abbreviation frames_of s := (removelast (split_frames s)).
Local Abbreviation rest_of s := (List.last (split_frames s) EmptyString).

Lemma split_frames_step a b r :
  split_frames (String a (String b r))
  = if Ascii.eqb a JS.newline && Ascii.eqb b JS.newline
    then EmptyString :: split_frames r
    else cons_head a (split_frames (String b r)).
Proof. reflexivity. Qed.

Lemma split_frames_sep a b r :
  Ascii.eqb a JS.newline && Ascii.eqb b JS.newline = true ->
  split_frames (String a (String b r)) = EmptyString :: split_frames r.
Proof. intros H. by rewrite split_frames_step, H. Qed.

Lemma split_frames_char a b r :
  Ascii.eqb a JS.newline && Ascii.eqb b JS.newline = false ->
  split_frames (String a (String b r)) = cons_head a (split_frames (String b r)).
Proof. intros H. by rewrite split_frames_step, H. Qed.

Lemma split_frames_nonempty s : split_frames s <> [].
Proof.
  destruct s as [|a [|b r]]; [done|done|]. rewrite split_frames_step.
  destruct (_ && _); [done|]. by destruct (split_frames (String b r)).
Qed.

Lemma split_frames_parts s : split_frames s = frames_of s ++ [rest_of s].
Proof. apply app_removelast_last, split_frames_nonempty. Qed.

Lemma frames_rest_sep a b r :
  Ascii.eqb a JS.newline && Ascii.eqb b JS.newline = true ->
  frames_of (String a (String b r)) = EmptyString :: frames_of r
  /\ rest_of (String a (String b r)) = rest_of r.
Proof.
  intros H. rewrite (split_frames_sep a b r H).
  pose proof (split_frames_nonempty r) as Hne.
  destruct (split_frames r) as [|x l]; [done|]. by split.
Qed.

Lemma frames_rest_char a b r :
  Ascii.eqb a JS.newline && Ascii.eqb b JS.newline = false ->
  match frames_of (String b r) with
  | [] => frames_of (String a (String b r)) = []
          /\ rest_of (String a (String b r)) = String a (rest_of (String b r))
  | x :: f => frames_of (String a (String b r)) = String a x :: f
              /\ rest_of (String a (String b r)) = rest_of (String b r)
  end.
Proof.
  intros H. rewrite (split_frames_char a b r H).
  pose proof (split_frames_nonempty (String b r)) as Hne.
  destruct (split_frames (String b r)) as [|x [|y l]]; [done| |]; by split.
Qed.

(** A buffer without separator is its own rest. *)
Lemma rest_of_whole s : frames_of s = [] -> rest_of s = s.
Proof.
  assert (H : (frames_of s = [] -> rest_of s = s)
              /\ forall a, frames_of (String a s) = [] -> rest_of (String a s) = String a s).
  { induction s as [|b r [IH1 IH2]]; [by split|]. split; [apply IH2|].
    intros a. destruct (Ascii.eqb a JS.newline && Ascii.eqb b JS.newline) eqn:E.
    - destruct (frames_rest_sep a b r E) as [-> _]. discriminate.
    - pose proof (frames_rest_char a b r E) as H.
      destruct (frames_of (String b r)) as [|x f] eqn:Ef.
      + destruct H as [_ ->]. intros _. by rewrite IH2.
      + destruct H as [-> _]. discriminate. }
  apply H.
Qed.

(** New text goes after the rest: the frames completed so far stay. *)
Lemma split_frames_app s v :
  split_frames (s +:+ v) = frames_of s ++ split_frames (rest_of s +:+ v).
Proof.
  revert v.
  assert (H : (forall v, split_frames (s +:+ v)
                         = frames_of s ++ split_frames (rest_of s +:+ v))
              /\ forall a v, split_frames (String a s +:+ v)
                             = frames_of (String a s)
                               ++ split_frames (rest_of (String a s) +:+ v)).
  { induction s as [|b r [IH1 IH2]]; [by split|]. split; [apply IH2|].
    intros a v. destruct (Ascii.eqb a JS.newline && Ascii.eqb b JS.newline) eqn:E.
    - destruct (frames_rest_sep a b r E) as [-> ->].
      change (String a (String b r) +:+ v) with (String a (String b (r +:+ v))).
      rewrite (split_frames_sep a b _ E), IH1. reflexivity.
    - change (String a (String b r) +:+ v) with (String a (String b (r +:+ v))).
      rewrite (split_frames_char a b _ E).
      change (String b (r +:+ v)) with (String b r +:+ v). rewrite IH2.
      pose proof (frames_rest_char a b r E) as H.
      destruct (frames_of (String b r)) as [|x f] eqn:Ef.
      + destruct H as [-> ->]. cbn [app].
        rewrite (rest_of_whole _ Ef).
        change (String a (String b r) +:+ v) with (String a (String b (r +:+ v))).
        by rewrite (split_frames_char a b _ E).
      + destruct H as [-> ->]. reflexivity. }
  apply H.
Qed.

(** The rest holds no separator. *)
Lemma frames_of_rest s : frames_of (rest_of s) = [].
Proof.
  assert (H : frames_of (rest_of s) = []
              /\ forall a, frames_of (rest_of (String a s)) = []).
  { induction s as [|b r [IH1 IH2]]; [by split|]. split; [apply IH2|].
    intros a. destruct (Ascii.eqb a JS.newline && Ascii.eqb b JS.newline) eqn:E.
    - destruct (frames_rest_sep a b r E) as [_ ->]. exact IH1.
    - pose proof (frames_rest_char a b r E) as H.
      destruct (frames_of (String b r)) as [|x f] eqn:Ef.
      + destruct H as [Hf ->]. rewrite (rest_of_whole _ Ef). exact Hf.
      + destruct H as [_ ->]. apply IH2. }
  apply H.
Qed.

Lemma list_last_app {A} (l k : list A) d :
  k <> [] -> List.last (l ++ k) d = List.last k d.
Proof.
  intros H. rewrite (app_removelast_last d H) at 1.
  by rewrite app_assoc, last_last.
Qed.

Lemma frames_of_app s v :
  frames_of (s +:+ v) = frames_of s ++ frames_of (rest_of s +:+ v)
  /\ rest_of (s +:+ v) = rest_of (rest_of s +:+ v).
Proof.
  rewrite split_frames_app. split.
  - apply removelast_app, split_frames_nonempty.
  - apply list_last_app, split_frames_nonempty.
Qed.

Local Abbreviation run_frames := (OpenRouter.run_frames JSON_parse number_truthy).
Local Abbreviation read_loop := (OpenRouter.read_loop JSON_parse number_truthy).

Lemma run_frames_app l1 l2 :
  run_frames (l1 ++ l2)
  = match run_frames l1 with
    | (toks, None) => let '(toks', r) := run_frames l2 in (toks ++ toks', r)
    | (toks, Some r) => (toks, Some r)
    end.
Proof.
  induction l1 as [|frame rest IH]; cbn [app OpenRouter.run_frames].
  - by destruct (run_frames l2).
  - destruct (handle_frame JSON_parse number_truthy frame); [exact IH| |reflexivity|reflexivity].
    rewrite IH. destruct (run_frames rest) as [toks [r|]]; [reflexivity|].
    by destruct (run_frames l2).
Qed.

(** The loop on the reads does what one pass on the whole text does. *)
Lemma read_loop_whole broken :
  forall reads buffer,
    frames_of buffer = [] ->
    read_loop reads broken buffer
    = match run_frames (frames_of (buffer +:+ concat_strings reads)) with
      | (toks, None) => (toks, match broken with Some e => Raised e | None => Completed end)
      | (toks, Some r) => (toks, r)
      end.
Proof.
  induction reads as [|value rest IH]; intros buffer Hbuf; cbn [OpenRouter.read_loop].
  - cbn [concat_strings foldr]. rewrite string_app_nil_r, Hbuf. reflexivity.
  - cbn [concat_strings foldr]. fold (concat_strings rest).
    rewrite <- append_assoc.
    destruct (frames_of_app (buffer +:+ value) (concat_strings rest)) as [-> _].
    rewrite run_frames_app.
    destruct (run_frames (frames_of (buffer +:+ value))) as [toks [r|]]; [reflexivity|].
    rewrite IH by apply frames_of_rest.
    by destruct (run_frames _) as [toks' [r|]].
Qed.

(** X27: the chunks handed to [onToken] and the way [streamChat] ends depend
    on the text of the response only, not on how the reads cut it. *)
Theorem streamChat_read_boundaries apiKey ok broken reads1 reads2 :
  concat_strings reads1 = concat_strings reads2 ->
  OpenRouter.streamChat JSON_parse number_truthy apiKey
    (Ok {| stream_ok := ok; stream_body := Some (reads1, broken) |})
  = OpenRouter.streamChat JSON_parse number_truthy apiKey
      (Ok {| stream_ok := ok; stream_body := Some (reads2, broken) |}).
Proof.
  intros H. unfold OpenRouter.streamChat. destruct apiKey as [key|]; [|reflexivity].
  destruct (negb (nonempty key)); [reflexivity|]. cbn [stream_ok stream_body].
  destruct ok; [|reflexivity].
  rewrite !read_loop_whole by reflexivity. cbn [append]. by rewrite H.
Qed.

End OpenRouterStream.

Lemma streamChat_read_boundaries_witness :
  OpenRouter.streamChat JsonText.parse (fun _ => true) (Some "key")
    (Ok {| stream_ok := true; stream_body := Some ([sse_head; sse_tail], None) |})
  = OpenRouter.streamChat JsonText.parse (fun _ => true) (Some "key")
      (Ok {| stream_ok := true; stream_body := Some ([sse_head +:+ sse_tail], None) |}).
Proof. apply streamChat_read_boundaries. reflexivity. Defined.

(** The response of the example hands over its one chunk and completes. *)
Lemma streamChat_example :
  OpenRouter.streamChat JsonText.parse (fun _ => true) (Some "key")
    (Ok {| stream_ok := true; stream_body := Some ([sse_head; sse_tail], None) |})
  = ([JStr "Hi"], OpenRouter.Completed).
Proof. reflexivity. Qed.
